(** * Order and payment consistency of the PDF bookstore

    A shallow embedding of the database-side transitions of the bookstore
    (the PL/pgSQL functions [create_order_with_idempotency],
    [process_webhook_event], [complete_payment_atomic] and
    [cleanup_expired_orders], with the tables and constraints they touch) and
    of the timer-driven payment monitor of the browser client
    ([PaymentManager] in [frontend/js/payment.js]).

    Conventions of the embedding.
    - A table is the list of its rows in insertion order; an [INSERT] appends.
    - A nullable column is an [option]; [None] is SQL [NULL].
    - [UUID] values are kept in their text form.
    - [TIMESTAMP WITH TIME ZONE] is an integer count of microseconds.
    - [DECIMAL(12,2)] is an integer count of hundredths.
    - [NOW()], [RANDOM()] and [gen_random_uuid()] are inputs of a call,
      gathered in the record [env].
    - Surrogate keys that the source never reads back (the [id] column of
      [user_purchases], [payment_logs], [audit_logs], [webhook_events]) are
      not represented: the generated keys are fresh.
    - Foreign keys are checked where the referencing value is an argument
      of the call ([INSERT INTO orders]).  The other inserts copy the
      referencing value from an order row that is in the table, for which
      PostgreSQL keeps the reference.
    - Arguments of a function range over the domain of the column they are
      stored in (not null, within the column width) unless the signature
      declares [DEFAULT NULL].
    - All functions are [SECURITY DEFINER]: they run as the owner of the
      tables, for whom the row-level policies do not apply. *)

From Stdlib Require Import List String Ascii ZArith Bool Lia.
From Stdlib Require Import DecimalString.
Import ListNotations.

#[local] Set Warnings "-register-all".
Local Open Scope string_scope.
Local Open Scope Z_scope.

(** ** Values *)

Definition uuid := string.
Definition timestamptz := Z.

(** JSON documents, as built by [json_build_object] / [jsonb_build_object]
    and as received from the payment gateway. *)
Inductive json : Type :=
| JNull
| JBool (b : bool)
| JNum (n : Z)
| JStr (s : string)
| JObj (fields : list (string * json)).

Fixpoint assoc {A : Type} (k : string) (l : list (string * A)) : option A :=
  match l with
  | [] => None
  | (k', v) :: tl => if String.eqb k k' then Some v else assoc k tl
  end.

(** The [->] operator of PostgreSQL on an object. *)
Definition jget (k : string) (j : json) : option json :=
  match j with
  | JObj fields => assoc k fields
  | _ => None
  end.

Definition opt_eqb {A : Type} (eqb : A -> A -> bool) (x y : option A) : bool :=
  match x, y with
  | Some a, Some b => eqb a b
  | _, _ => false
  end.

(** SQL comparison [col = v] against a non-null value: [NULL = v] is not true. *)
Definition sql_eq (col : option string) (v : string) : bool :=
  match col with
  | Some c => String.eqb c v
  | None => false
  end.

(** SQL test [col = true] on a nullable boolean: [NULL = true] is not true. *)
Definition sql_true (col : option bool) : bool :=
  match col with
  | Some b => b
  | None => false
  end.

(** ** Tables *)

Module Users.
(** Modelled from the spec: the table [users] is declared in migration 001,
    which is not among the sources; a row is known by its primary key, which
    is what the foreign keys of the other tables refer to. *)
Record row : Type := mk {
  id : uuid
}.
End Users.

Module Books.
(** [CREATE TABLE books] (migration 002, kept in
    migrations/012_add_password_reset_and_verification.sql): the primary key
    and [is_active BOOLEAN DEFAULT true], which is nullable; the other
    columns are not read by the functions below. *)
Record row : Type := mk {
  id : uuid;
  is_active : option bool
}.
End Books.

Module Orders.
(** [CHECK (status IN ('pending', 'paid', 'failed', 'cancelled', 'refunded',
    'expired'))] *)
Inductive status_t : Type :=
| pending | paid | failed | cancelled | refunded | expired.

Definition status_text (s : status_t) : string :=
  match s with
  | pending => "pending"
  | paid => "paid"
  | failed => "failed"
  | cancelled => "cancelled"
  | refunded => "refunded"
  | expired => "expired"
  end.

Definition status_eqb (a b : status_t) : bool :=
  match a, b with
  | pending, pending | paid, paid | failed, failed
  | cancelled, cancelled | refunded, refunded | expired, expired => true
  | _, _ => false
  end.

Record row : Type := mk {
  id : uuid;
  user_id : option uuid;
  book_id : option uuid;
  order_number : string;
  amount : Z;
  status : status_t;
  payment_method : option string;
  midtrans_order_id : option string;
  payment_url : option string;
  paid_at : option timestamptz;
  expires_at : option timestamptz;
  idempotency_key : option string;
  created_at : option timestamptz;
  updated_at : option timestamptz
}.

(** [SET status = 'paid', paid_at = NOW(), updated_at = NOW()] *)
Definition set_paid (now : timestamptz) (o : row) : row :=
  mk (id o) (user_id o) (book_id o) (order_number o) (amount o)
     paid (payment_method o) (midtrans_order_id o) (payment_url o)
     (Some now) (expires_at o) (idempotency_key o) (created_at o) (Some now).

(** [SET status = 'expired', updated_at = NOW()] *)
Definition set_expired (now : timestamptz) (o : row) : row :=
  mk (id o) (user_id o) (book_id o) (order_number o) (amount o)
     expired (payment_method o) (midtrans_order_id o) (payment_url o)
     (paid_at o) (expires_at o) (idempotency_key o) (created_at o) (Some now).
End Orders.

Module UserPurchases.
Record row : Type := mk {
  user_id : option uuid;
  book_id : option uuid;
  order_id : option uuid;
  purchased_at : option timestamptz;
  download_count : option Z;
  last_downloaded_at : option timestamptz
}.
End UserPurchases.

Module PaymentLogs.
Record row : Type := mk {
  order_id : option uuid;
  transaction_id : option string;
  payment_type : option string;
  gross_amount : option Z;
  transaction_status : option string;
  fraud_status : option string;
  settlement_time : option timestamptz;
  webhook_data : option json;
  created_at : option timestamptz
}.
End PaymentLogs.

Module AuditLogs.
(** The columns written by the functions below; the remaining ones
    ([ip_address], [user_agent], [session_id], [risk_score],
    [requires_review]) keep their defaults. *)
Record row : Type := mk {
  user_id : option uuid;
  action : string;
  resource_type : option string;
  resource_id : option uuid;
  details : option json;
  created_at : option timestamptz
}.
End AuditLogs.

Module WebhookEvents.
Record row : Type := mk {
  transaction_id : string;
  order_id : string;
  event_type : string;
  payload : option json;
  created_at : option timestamptz
}.
End WebhookEvents.

Record db : Type := mkdb {
  users : list Users.row;
  books : list Books.row;
  orders : list Orders.row;
  user_purchases : list UserPurchases.row;
  payment_logs : list PaymentLogs.row;
  audit_logs : list AuditLogs.row;
  webhook_events : list WebhookEvents.row
}.

(** ** The PL/pgSQL execution model *)

(** Error conditions raised by the statements below. *)
Inductive sqlstate : Type :=
| unique_violation (constraint : string)
| check_violation (relation constraint : string)
| foreign_key_violation (relation constraint : string).

Definition dquote : string := String (ascii_of_nat 34) EmptyString.

(** The message PostgreSQL puts in [SQLERRM]. *)
Definition SQLERRM (e : sqlstate) : string :=
  match e with
  | unique_violation c =>
      "duplicate key value violates unique constraint " ++ dquote ++ c ++ dquote
  | check_violation r c =>
      "new row for relation " ++ dquote ++ r ++ dquote
      ++ " violates check constraint " ++ dquote ++ c ++ dquote
  | foreign_key_violation r c =>
      "insert or update on table " ++ dquote ++ r ++ dquote
      ++ " violates foreign key constraint " ++ dquote ++ c ++ dquote
  end.

(** A block of statements: it either raises, and then none of its writes are
    visible, or returns a value and the database it leaves. *)
Definition plpgsql (A : Type) : Type := db -> sqlstate + (A * db).

Definition ret {A : Type} (a : A) : plpgsql A := fun d => inr (a, d).

Definition bind {A B : Type} (m : plpgsql A) (k : A -> plpgsql B) : plpgsql B :=
  fun d => match m d with
           | inl e => inl e
           | inr (a, d') => k a d'
           end.

Definition query {A : Type} (q : db -> A) : plpgsql A := fun d => inr (q d, d).

Definition modify (f : db -> db) : plpgsql unit := fun d => inr (tt, f d).

(** A constraint: the statement raises [e] unless [ok] holds. *)
Definition enforce (ok : db -> bool) (e : sqlstate) : plpgsql unit :=
  fun d => if ok d then inr (tt, d) else inl e.

(** [BEGIN body EXCEPTION WHEN ... THEN handler END]: when [body] raises, its
    writes are rolled back to the state at [BEGIN] and the handler runs
    there. *)
Definition exception_block {A : Type} (body : plpgsql A)
    (handler : sqlstate -> plpgsql A) : plpgsql A :=
  fun d => match body d with
           | inl e => handler e d
           | inr r => inr r
           end.

Declare Scope plpgsql_scope.
Delimit Scope plpgsql_scope with plpgsql.
Notation "x <- m ;; k" := (bind m (fun x => k))
  (at level 61, m at next level, right associativity) : plpgsql_scope.
Notation "m ;; k" := (bind m (fun _ => k))
  (at level 61, right associativity) : plpgsql_scope.
Local Open Scope plpgsql_scope.

(** What a call reads from the session rather than from its arguments. *)
Record env : Type := mkenv {
  NOW : timestamptz;
  (** [TO_CHAR(NOW(), 'YYYYMMDD')] in the time zone of the session *)
  NOW_YYYYMMDD : string;
  (** [FLOOR(RANDOM() * 999999)] *)
  RANDOM_999999 : nat;
  gen_random_uuid : uuid
}.

(** ** Statements on the tables *)

(** [SELECT * INTO v_order FROM orders WHERE order_number = p FOR UPDATE] *)
Definition select_order_for_update (p_order_number : string)
    : plpgsql (option Orders.row) :=
  query (fun d =>
    find (fun o => String.eqb (Orders.order_number o) p_order_number) (orders d)).

(** [SELECT EXISTS (SELECT 1 FROM user_purchases WHERE order_id = v)] *)
Definition exists_purchase_of_order (v_order_id : uuid) : plpgsql bool :=
  query (fun d =>
    existsb (fun p => sql_eq (UserPurchases.order_id p) v_order_id) (user_purchases d)).

(** [EXISTS (SELECT 1 FROM user_purchases WHERE user_id = u AND book_id = b)] *)
Definition exists_purchase_of_user (p_user_id p_book_id : uuid) : plpgsql bool :=
  query (fun d =>
    existsb (fun p => sql_eq (UserPurchases.user_id p) p_user_id
                      && sql_eq (UserPurchases.book_id p) p_book_id)
            (user_purchases d)).

(** [EXISTS (SELECT 1 FROM books WHERE id = b AND is_active = true)] *)
Definition exists_active_book (p_book_id : uuid) : plpgsql bool :=
  query (fun d =>
    existsb (fun b => String.eqb (Books.id b) p_book_id && sql_true (Books.is_active b))
            (books d)).

(** What [UPDATE ... SET ... WHERE cond] does to one row. *)
Definition update_row {A : Type} (cond : A -> bool) (set : A -> A) (r : A) : A :=
  if cond r then set r else r.

(** [UPDATE orders SET ... WHERE cond]; the result is [ROW_COUNT].  Both
    updates of the source set [updated_at = NOW()] themselves, which is what
    the trigger [update_orders_updated_at] is there for (its function is
    declared in migration 001, not among the sources); the trigger on
    [status] only touches the analytics cache. *)
Definition update_orders (cond : Orders.row -> bool) (set : Orders.row -> Orders.row)
    : plpgsql nat :=
  fun d =>
    inr (List.length (filter cond (orders d)),
         mkdb (users d) (books d) (map (update_row cond set) (orders d))
              (user_purchases d) (payment_logs d) (audit_logs d) (webhook_events d)).

(** Two rows collide on [UNIQUE (user_id, book_id)] when both columns are not
    null and equal. *)
Definition same_user_book (p q : UserPurchases.row) : bool :=
  opt_eqb String.eqb (UserPurchases.user_id p) (UserPurchases.user_id q)
  && opt_eqb String.eqb (UserPurchases.book_id p) (UserPurchases.book_id q).

Definition insert_user_purchases (r : UserPurchases.row) : plpgsql unit :=
  enforce (fun d => negb (existsb (same_user_book r) (user_purchases d)))
          (unique_violation "user_purchases_user_id_book_id_key") ;;
  modify (fun d => mkdb (users d) (books d) (orders d) (user_purchases d ++ [r])
                        (payment_logs d) (audit_logs d) (webhook_events d)).

Definition insert_payment_logs (r : PaymentLogs.row) : plpgsql unit :=
  modify (fun d => mkdb (users d) (books d) (orders d) (user_purchases d)
                        (payment_logs d ++ [r]) (audit_logs d) (webhook_events d)).

Definition insert_audit_logs (r : AuditLogs.row) : plpgsql unit :=
  modify (fun d => mkdb (users d) (books d) (orders d) (user_purchases d)
                        (payment_logs d) (audit_logs d ++ [r]) (webhook_events d)).

Definition same_webhook_key (r q : WebhookEvents.row) : bool :=
  String.eqb (WebhookEvents.transaction_id r) (WebhookEvents.transaction_id q)
  && String.eqb (WebhookEvents.event_type r) (WebhookEvents.event_type q).

Definition insert_webhook_events (r : WebhookEvents.row) : plpgsql unit :=
  enforce (fun d => negb (existsb (same_webhook_key r) (webhook_events d)))
          (unique_violation "webhook_events_transaction_id_event_type_key") ;;
  modify (fun d => mkdb (users d) (books d) (orders d) (user_purchases d)
                        (payment_logs d) (audit_logs d) (webhook_events d ++ [r])).

(** [CHECK (expires_at > created_at)]; a check that evaluates to null
    passes. *)
Definition expires_after_created (r : Orders.row) : bool :=
  match Orders.expires_at r, Orders.created_at r with
  | Some e, Some c => c <? e
  | _, _ => true
  end.

(** [REFERENCES users(id)] on a nullable column: a null reference passes. *)
Definition user_is_there (d : db) (c : option uuid) : bool :=
  match c with
  | None => true
  | Some u => existsb (fun x => String.eqb (Users.id x) u) (users d)
  end.

(** [REFERENCES books(id)] *)
Definition book_is_there (d : db) (c : option uuid) : bool :=
  match c with
  | None => true
  | Some b => existsb (fun x => String.eqb (Books.id x) b) (books d)
  end.

(** [INSERT INTO orders]: the check constraints of the row are evaluated
    first, then the unique indexes in the order of their creation, and, when
    the statement ends, the foreign keys [user_id REFERENCES users(id)] and
    [book_id REFERENCES books(id)]. *)
Definition insert_orders (r : Orders.row) : plpgsql unit :=
  enforce (fun _ => 0 <? Orders.amount r)
          (check_violation "orders" "orders_amount_positive") ;;
  enforce (fun _ => expires_after_created r)
          (check_violation "orders" "orders_expires_after_created") ;;
  enforce (fun d => negb (existsb (fun o => String.eqb (Orders.id o) (Orders.id r))
                                  (orders d)))
          (unique_violation "orders_pkey") ;;
  enforce (fun d => negb (existsb (fun o => String.eqb (Orders.order_number o)
                                                       (Orders.order_number r))
                                  (orders d)))
          (unique_violation "orders_order_number_key") ;;
  enforce (fun d => negb (existsb (fun o => opt_eqb String.eqb
                                              (Orders.midtrans_order_id o)
                                              (Orders.midtrans_order_id r))
                                  (orders d)))
          (unique_violation "orders_midtrans_order_id_key") ;;
  enforce (fun d => negb (existsb (fun o => opt_eqb String.eqb
                                              (Orders.idempotency_key o)
                                              (Orders.idempotency_key r))
                                  (orders d)))
          (unique_violation "orders_idempotency_key_key") ;;
  enforce (fun d => user_is_there d (Orders.user_id r))
          (foreign_key_violation "orders" "orders_user_id_fkey") ;;
  enforce (fun d => book_is_there d (Orders.book_id r))
          (foreign_key_violation "orders" "orders_book_id_fkey") ;;
  modify (fun d => mkdb (users d) (books d) (orders d ++ [r]) (user_purchases d)
                        (payment_logs d) (audit_logs d) (webhook_events d)).

(** ** The four transitions *)

Definition to_text (n : nat) : string :=
  NilEmpty.string_of_uint (Nat.to_uint n).

Fixpoint replicate (n : nat) (c : string) : string :=
  match n with
  | O => EmptyString
  | S n' => c ++ replicate n' c
  end.

(** [LPAD(s, len, fill)] with a one-character [fill]: a longer string is cut
    on the right. *)
Definition LPAD (s : string) (len : nat) (fill : string) : string :=
  if Nat.leb len (String.length s) then substring 0 len s
  else replicate (len - String.length s) fill ++ s.

(** [INTERVAL '24 hours'] in microseconds. *)
Definition interval_24_hours : Z := 24 * 60 * 60 * 1000000.

(** [create_order_with_idempotency]
    (migrations/010_payment_service_enhancements.sql) *)
Definition create_order_with_idempotency (e : env)
    (p_user_id p_book_id : uuid) (p_amount : Z) (p_payment_method : string)
    (p_idempotency_key : option string) : plpgsql json :=
  exception_block
    (book_exists <- exists_active_book p_book_id ;;
     if negb book_exists
     then ret (JObj [("success", JBool false); ("error", JStr "BOOK_NOT_FOUND")])
     else
       purchased <- exists_purchase_of_user p_user_id p_book_id ;;
       if purchased
       then ret (JObj [("success", JBool false);
                       ("error", JStr "BOOK_ALREADY_PURCHASED")])
       else
         let v_order_number :=
           "ORD-" ++ NOW_YYYYMMDD e ++ "-"
           ++ LPAD (to_text (RANDOM_999999 e)) 6 "0" in
         let v_expires_at := NOW e + interval_24_hours in
         let v_order_id := gen_random_uuid e in
         insert_orders
           (Orders.mk v_order_id (Some p_user_id) (Some p_book_id) v_order_number
                      p_amount Orders.pending (Some p_payment_method) None None
                      None (Some v_expires_at) p_idempotency_key
                      (Some (NOW e)) (Some (NOW e))) ;;
         ret (JObj [("success", JBool true);
                    ("order_id", JStr v_order_id);
                    ("order_number", JStr v_order_number)]))
    (fun err =>
       match err with
       | unique_violation _ =>
           ret (JObj [("success", JBool false); ("error", JStr "DUPLICATE_ORDER")])
       | _ =>
           ret (JObj [("success", JBool false); ("error", JStr (SQLERRM err))])
       end).

(** [SELECT id INTO v_existing_event FROM webhook_events WHERE transaction_id
    = t AND event_type = ty] followed by the test [v_existing_event IS NOT
    NULL]: [id] is the primary key, so the test holds exactly when a row
    matches. *)
Definition existing_webhook_event (p_transaction_id p_event_type : string)
    : plpgsql bool :=
  query (fun d =>
    existsb (fun w => String.eqb (WebhookEvents.transaction_id w) p_transaction_id
                      && String.eqb (WebhookEvents.event_type w) p_event_type)
            (webhook_events d)).

(** [process_webhook_event]
    (migrations/010_payment_service_enhancements.sql); it has no exception
    block, an error of its statements reaches the caller. *)
Definition process_webhook_event (e : env)
    (p_transaction_id p_order_id p_event_type : string) (p_payload : json)
    : plpgsql json :=
  v_existing_event <- existing_webhook_event p_transaction_id p_event_type ;;
  if v_existing_event
  then ret (JObj [("success", JBool true);
                  ("message", JStr "Event already processed");
                  ("duplicate", JBool true)])
  else
    insert_webhook_events
      (WebhookEvents.mk p_transaction_id p_order_id p_event_type
                        (Some p_payload) (Some (NOW e))) ;;
    ret (JObj [("success", JBool true);
               ("message", JStr "Event processed successfully");
               ("duplicate", JBool false)]).

(** The statements of [complete_payment_atomic] between [BEGIN] and
    [EXCEPTION]. *)
Definition complete_payment_body (e : env)
    (p_order_number p_transaction_id : string) (p_webhook_data : json)
    : plpgsql json :=
  found <- select_order_for_update p_order_number ;;
  match found with
  | None =>
      ret (JObj [("success", JBool false); ("error", JStr "ORDER_NOT_FOUND")])
  | Some v_order =>
      v_purchase_exists <- exists_purchase_of_order (Orders.id v_order) ;;
      if v_purchase_exists
      then ret (JObj [("success", JBool true);
                      ("error", JStr "ALREADY_PROCESSED");
                      ("message", JStr "Payment sudah diproses sebelumnya")])
      else if negb (Orders.status_eqb (Orders.status v_order) Orders.pending)
      then ret (JObj [("success", JBool false);
                      ("error", JStr "ORDER_NOT_PENDING");
                      ("current_status",
                       JStr (Orders.status_text (Orders.status v_order)))])
      else
        update_orders (fun o => String.eqb (Orders.id o) (Orders.id v_order))
                      (Orders.set_paid (NOW e)) ;;
        insert_user_purchases
          (UserPurchases.mk (Orders.user_id v_order) (Orders.book_id v_order)
                            (Some (Orders.id v_order)) (Some (NOW e)) (Some 0) None) ;;
        insert_payment_logs
          (PaymentLogs.mk (Some (Orders.id v_order)) (Some p_transaction_id) None None
                          (Some "settlement") None None (Some p_webhook_data)
                          (Some (NOW e))) ;;
        insert_audit_logs
          (AuditLogs.mk (Orders.user_id v_order) "PAYMENT_COMPLETED" (Some "order")
                        (Some (Orders.id v_order))
                        (Some (JObj [("transaction_id", JStr p_transaction_id);
                                     ("amount", JNum (Orders.amount v_order))]))
                        (Some (NOW e))) ;;
        ret (JObj [("success", JBool true); ("order_id", JStr (Orders.id v_order))])
  end.

(** [complete_payment_atomic] (migration 007, kept in
    migrations/011_add_refresh_tokens.sql): the body under
    [EXCEPTION WHEN OTHERS THEN RETURN {success: false, error: SQLERRM}]. *)
Definition complete_payment_atomic (e : env)
    (p_order_number p_transaction_id : string) (p_webhook_data : json)
    : plpgsql json :=
  exception_block
    (complete_payment_body e p_order_number p_transaction_id p_webhook_data)
    (fun err =>
       ret (JObj [("success", JBool false); ("error", JStr (SQLERRM err))])).

(** [WHERE status = 'pending' AND expires_at < NOW()]; a null [expires_at]
    does not satisfy the comparison. *)
Definition pending_and_expired (now : timestamptz) (o : Orders.row) : bool :=
  Orders.status_eqb (Orders.status o) Orders.pending
  && match Orders.expires_at o with
     | Some t => t <? now
     | None => false
     end.

(** [cleanup_expired_orders] (same file) *)
Definition cleanup_expired_orders (e : env) : plpgsql Z :=
  expired_count <- update_orders (pending_and_expired (NOW e))
                                 (Orders.set_expired (NOW e)) ;;
  insert_audit_logs
    (AuditLogs.mk None "EXPIRED_ORDERS_CLEANUP" (Some "system") None
                  (Some (JObj [("expired_count", JNum (Z.of_nat expired_count))]))
                  (Some (NOW e))) ;;
  ret (Z.of_nat expired_count).

(** ** Integrity of a database *)

(** No two entries of [l] clash. *)
Fixpoint distinctb {K : Type} (clash : K -> K -> bool) (l : list K) : bool :=
  match l with
  | [] => true
  | k :: tl => negb (existsb (clash k) tl) && distinctb clash tl
  end.

(** [user_purchases.order_id REFERENCES orders(id)] *)
Definition references_order (d : db) (p : UserPurchases.row) : bool :=
  match UserPurchases.order_id p with
  | None => true
  | Some i => existsb (fun o => String.eqb (Orders.id o) i) (orders d)
  end.

(** The declared constraints that the transitions rely on: primary key and
    unique columns of [orders] (nulls never clash), [orders_amount_positive],
    [UNIQUE (user_id, book_id)] on [user_purchases] with its reference to
    [orders], and [UNIQUE (transaction_id, event_type)] on
    [webhook_events]. *)
Definition schema_ok (d : db) : bool :=
  distinctb String.eqb (map Orders.id (orders d))
  && distinctb String.eqb (map Orders.order_number (orders d))
  && distinctb (opt_eqb String.eqb) (map Orders.midtrans_order_id (orders d))
  && distinctb (opt_eqb String.eqb) (map Orders.idempotency_key (orders d))
  && forallb (fun o => 0 <? Orders.amount o) (orders d)
  && distinctb same_user_book (user_purchases d)
  && forallb (references_order d) (user_purchases d)
  && distinctb same_webhook_key (webhook_events d).

(** A purchase row is only ever written together with the move of its order
    out of [pending]: no purchase refers to a pending order. *)
Definition purchases_settled (d : db) : bool :=
  forallb (fun p =>
    forallb (fun o =>
      negb (sql_eq (UserPurchases.order_id p) (Orders.id o)
            && Orders.status_eqb (Orders.status o) Orders.pending))
      (orders d))
    (user_purchases d).

Definition consistent (d : db) : bool := schema_ok d && purchases_settled d.

(** The rows of [user_purchases] held by user [u] for book [b]. *)
Definition purchases_of (u b : uuid) (d : db) : list UserPurchases.row :=
  filter (fun p => sql_eq (UserPurchases.user_id p) u
                   && sql_eq (UserPurchases.book_id p) b)
         (user_purchases d).


(** ** Sequences of calls *)

Inductive call : Type :=
| CreateOrder (e : env) (p_user_id p_book_id : uuid) (p_amount : Z)
              (p_payment_method : string) (p_idempotency_key : option string)
| ProcessWebhook (e : env) (p_transaction_id p_order_id p_event_type : string)
                 (p_payload : json)
| CompletePayment (e : env) (p_order_number p_transaction_id : string)
                  (p_webhook_data : json)
| CleanupExpired (e : env).

(** The database left by a call; a call that raises leaves it as it was. *)
Definition after {A : Type} (m : plpgsql A) (d : db) : db :=
  match m d with
  | inl _ => d
  | inr (_, d') => d'
  end.

Definition exec (c : call) (d : db) : db :=
  match c with
  | CreateOrder e u b a pm k => after (create_order_with_idempotency e u b a pm k) d
  | ProcessWebhook e t o ty pl => after (process_webhook_event e t o ty pl) d
  | CompletePayment e n t w => after (complete_payment_atomic e n t w) d
  | CleanupExpired e => after (cleanup_expired_orders e) d
  end.

Definition run (cs : list call) (d : db) : db :=
  fold_left (fun acc c => exec c acc) cs d.

(** ** Outcomes of a settlement *)

(** The row that a settlement of [o] adds to [user_purchases]. *)
Definition purchase_of_order (now : timestamptz) (o : Orders.row) : UserPurchases.row :=
  UserPurchases.mk (Orders.user_id o) (Orders.book_id o) (Some (Orders.id o))
                   (Some now) (Some 0) None.

(** The row that a settlement of [o] adds to [payment_logs]. *)
Definition log_of_payment (now : timestamptz) (o : Orders.row) (txn : string)
    (payload : json) : PaymentLogs.row :=
  PaymentLogs.mk (Some (Orders.id o)) (Some txn) None None (Some "settlement")
                 None None (Some payload) (Some now).

Definition audit_of_payment (now : timestamptz) (o : Orders.row) (txn : string)
    : AuditLogs.row :=
  AuditLogs.mk (Orders.user_id o) "PAYMENT_COMPLETED" (Some "order")
               (Some (Orders.id o))
               (Some (JObj [("transaction_id", JStr txn);
                            ("amount", JNum (Orders.amount o))]))
               (Some now).

(** The database after a settlement of [o] went through. *)
Definition settled (now : timestamptz) (o : Orders.row) (txn : string)
    (payload : json) (d : db) : db :=
  mkdb (users d) (books d)
       (map (fun x => if String.eqb (Orders.id x) (Orders.id o)
                      then Orders.set_paid now x else x) (orders d))
       (user_purchases d ++ [purchase_of_order now o])
       (payment_logs d ++ [log_of_payment now o txn payload])
       (audit_logs d ++ [audit_of_payment now o txn])
       (webhook_events d).

(** Some purchase row clashes with the one a settlement of [o] would add. *)
Definition owned_by_buyer (o : Orders.row) (d : db) : bool :=
  existsb (fun p => opt_eqb String.eqb (Orders.user_id o) (UserPurchases.user_id p)
                    && opt_eqb String.eqb (Orders.book_id o) (UserPurchases.book_id p))
          (user_purchases d).

(** A purchase row refers to the order [o]. *)
Definition referenced (o : Orders.row) (d : db) : Prop :=
  exists p, In p (user_purchases d) /\ UserPurchases.order_id p = Some (Orders.id o).

(** The buyer of [o] already holds a purchase of the book of [o]. *)
Definition already_owned (o : Orders.row) (d : db) : Prop :=
  exists p u b,
    In p (user_purchases d)
    /\ Orders.user_id o = Some u /\ Orders.book_id o = Some b
    /\ UserPurchases.user_id p = Some u /\ UserPurchases.book_id p = Some b.

Inductive completion : Type :=
| OrderNotFound
| AlreadyProcessed (o : Orders.row)
| OrderNotPending (o : Orders.row)
| Rejected (o : Orders.row)
| Settled (o : Orders.row).

(** Which way a call of [complete_payment_atomic] goes on [d]. *)
Definition completion_of (num : string) (d : db) : completion :=
  match find (fun o => String.eqb (Orders.order_number o) num) (orders d) with
  | None => OrderNotFound
  | Some o =>
      if existsb (fun p => sql_eq (UserPurchases.order_id p) (Orders.id o))
                 (user_purchases d)
      then AlreadyProcessed o
      else if negb (Orders.status_eqb (Orders.status o) Orders.pending)
      then OrderNotPending o
      else if owned_by_buyer o d
      then Rejected o
      else Settled o
  end.


(** ** Outcome of an order creation *)

(** The row [create_order_with_idempotency] sends to [INSERT INTO orders]. *)
Definition new_order (e : env) (p_user_id p_book_id : uuid) (p_amount : Z)
    (p_payment_method : string) (p_idempotency_key : option string) : Orders.row :=
  Orders.mk (gen_random_uuid e) (Some p_user_id) (Some p_book_id)
            ("ORD-" ++ NOW_YYYYMMDD e ++ "-" ++ LPAD (to_text (RANDOM_999999 e)) 6 "0")
            p_amount Orders.pending (Some p_payment_method) None None None
            (Some (NOW e + interval_24_hours)) p_idempotency_key
            (Some (NOW e)) (Some (NOW e)).

Definition failure (error : string) : json :=
  JObj [("success", JBool false); ("error", JStr error)].

(** [WHERE status = 'pending' AND expires_at < NOW()], as a proposition. *)
Definition stale (now : timestamptz) (o : Orders.row) : Prop :=
  Orders.status o = Orders.pending
  /\ exists t, Orders.expires_at o = Some t /\ t < now.

(** ** A small shop

    One active book; the same user orders it twice before paying, and then
    pays the first order. *)

Definition shop : db :=
  mkdb [Users.mk "u-1"; Users.mk "u-2"] [Books.mk "b-1" (Some true)] [] [] [] [] [].

Definition at_1000 : env := mkenv 1000 "20250101" 42 "o-1".
Definition at_2000 : env := mkenv 2000 "20250101" 43 "o-2".
Definition at_3000 : env := mkenv 3000 "20250101" 44 "o-3".
Definition next_day : env := mkenv (3000 + 2 * interval_24_hours) "20250103" 45 "o-4".

Definition gateway_payload : json :=
  JObj [("transaction_status", JStr "capture"); ("payment_type", JStr "qris")].

Definition one_order : db :=
  Eval vm_compute in
    exec (CreateOrder at_1000 "u-1" "b-1" 5000000 "qris" (Some "key-1")) shop.

Definition two_orders : db :=
  Eval vm_compute in
    exec (CreateOrder at_2000 "u-1" "b-1" 5000000 "gopay" (Some "key-2")) one_order.

Definition first_settled : db :=
  Eval vm_compute in
    exec (CompletePayment at_3000 "ORD-20250101-000042" "tx-1" gateway_payload)
         two_orders.

Definition first_order : Orders.row :=
  Orders.mk "o-1" (Some "u-1") (Some "b-1") "ORD-20250101-000042" 5000000
            Orders.pending (Some "qris") None None None
            (Some (1000 + interval_24_hours)) (Some "key-1") (Some 1000) (Some 1000).

Definition second_order : Orders.row :=
  Orders.mk "o-2" (Some "u-1") (Some "b-1") "ORD-20250101-000043" 5000000
            Orders.pending (Some "gopay") None None None
            (Some (2000 + interval_24_hours)) (Some "key-2") (Some 2000) (Some 2000).

(** * The payment monitor of the browser client

    [PaymentManager] (frontend/js/payment.js) watches a payment with three
    timers.  The page is single-threaded: a timer callback runs to its end
    before the next one starts.  The embedding keeps a queue of pending
    tasks in virtual time (milliseconds); a callback takes no time, and the
    rest of [checkPaymentStatus] after [await this.api.getOrder(...)] is a
    task of its own that becomes due when the answer arrives.

    What the page cannot decide is gathered in the record [world]: the status
    the server answers, the delay of each answer, when the user closes the
    payment window and what the user answers to [confirm].  The subscribers
    registered by [onPaymentEvent] only observe: the events they are sent are
    written to the log.  A session is a manager after a successful
    [openPaymentWindow]; [steps] drives it by its own timers, which is all
    that reaches a manager whose [init] was not called (the application
    does not call it).  The listeners that [init] installs are treated
    further down, with the inputs of [react]. *)

Module Monitor.

(** [currentOrder]: the part of the server answer the monitor reads. *)
Record order_data : Type := mkOrder {
  order_id : string;
  order_status : Orders.status_t
}.

(** The first argument of [triggerPaymentCallbacks]. *)
Inductive payment_event : Type :=
| order_created
| payment_window_opened
| payment_window_closed
| payment_success
| payment_failed (status : Orders.status_t)
| payment_pending
| status_changed.

(** The functions handed to [setInterval] and [setTimeout], and the
    continuation of [checkPaymentStatus] after its [await]. *)
Inductive callback : Type :=
| WindowCheck
| StatusPoll
| FinalCheck
| AutoStop
| Response (answer : option order_data).

Inductive observation : Type :=
| Fired (c : callback)
| Request (order : string)
| Emitted (ev : payment_event).

Record timer : Type := mkTimer {
  id : nat;
  due : Z;
  period : option Z;
  cb : callback
}.

Record page : Type := mkPage {
  clock : Z;
  currentOrder : option order_data;
  (** [None]: no window handle; [Some c]: a handle, [c] once the page itself
      closed the window *)
  paymentWindow : option bool;
  statusCheckInterval : option nat;
  timers : list timer;
  next_id : nat;
  (** set once [window.location.href] was assigned *)
  navigating : bool;
  (** newest first *)
  log : list (Z * observation)
}.

Record world : Type := mkWorld {
  (** the status in the answer to a request sent at that time; [None] when
      the request fails or the answer carries no data *)
  getOrder : Z -> option Orders.status_t;
  (** the delay of the answer to a request sent at that time *)
  latency : Z -> nat;
  user_closes_at : option Z;
  confirm : bool
}.

(** *** Fields *)

Definition set_currentOrder (o : option order_data) (p : page) : page :=
  mkPage (clock p) o (paymentWindow p) (statusCheckInterval p) (timers p)
         (next_id p) (navigating p) (log p).

Definition set_paymentWindow (w : option bool) (p : page) : page :=
  mkPage (clock p) (currentOrder p) w (statusCheckInterval p) (timers p)
         (next_id p) (navigating p) (log p).

Definition set_statusCheckInterval (i : option nat) (p : page) : page :=
  mkPage (clock p) (currentOrder p) (paymentWindow p) i (timers p)
         (next_id p) (navigating p) (log p).

Definition set_timers (l : list timer) (p : page) : page :=
  mkPage (clock p) (currentOrder p) (paymentWindow p) (statusCheckInterval p) l
         (next_id p) (navigating p) (log p).

Definition set_navigating (b : bool) (p : page) : page :=
  mkPage (clock p) (currentOrder p) (paymentWindow p) (statusCheckInterval p)
         (timers p) (next_id p) b (log p).

Definition observe (o : observation) (p : page) : page :=
  mkPage (clock p) (currentOrder p) (paymentWindow p) (statusCheckInterval p)
         (timers p) (next_id p) (navigating p) ((clock p, o) :: log p).

(** *** Timers of the browser *)

Definition schedule (c : callback) (delay : Z) (every : option Z) (p : page)
    : nat * page :=
  (next_id p,
   mkPage (clock p) (currentOrder p) (paymentWindow p) (statusCheckInterval p)
          (timers p ++ [mkTimer (next_id p) (clock p + delay) every c])
          (S (next_id p)) (navigating p) (log p)).

Definition setTimeout (c : callback) (delay : Z) (p : page) : nat * page :=
  schedule c delay None p.

Definition setInterval (c : callback) (every : Z) (p : page) : nat * page :=
  schedule c every (Some every) p.

Definition clearInterval (i : nat) (p : page) : page :=
  set_timers (filter (fun t => negb (Nat.eqb (id t) i)) (timers p)) p.

(** *** Methods of [PaymentManager] *)

Definition triggerPaymentCallbacks (ev : payment_event) (p : page) : page :=
  observe (Emitted ev) p.

Definition stopStatusPolling (p : page) : page :=
  match statusCheckInterval p with
  | Some i => set_statusCheckInterval None (clearInterval i p)
  | None => p
  end.

Definition minutes_30 : Z := 30 * 60 * 1000.

Definition startStatusPolling (p : page) : page :=
  let p1 := match statusCheckInterval p with
            | Some i => clearInterval i p
            | None => p
            end in
  let (i, p2) := setInterval StatusPoll 5000 p1 in
  let p3 := set_statusCheckInterval (Some i) p2 in
  snd (setTimeout AutoStop minutes_30 p3).

Definition startPaymentMonitoring (p : page) : page :=
  snd (setInterval WindowCheck 1000 (startStatusPolling p)).

(** [this.paymentWindow.closed], for a handle *)
Definition closed (w : world) (p : page) (closed_by_page : bool) : bool :=
  closed_by_page
  || match user_closes_at w with
     | Some t => t <=? clock p
     | None => false
     end.

(** [if (this.paymentWindow && !this.paymentWindow.closed)
    this.paymentWindow.close()] *)
Definition close_payment_window (w : world) (p : page) : page :=
  match paymentWindow p with
  | Some c => if negb (closed w p c) then set_paymentWindow (Some true) p else p
  | None => p
  end.

(** [checkPaymentStatus] up to its [await]: the request leaves, the rest
    runs when the answer is there. *)
Definition checkPaymentStatus (w : world) (p : page) : page :=
  match currentOrder p with
  | None => p
  | Some o =>
      let answer := option_map (mkOrder (order_id o)) (getOrder w (clock p)) in
      snd (schedule (Response answer) (Z.of_nat (latency w (clock p))) None
                    (observe (Request (order_id o)) p))
  end.

Definition handlePaymentSuccess (w : world) (p : page) : page :=
  let p1 := stopStatusPolling p in
  let p2 := close_payment_window w p1 in
  let p3 := triggerPaymentCallbacks payment_success p2 in
  let p4 := if confirm w then set_navigating true p3 else p3 in
  set_currentOrder None p4.

Definition handlePaymentFailure (w : world) (status : Orders.status_t) (p : page)
    : page :=
  let p1 := stopStatusPolling p in
  let p2 := close_payment_window w p1 in
  let p3 := triggerPaymentCallbacks (payment_failed status) p2 in
  set_currentOrder None p3.

Definition handlePaymentPending (p : page) : page :=
  triggerPaymentCallbacks payment_pending p.

(** [checkPaymentStatus] after its [await]; reading the status of a
    [currentOrder] that was reset in the meantime throws, and the [catch]
    returns. *)
Definition checkPaymentStatus_resume (w : world) (answer : option order_data)
    (p : page) : page :=
  match answer with
  | None => p
  | Some updatedOrder =>
      match currentOrder p with
      | None => p
      | Some cur =>
          if negb (Orders.status_eqb (order_status updatedOrder) (order_status cur))
          then
            let p1 := set_currentOrder (Some updatedOrder) p in
            let p2 :=
              match order_status updatedOrder with
              | Orders.paid => handlePaymentSuccess w p1
              | Orders.failed | Orders.cancelled | Orders.expired =>
                  handlePaymentFailure w (order_status updatedOrder) p1
              | Orders.pending => handlePaymentPending p1
              | Orders.refunded => p1
              end in
            triggerPaymentCallbacks status_changed p2
          else p
      end
  end.

(** The arrow function of [windowCheckInterval]; [self] is the identifier
    the enclosing [setInterval] returned. *)
Definition window_check (w : world) (self : nat) (p : page) : page :=
  match paymentWindow p with
  | Some c =>
      if closed w p c
      then
        let p1 := clearInterval self p in
        let p2 := triggerPaymentCallbacks payment_window_closed p1 in
        snd (setTimeout FinalCheck 2000 p2)
      else p
  | None => p
  end.

(** [openPaymentWindow] for a payment URL that is there and a popup the
    browser lets through. *)
Definition openPaymentWindow (p : page) : page :=
  let p1 := set_paymentWindow (Some false) p in
  let p2 := startPaymentMonitoring p1 in
  triggerPaymentCallbacks payment_window_opened p2.

(** [getCurrentPaymentStatus]: the fields [status] and [isPolling]. *)
Definition getCurrentPaymentStatus (p : page) : option (Orders.status_t * bool) :=
  match currentOrder p with
  | None => None
  | Some o =>
      Some (order_status o,
            match statusCheckInterval p with Some _ => true | None => false end)
  end.

(** *** The event loop *)

Definition fire (w : world) (t : timer) (p : page) : page :=
  match cb t with
  | WindowCheck => window_check w (id t) p
  | StatusPoll => checkPaymentStatus w p
  | FinalCheck => checkPaymentStatus w p
  | AutoStop => stopStatusPolling p
  | Response answer => checkPaymentStatus_resume w answer p
  end.

Definition before (a b : timer) : bool :=
  (due a <? due b) || ((due a =? due b) && Nat.ltb (id a) (id b)).

(** The task that runs next: the earliest one, the older one first among
    tasks due at the same time. *)
Fixpoint earliest (l : list timer) : option timer :=
  match l with
  | [] => None
  | t :: tl =>
      match earliest tl with
      | None => Some t
      | Some m => if before t m then Some t else Some m
      end
  end.

(** The page when the task [t] starts: the clock is at its due time, a
    timeout is gone from the queue and an interval is due again one period
    later. *)
Definition start_task (t : timer) (p : page) : page :=
  let others := filter (fun x => negb (Nat.eqb (id x) (id t))) (timers p) in
  let again := match period t with
               | Some d => [mkTimer (id t) (due t + d) (Some d) (cb t)]
               | None => []
               end in
  mkPage (due t) (currentOrder p) (paymentWindow p) (statusCheckInterval p)
         (others ++ again) (next_id p) (navigating p)
         ((due t, Fired (cb t)) :: log p).

(** One turn of the event loop; nothing runs once the page navigates
    away. *)
Definition step (w : world) (p : page) : option page :=
  if navigating p then None
  else match earliest (timers p) with
       | None => None
       | Some t => Some (fire w t (start_task t p))
       end.

Fixpoint steps (n : nat) (w : world) (p : page) : page :=
  match n with
  | O => p
  | S n' => match step w p with
            | None => p
            | Some p' => steps n' w p'
            end
  end.

(** The manager after [initiatePayment] stored the order, at time [t0];
    the identifiers the browser hands out for timers are positive, so that a
    stored identifier is never taken for [null]. *)
Definition order_stored (t0 : Z) (o : order_data) : page :=
  mkPage t0 (Some o) None None [] 1 false [(t0, Emitted order_created)].

(** A monitoring session: the payment window was opened at [t0]. *)
Definition session (t0 : Z) (o : order_data) : page :=
  openPaymentWindow (order_stored t0 o).

(** *** What the log tells *)

Definition is_poll (c : callback) : bool :=
  match c with StatusPoll => true | _ => false end.

Definition is_final_check (c : callback) : bool :=
  match c with FinalCheck => true | _ => false end.

(** The times at which the periodic status check ran. *)
Definition poll_times (p : page) : list Z :=
  flat_map (fun e => match snd e with
                     | Fired StatusPoll => [fst e]
                     | _ => []
                     end) (log p).

(** The times at which the closed window was detected. *)
Definition detection_times (p : page) : list Z :=
  flat_map (fun e => match snd e with
                     | Emitted payment_window_closed => [fst e]
                     | _ => []
                     end) (log p).

(** The times at which the status check after the closure ran. *)
Definition final_check_times (p : page) : list Z :=
  flat_map (fun e => match snd e with
                     | Fired FinalCheck => [fst e]
                     | _ => []
                     end) (log p).

(** The events sent to the subscribers, with their times. *)
Definition emitted (p : page) : list (Z * payment_event) :=
  flat_map (fun e => match snd e with
                     | Emitted ev => [(fst e, ev)]
                     | _ => []
                     end) (log p).

(** *** Invariants of a session *)

Definition ceiling (t0 : Z) : Z := t0 + minutes_30.

(** The task queue is in order: nothing is due in the past, identifiers
    are distinct and were handed out by [next_id], intervals advance. *)
Record schedule_ok (p : page) : Prop := {
  due_later : forall t, In t (timers p) -> clock p <= due t;
  ids_fresh : forall t, In t (timers p) -> (id t < next_id p)%nat;
  ids_distinct : NoDup (map id (timers p));
  periods_positive : forall t d, In t (timers p) -> period t = Some d -> 0 < d
}.

(** Why the periodic check was stopped: the 30 minutes timeout ran, or a
    final status was handled. *)
Definition stop_cause (p : page) : Prop :=
  exists t,
    In (t, Fired AutoStop) (log p)
    \/ In (t, Emitted payment_success) (log p)
    \/ exists s, In (t, Emitted (payment_failed s)) (log p).

(** The periodic check of a session that began at [t0]. *)
Record polling_ok (t0 : Z) (p : page) : Prop := {
  (* the interval of the periodic check is the one the manager holds, and
     it ran at every multiple of five seconds before its next due time *)
  poll_timer : forall t, In t (timers p) -> cb t = StatusPoll ->
    statusCheckInterval p = Some (id t)
    /\ period t = Some 5000
    /\ exists j, 1 <= j /\ due t = t0 + 5000 * j
                 /\ forall k, 1 <= k < j -> In (t0 + 5000 * k) (poll_times p);
  (* while the manager holds an interval, it is in the queue *)
  poll_active : forall i, statusCheckInterval p = Some i ->
    exists t, In t (timers p) /\ id t = i /\ cb t = StatusPoll;
  (* the timeout of 30 minutes is pending, or the periodic check is over *)
  poll_stop :
    (exists t, In t (timers p) /\ cb t = AutoStop /\ due t = ceiling t0)
    \/ (statusCheckInterval p = None
        /\ forall t, In t (timers p) -> cb t <> StatusPoll);
  poll_fired : forall t, In t (poll_times p) ->
    exists k, 1 <= k <= 360 /\ t = t0 + 5000 * k;
  (* the timeout is a one-shot timer due 30 minutes after the start *)
  poll_timeout : forall t, In t (timers p) -> cb t = AutoStop ->
    due t = ceiling t0 /\ period t = None
}.

(** The watch on the payment window: it is still on, or the closed window
    was detected at [td] and the one status check that follows is pending,
    or that check ran at [td + 2000]. *)
Inductive watch_phase (p : page) : Prop :=
| Watching :
    (forall t t', In t (timers p) -> In t' (timers p) ->
                  cb t = WindowCheck -> cb t' = WindowCheck -> id t = id t') ->
    (forall t, In t (timers p) -> cb t <> FinalCheck) ->
    detection_times p = [] ->
    final_check_times p = [] ->
    watch_phase p
| Grace (td : Z) (t : timer) :
    (forall t', In t' (timers p) -> cb t' <> WindowCheck) ->
    In t (timers p) -> cb t = FinalCheck -> due t = td + 2000 -> period t = None ->
    (forall t', In t' (timers p) -> cb t' = FinalCheck -> t' = t) ->
    detection_times p = [td] ->
    final_check_times p = [] ->
    watch_phase p
| Checked (td : Z) :
    (forall t', In t' (timers p) -> cb t' <> WindowCheck) ->
    (forall t', In t' (timers p) -> cb t' <> FinalCheck) ->
    detection_times p = [td] ->
    final_check_times p = [td + 2000] ->
    watch_phase p.

Record session_ok (t0 : Z) (p : page) : Prop := {
  session_schedule : schedule_ok p;
  session_polling : polling_ok t0 p;
  session_watch : watch_phase p;
  (* the periodic check is only ever stopped for a cause *)
  session_cause : statusCheckInterval p = None -> stop_cause p
}.

(** *** Two worlds *)

Definition an_order : order_data := mkOrder "o-1" Orders.pending.


(** The order stays pending and the payment window stays open. *)
Definition never_pays : world :=
  mkWorld (fun _ => Some Orders.pending) (fun _ => 200%nat) None false.

End Monitor.

(** * The rest of the database functions *)

From Stdlib Require DecimalNat DecimalFacts QArith Sorted.

(** ** The older order creation *)

(** What [create_order_atomic] reads from the session besides [env]. *)
Record env_atomic : Type := mkenv_atomic {
  session_env : env;
  (** [EXTRACT(EPOCH FROM NOW())::bigint] *)
  NOW_EPOCH : Z;
  (** the value of the [gen_random_uuid()] that goes into the order number;
      the one of [session_env] fills the column default of [orders.id] *)
  number_uuid : uuid
}.

(** A [bigint] in its text form. *)
Definition bigint_text (z : Z) : string :=
  NilEmpty.string_of_int (Z.to_int z).

(** The row [create_order_atomic] sends to [INSERT INTO orders]: [id],
    [status], [created_at] and [updated_at] take their column defaults. *)
Definition new_order_atomic (e : env_atomic) (p_user_id p_book_id : uuid)
    (p_amount : Z) (p_payment_method : string) : Orders.row :=
  Orders.mk (gen_random_uuid (session_env e)) (Some p_user_id) (Some p_book_id)
            ("ORD-" ++ bigint_text (NOW_EPOCH e) ++ "-"
             ++ substring 0 8 (number_uuid e))
            p_amount Orders.pending (Some p_payment_method) None None None
            (Some (NOW (session_env e) + interval_24_hours)) None
            (Some (NOW (session_env e))) (Some (NOW (session_env e))).

(** [create_order_atomic] (migration 007, kept in
    migrations/011_add_refresh_tokens.sql); it has no exception block. *)
Definition create_order_atomic (e : env_atomic) (p_user_id p_book_id : uuid)
    (p_amount : Z) (p_payment_method : string) : plpgsql json :=
  v_book_exists <- exists_active_book p_book_id ;;
  if negb v_book_exists
  then ret (JObj [("success", JBool false); ("error", JStr "BOOK_NOT_FOUND")])
  else
    v_user_has_book <- exists_purchase_of_user p_user_id p_book_id ;;
    if v_user_has_book
    then ret (JObj [("success", JBool false);
                    ("error", JStr "BOOK_ALREADY_PURCHASED")])
    else
      let v_order := new_order_atomic e p_user_id p_book_id p_amount
                                      p_payment_method in
      insert_orders v_order ;;
      insert_audit_logs
        (AuditLogs.mk (Some p_user_id) "ORDER_CREATED" (Some "order")
                      (Some (Orders.id v_order))
                      (Some (JObj [("book_id", JStr p_book_id);
                                   ("amount", JNum p_amount);
                                   ("payment_method", JStr p_payment_method)]))
                      (Some (NOW (session_env e)))) ;;
      ret (JObj [("success", JBool true);
                 ("order_id", JStr (Orders.id v_order));
                 ("order_number", JStr (Orders.order_number v_order))]).

(** A call of any of the five functions that write orders, purchases, logs
    or the ledger. *)
Inductive request : Type :=
| Call (c : call)
| CreateOrderAtomic (e : env_atomic) (p_user_id p_book_id : uuid) (p_amount : Z)
                    (p_payment_method : string).

Definition serve (r : request) (d : db) : db :=
  match r with
  | Call c => exec c d
  | CreateOrderAtomic e u b a pm => after (create_order_atomic e u b a pm) d
  end.

Definition serve_all (rs : list request) (d : db) : db :=
  fold_left (fun acc r => serve r acc) rs d.


(** How the row of an order may differ between two states of the database:
    who ordered what, under which number and key, never changes; the status
    stays, or moves from [pending] to [paid] or to [expired]; a row that is
    not pending does not change at all. *)
Definition order_evolves (o o' : Orders.row) : Prop :=
  Orders.id o' = Orders.id o
  /\ Orders.order_number o' = Orders.order_number o
  /\ Orders.user_id o' = Orders.user_id o
  /\ Orders.book_id o' = Orders.book_id o
  /\ Orders.amount o' = Orders.amount o
  /\ Orders.idempotency_key o' = Orders.idempotency_key o
  /\ Orders.expires_at o' = Orders.expires_at o
  /\ Orders.created_at o' = Orders.created_at o
  /\ (Orders.status o <> Orders.pending -> o' = o)
  /\ (Orders.status o' = Orders.status o
      \/ Orders.status o = Orders.pending
         /\ (Orders.status o' = Orders.paid \/ Orders.status o' = Orders.expired)).

(** The orders after some requests: the rows that were there, each evolved,
    followed by the rows created since. *)
Definition orders_evolve (d d' : db) : Prop :=
  exists olds news,
    orders d' = (olds ++ news)%list
    /\ Forall2 order_evolves (orders d) olds.

(** ** What a request can do *)

(** The tables other than [orders] in [d'] are those of [d] with the given
    rows appended; [books] and [users] are the same. *)
Definition appended (d d' : db) (pu : list UserPurchases.row)
    (lo : list PaymentLogs.row) (au : list AuditLogs.row)
    (we : list WebhookEvents.row) : Prop :=
  books d' = books d
  /\ user_purchases d' = (user_purchases d ++ pu)%list
  /\ payment_logs d' = (payment_logs d ++ lo)%list
  /\ audit_logs d' = (audit_logs d ++ au)%list
  /\ webhook_events d' = (webhook_events d ++ we)%list
  /\ users d' = users d.

(** The five things a request does to the database: nothing (a refusal, a
    duplicate, an error), one more pending order, one more row of the
    ledger, the settlement of a pending order, or a sweep. *)
Inductive effect (d d' : db) : Prop :=
| no_change : d' = d -> effect d d'
| adds_order (o : Orders.row) (au : list AuditLogs.row) :
    Orders.status o = Orders.pending ->
    orders d' = (orders d ++ [o])%list ->
    appended d d' [] [] au [] ->
    effect d d'
| adds_event (w : WebhookEvents.row) :
    orders d' = orders d ->
    appended d d' [] [] [] [w] ->
    effect d d'
| settles (now : timestamptz) (o : Orders.row) (txn : string) (payload : json) :
    In o (orders d) ->
    Orders.status o = Orders.pending ->
    d' = settled now o txn payload d ->
    effect d d'
| sweeps (now : timestamptz) (au : list AuditLogs.row) :
    orders d' = map (fun o => if pending_and_expired now o
                              then Orders.set_expired now o else o) (orders d) ->
    appended d d' [] [] au [] ->
    effect d d'.

(** The purchase row [p] stands on a paid order of [d] of the same user for
    the same book. *)
Definition backed_by_paid_order (d : db) (p : UserPurchases.row) : Prop :=
  exists o,
    In o (orders d)
    /\ UserPurchases.order_id p = Some (Orders.id o)
    /\ Orders.status o = Orders.paid
    /\ UserPurchases.user_id p = Orders.user_id o
    /\ UserPurchases.book_id p = Orders.book_id o.

(** * Token housekeeping

    [cleanup_expired_tokens] (migrations/011_add_refresh_tokens.sql) deletes
    from the five token tables and writes one row to [audit_logs].  Of each
    table the primary key and the columns of the [WHERE] clauses are kept;
    [expires_at] is [NOT NULL] in all five.  The counters are [INTEGER]; the
    tables hold fewer than 2^31 rows. *)

Module Auth.

Module LoginOtps.
Record row : Type := mk {
  id : uuid;
  expires_at : timestamptz
}.
End LoginOtps.

Module EmailVerificationTokens.
Record row : Type := mk {
  id : uuid;
  expires_at : timestamptz
}.
End EmailVerificationTokens.

Module PasswordResetTokens.
Record row : Type := mk {
  id : uuid;
  expires_at : timestamptz;
  used_at : option timestamptz
}.
End PasswordResetTokens.

Module RefreshTokens.
Record row : Type := mk {
  id : uuid;
  expires_at : timestamptz;
  (** [BOOLEAN DEFAULT FALSE], nullable *)
  is_revoked : option bool
}.
End RefreshTokens.

Module TokenBlacklist.
Record row : Type := mk {
  id : uuid;
  expires_at : timestamptz
}.
End TokenBlacklist.

Record db : Type := mkdb {
  login_otps : list LoginOtps.row;
  email_verification_tokens : list EmailVerificationTokens.row;
  password_reset_tokens : list PasswordResetTokens.row;
  refresh_tokens : list RefreshTokens.row;
  token_blacklist : list TokenBlacklist.row;
  audit_logs : list AuditLogs.row
}.

(** What a call reads from the session.  Subtracting days from a
    [TIMESTAMP WITH TIME ZONE] goes through the calendar of the session's
    time zone, so the two results are inputs of their own. *)
Record env : Type := mkenv {
  NOW : timestamptz;
  (** [NOW() - INTERVAL '1 day'] *)
  NOW_minus_1_day : timestamptz;
  (** [NOW() - INTERVAL '7 days'] *)
  NOW_minus_7_days : timestamptz;
  (** [NOW()] as [jsonb_build_object] writes it *)
  NOW_json : string
}.

(** [INTERVAL '1 hour'] in microseconds. *)
Definition interval_1_hour : Z := 60 * 60 * 1000000.

(** [DELETE FROM t WHERE cond] followed by
    [GET DIAGNOSTICS n = ROW_COUNT]. *)
Definition delete_where {A : Type} (cond : A -> bool) (l : list A) : Z * list A :=
  (Z.of_nat (List.length (filter cond l)), filter (fun r => negb (cond r)) l).

Definition otp_is_old (e : env) (r : LoginOtps.row) : bool :=
  LoginOtps.expires_at r <? NOW e - interval_1_hour.

Definition email_token_is_old (e : env) (r : EmailVerificationTokens.row) : bool :=
  EmailVerificationTokens.expires_at r <? NOW_minus_7_days e.

(** [expires_at < NOW() - INTERVAL '1 day' OR used_at IS NOT NULL] *)
Definition password_token_is_done (e : env) (r : PasswordResetTokens.row) : bool :=
  (PasswordResetTokens.expires_at r <? NOW_minus_1_day e)
  || match PasswordResetTokens.used_at r with Some _ => true | None => false end.

(** [expires_at < NOW() AND is_revoked = FALSE]; a null [is_revoked] does
    not satisfy the comparison. *)
Definition refresh_token_is_over (e : env) (r : RefreshTokens.row) : bool :=
  (RefreshTokens.expires_at r <? NOW e)
  && match RefreshTokens.is_revoked r with Some false => true | _ => false end.

Definition blacklisting_is_over (e : env) (r : TokenBlacklist.row) : bool :=
  TokenBlacklist.expires_at r <? NOW e.

Definition cleanup_expired_tokens (e : env) (d : db) : json * db :=
  let (otp_deleted, otps) := delete_where (otp_is_old e) (login_otps d) in
  let (email_deleted, emails) :=
    delete_where (email_token_is_old e) (email_verification_tokens d) in
  let (password_deleted, passwords) :=
    delete_where (password_token_is_done e) (password_reset_tokens d) in
  let (refresh_deleted, refreshes) :=
    delete_where (refresh_token_is_over e) (refresh_tokens d) in
  let (blacklist_deleted, blacklist) :=
    delete_where (blacklisting_is_over e) (token_blacklist d) in
  (JObj [("success", JBool true);
         ("otp_deleted", JNum otp_deleted);
         ("email_deleted", JNum email_deleted);
         ("password_deleted", JNum password_deleted);
         ("refresh_deleted", JNum refresh_deleted);
         ("blacklist_deleted", JNum blacklist_deleted);
         ("total_deleted",
          JNum (otp_deleted + email_deleted + password_deleted + refresh_deleted
                + blacklist_deleted))],
   mkdb otps emails passwords refreshes blacklist
        (audit_logs d
         ++ [AuditLogs.mk None "TOKEN_CLEANUP" (Some "system") None
               (Some (JObj [("otp_deleted", JNum otp_deleted);
                            ("email_deleted", JNum email_deleted);
                            ("password_deleted", JNum password_deleted);
                            ("refresh_deleted", JNum refresh_deleted);
                            ("blacklist_deleted", JNum blacklist_deleted);
                            ("timestamp", JStr (NOW_json e))]))
               (Some (NOW e))])).

(** The housekeeping job run at the clocks of [es], one after the other. *)
Definition cleanups (es : list env) (d : db) : db :=
  fold_left (fun acc e => snd (cleanup_expired_tokens e acc)) es d.

(** The number of rows in the five token tables. *)
Definition token_rows (d : db) : Z :=
  Z.of_nat (List.length (login_otps d))
  + Z.of_nat (List.length (email_verification_tokens d))
  + Z.of_nat (List.length (password_reset_tokens d))
  + Z.of_nat (List.length (refresh_tokens d))
  + Z.of_nat (List.length (token_blacklist d)).

End Auth.

(** * The payment methods of the client

    The part of [PaymentManager] (frontend/js/payment.js) that chooses among
    the six configured payment methods by the amount.  An amount arrives as a
    string or as a number.  A number is kept as the comparisons of JavaScript
    see it: [NaN], an infinity, or a finite value (every finite double is a
    rational).  [parseFloat] is an input; the functions are embedded for the
    ids of the configured methods, which [getPaymentMethod] always finds. *)

Module Methods.

Inductive number : Type :=
| NaN
| Infinity (negative : bool)
| Finite (q : QArith_base.Q).

Definition of_Z (z : Z) : number := Finite (QArith_base.inject_Z z).

(** [a <= b]; a comparison with [NaN] is false. *)
Definition le (a b : number) : bool :=
  match a, b with
  | NaN, _ | _, NaN => false
  | Infinity true, _ => true
  | _, Infinity false => true
  | Infinity false, _ => false
  | _, Infinity true => false
  | Finite x, Finite y => QArith_base.Qle_bool x y
  end.

(** [a < b] *)
Definition lt (a b : number) : bool :=
  match a, b with
  | NaN, _ | _, NaN => false
  | _, _ => negb (le b a)
  end.

(** [a >= b] *)
Definition ge (a b : number) : bool := le b a.

(** [a > b] *)
Definition gt (a b : number) : bool := lt b a.

Inductive value : Type :=
| Str (s : string)
| Num (n : number).

Inductive method_id : Type :=
| qris | gopay | shopeepay | bank_transfer | credit_card | convenience_store.

Definition method_id_eqb (a b : method_id) : bool :=
  match a, b with
  | qris, qris | gopay, gopay | shopeepay, shopeepay
  | bank_transfer, bank_transfer | credit_card, credit_card
  | convenience_store, convenience_store => true
  | _, _ => false
  end.

(** An entry of [this.paymentMethods]; the texts shown to the user are left
    out. *)
Record method : Type := mkMethod {
  id : method_id;
  category : string;
  priority : Z
}.

(** [initializePaymentMethods]: the entries in the order of the object
    literal. *)
Definition initializePaymentMethods : list method :=
  [mkMethod qris "instant" 1;
   mkMethod gopay "e_wallet" 2;
   mkMethod shopeepay "e_wallet" 3;
   mkMethod bank_transfer "bank_transfer" 4;
   mkMethod credit_card "card" 5;
   mkMethod convenience_store "offline" 6].

(** [Array.prototype.sort((a, b) => a.priority - b.priority)]: the sort is
    stable. *)
Fixpoint insert_by_priority (m : method) (l : list method) : list method :=
  match l with
  | [] => [m]
  | x :: tl => if priority m <? priority x then m :: l
               else x :: insert_by_priority m tl
  end.

Definition sort_by_priority (l : list method) : list method :=
  fold_right insert_by_priority [] l.

Definition getPaymentMethods : list method :=
  sort_by_priority initializePaymentMethods.

(** [this.paymentMethods[methodId] || null] *)
Definition getPaymentMethod (methodId : method_id) : option method :=
  find (fun m => method_id_eqb (id m) methodId) initializePaymentMethods.

(** What [validatePaymentAmount] puts in [error]: which limit the message
    names (the text comes from [Intl.NumberFormat]). *)
Inductive amount_error : Type :=
| minimum_is (minAmount : Z)
| maximum_is (maxAmount : Z).

Record validation : Type := mkValidation {
  isValid : bool;
  error : option amount_error
}.

Section Amounts.

Variable parseFloat : string -> number.

(** [typeof amount === 'string' ? parseFloat(amount) : amount] *)
Definition numeric (amount : value) : number :=
  match amount with
  | Str s => parseFloat s
  | Num n => n
  end.

Definition getRecommendedPaymentMethods (amount : value) : list method :=
  let numericAmount := numeric amount in
  let recommendations :=
    if le numericAmount (of_Z 50000)
    then [qris; gopay; shopeepay]
    else if le numericAmount (of_Z 200000)
    then [qris; bank_transfer; gopay; credit_card]
    else [bank_transfer; credit_card; qris] in
  flat_map (fun methodId => match getPaymentMethod methodId with
                            | Some m => [m]
                            | None => []
                            end) recommendations.

Definition validatePaymentAmount (amount : value) : validation :=
  let numericAmount := numeric amount in
  let minAmount := 1000 in
  let maxAmount := 999999999 in
  if lt numericAmount (of_Z minAmount)
  then mkValidation false (Some (minimum_is minAmount))
  else if gt numericAmount (of_Z maxAmount)
  then mkValidation false (Some (maximum_is maxAmount))
  else mkValidation true None.

Definition isPaymentMethodAvailable (methodId : method_id) (amount : value) : bool :=
  let numericAmount := numeric amount in
  match getPaymentMethod methodId with
  | None => false
  | Some _ =>
      match methodId with
      | convenience_store =>
          ge numericAmount (of_Z 10000) && le numericAmount (of_Z 2500000)
      | credit_card => ge numericAmount (of_Z 5000)
      | _ => ge numericAmount (of_Z 1000) && le numericAmount (of_Z 999999999)
      end
  end.

Definition getAvailablePaymentMethods (amount : value) : list method :=
  filter (fun m => isPaymentMethodAvailable (id m) amount) getPaymentMethods.

End Amounts.

End Methods.

(** * The outcome of a monitoring session *)

(** The two events that end a payment for the page. *)
Definition final_event (ev : Monitor.payment_event) : bool :=
  match ev with
  | Monitor.payment_success | Monitor.payment_failed _ => true
  | _ => false
  end.

Definition is_outcome (e : Z * Monitor.observation) : bool :=
  match snd e with
  | Monitor.Emitted ev => final_event ev
  | _ => false
  end.

Definition is_request (e : Z * Monitor.observation) : bool :=
  match snd e with
  | Monitor.Request _ => true
  | _ => false
  end.

(** The final events sent to the subscribers. *)
Definition outcomes (p : Monitor.page) : list (Z * Monitor.observation) :=
  filter is_outcome (Monitor.log p).

(** What was observed after the newest final event; everything, when there
    is none.  The log has the newest entry first. *)
Fixpoint since_outcome (l : list (Z * Monitor.observation))
    : list (Z * Monitor.observation) :=
  match l with
  | [] => []
  | e :: tl => if is_outcome e then [] else e :: since_outcome tl
  end.

(** The server answered status [s] to a status request that the page sent
    for the order [oid]. *)
Definition answered (w : Monitor.world) (oid : string) (p : Monitor.page)
    (s : Orders.status_t) : Prop :=
  exists t, In (t, Monitor.Request oid) (Monitor.log p)
            /\ Monitor.getOrder w t = Some s.

(** What an event tells the subscribers is what the server answered. *)
Definition told (w : Monitor.world) (oid : string) (p : Monitor.page)
    (ev : Monitor.payment_event) : Prop :=
  match ev with
  | Monitor.payment_success => answered w oid p Orders.paid
  | Monitor.payment_failed s =>
      (s = Orders.failed \/ s = Orders.cancelled \/ s = Orders.expired)
      /\ answered w oid p s
  | Monitor.payment_pending => answered w oid p Orders.pending
  | _ => True
  end.

(** An entry that is no request, no final event, and no event that reports
    an answer of the server. *)
Definition quiet (e : Z * Monitor.observation) : Prop :=
  match snd e with
  | Monitor.Fired _ => True
  | Monitor.Request _ => False
  | Monitor.Emitted ev =>
      match ev with
      | Monitor.payment_success | Monitor.payment_failed _
      | Monitor.payment_pending => False
      | _ => True
      end
  end.

(** Invariants of a session for the order [oid], as to its outcome. *)
Record outcome_ok (w : Monitor.world) (oid : string) (p : Monitor.page) : Prop := {
  order_kept : forall c, Monitor.currentOrder p = Some c -> Monitor.order_id c = oid;
  requests_for_order : forall t i,
    In (t, Monitor.Request i) (Monitor.log p) -> i = oid;
  answers_pending : forall t u,
    In t (Monitor.timers p) -> Monitor.cb t = Monitor.Response (Some u) ->
    Monitor.order_id u = oid /\ answered w oid p (Monitor.order_status u);
  events_told : forall t ev,
    In (t, Monitor.Emitted ev) (Monitor.log p) -> told w oid p ev;
  no_outcome_yet : forall c, Monitor.currentOrder p = Some c -> outcomes p = [];
  outcome_reached : Monitor.currentOrder p = None ->
    (exists e, outcomes p = [e])
    /\ Monitor.statusCheckInterval p = None
    /\ forallb (fun e => negb (is_request e)) (since_outcome (Monitor.log p)) = true
}.


(** * Leaving and resuming a session *)

(** [cleanup]: the subscribers it drops only observe. *)
Definition cleanup (w : Monitor.world) (p : Monitor.page) : Monitor.page :=
  let p1 := Monitor.stopStatusPolling p in
  let p2 := Monitor.close_payment_window w p1 in
  Monitor.set_paymentWindow None (Monitor.set_currentOrder None p2).

(** [handleVisibilityChange], with the value of [document.hidden]. *)
Definition handleVisibilityChange (hidden : bool) (p : Monitor.page) : Monitor.page :=
  if hidden
  then match Monitor.statusCheckInterval p with
       | Some _ => Monitor.stopStatusPolling p
       | None => p
       end
  else match Monitor.currentOrder p with
       | Some o =>
           if Orders.status_eqb (Monitor.order_status o) Orders.pending
           then Monitor.startStatusPolling p
           else p
       | None => p
       end.

(** The page when an event of the browser reaches it at time [t]. *)
Definition at_time (t : Z) (p : Monitor.page) : Monitor.page :=
  Monitor.mkPage t (Monitor.currentOrder p) (Monitor.paymentWindow p)
                 (Monitor.statusCheckInterval p) (Monitor.timers p)
                 (Monitor.next_id p) (Monitor.navigating p) (Monitor.log p).

(** No task is due before [t], and [t] is not in the past. *)
Definition idle_until (t : Z) (p : Monitor.page) : bool :=
  (Monitor.clock p <=? t)
  && forallb (fun x => t <=? Monitor.due x) (Monitor.timers p).

(** The page has let go of the order, the window and the polling. *)
Definition cleaned (p : Monitor.page) : Prop :=
  Monitor.currentOrder p = None
  /\ Monitor.paymentWindow p = None
  /\ Monitor.statusCheckInterval p = None.

(** The requests sent so far. *)
Definition requests (p : Monitor.page) : list (Z * Monitor.observation) :=
  filter is_request (Monitor.log p).

(** The watch on the payment window is an interval of one second. *)
Definition watch_periodic (p : Monitor.page) : Prop :=
  forall t, In t (Monitor.timers p) -> Monitor.cb t = Monitor.WindowCheck ->
            Monitor.period t = Some 1000.

(** A 30 minutes timeout is still in the queue. *)
Definition timeout_pending (p : Monitor.page) : bool :=
  existsb (fun t => match Monitor.cb t with
                    | Monitor.AutoStop => true
                    | _ => false
                    end) (Monitor.timers p).

(** What reaches the page: a turn of the event loop, or a change of the
    visibility of the tab at a time [t] with the new value of
    [document.hidden]. *)
Inductive input : Type :=
| Turn
| VisibilityChange (t : Z) (hidden : bool).

(** The page after an input.  A visibility event is handled when it comes
    between two tasks; nothing runs once the page navigates away. *)
Definition react (w : Monitor.world) (i : input) (p : Monitor.page) : Monitor.page :=
  match i with
  | Turn => match Monitor.step w p with
            | Some p' => p'
            | None => p
            end
  | VisibilityChange t hidden =>
      if negb (Monitor.navigating p) && idle_until t p
      then handleVisibilityChange hidden (at_time t p)
      else p
  end.

Definition reacts (w : Monitor.world) (ins : list input) (p : Monitor.page)
    : Monitor.page :=
  fold_left (fun acc i => react w i acc) ins p.

(** The polling of a session that began at [t0] and may have been paused and
    resumed: the periodic check in the queue is the one the page holds; the
    first timeout is pending, or the polling is over and stays so. *)
Record cut_ok (t0 : Z) (p : Monitor.page) : Prop := {
  cut_schedule : Monitor.schedule_ok p;
  cut_held : forall t, In t (Monitor.timers p) -> Monitor.cb t = Monitor.StatusPoll ->
                       Monitor.statusCheckInterval p = Some (Monitor.id t);
  cut_is_poll : forall t, In t (Monitor.timers p) ->
                          Monitor.statusCheckInterval p = Some (Monitor.id t) ->
                          Monitor.cb t = Monitor.StatusPoll;
  cut_fresh : forall i, Monitor.statusCheckInterval p = Some i ->
                        (i < Monitor.next_id p)%nat;
  cut_stop :
    (exists t, In t (Monitor.timers p) /\ Monitor.cb t = Monitor.AutoStop
               /\ Monitor.due t = Monitor.ceiling t0)
    \/ (Monitor.statusCheckInterval p = None
        /\ (forall t, In t (Monitor.timers p) -> Monitor.cb t <> Monitor.StatusPoll)
        /\ (Monitor.currentOrder p = None \/ Monitor.ceiling t0 <= Monitor.clock p))
}.

(** The tab is shown at these times. *)
Definition shown_at (ins : list input) : list Z :=
  flat_map (fun i => match i with
                     | VisibilityChange t false => [t]
                     | _ => []
                     end) ins.

(** * The periodic check, exactly *)



(** The manager as its constructor leaves it, at time [t0]: no order, no
    window, no interval. *)
Definition constructed (t0 : Z) : Monitor.page :=
  Monitor.mkPage t0 None None None [] 1 false [].


(** * Foreign keys *)

(** [REFERENCES orders(id)] on a nullable column. *)
Definition order_is_there (d : db) (c : option uuid) : bool :=
  match c with
  | None => true
  | Some i => existsb (fun o => String.eqb (Orders.id o) i) (orders d)
  end.

(** The foreign keys of [orders], [user_purchases], [payment_logs] and
    [audit_logs] hold: every reference that is not null names a row of the
    table it refers to. *)
Definition references_ok (d : db) : bool :=
  forallb (fun o => user_is_there d (Orders.user_id o)
                    && book_is_there d (Orders.book_id o)) (orders d)
  && forallb (fun p => user_is_there d (UserPurchases.user_id p)
                       && book_is_there d (UserPurchases.book_id p)
                       && order_is_there d (UserPurchases.order_id p))
             (user_purchases d)
  && forallb (fun l => order_is_there d (PaymentLogs.order_id l)) (payment_logs d)
  && forallb (fun a => user_is_there d (AuditLogs.user_id a)) (audit_logs d).

(** * Facts about the database transitions *)

(** ** Lists and keys *)

Lemma existsb_false_iff {A : Type} (f : A -> bool) (l : list A) :
  existsb f l = false <-> forall x, In x l -> f x = false.
Proof.
  induction l as [|a l IH]; simpl.
  - split; [intros _ x [] | reflexivity].
  - rewrite orb_false_iff, IH. split.
    + intros [Ha Hl] x [<-|Hx]; auto.
    + intros H; split; [apply H; now left | intros x Hx; apply H; now right].
Qed.

Lemma distinctb_snoc {K : Type} (clash : K -> K -> bool) (l : list K) (k : K) :
  (forall a b, clash a b = clash b a) ->
  distinctb clash (l ++ [k]) = distinctb clash l && negb (existsb (clash k) l).
Proof.
  intros Hsym. induction l as [|a l IH]; simpl.
  - reflexivity.
  - rewrite IH, existsb_app. simpl. rewrite orb_false_r, (Hsym k a).
    destruct (existsb (clash a) l), (clash a k), (distinctb clash l),
      (existsb (clash k) l); reflexivity.
Qed.

Lemma existsb_map {A B : Type} (f : B -> bool) (g : A -> B) (l : list A) :
  existsb f (map g l) = existsb (fun x => f (g x)) l.
Proof. induction l as [|a l IH]; simpl; [reflexivity | now rewrite IH]. Qed.

Lemma opt_eqb_sym (x y : option string) :
  opt_eqb String.eqb x y = opt_eqb String.eqb y x.
Proof. destruct x, y; simpl; try reflexivity. apply String.eqb_sym. Qed.

Lemma same_user_book_sym (p q : UserPurchases.row) :
  same_user_book p q = same_user_book q p.
Proof.
  unfold same_user_book.
  now rewrite (opt_eqb_sym (UserPurchases.user_id p)),
              (opt_eqb_sym (UserPurchases.book_id p)).
Qed.

Lemma same_webhook_key_sym (r q : WebhookEvents.row) :
  same_webhook_key r q = same_webhook_key q r.
Proof.
  unfold same_webhook_key.
  now rewrite (String.eqb_sym (WebhookEvents.transaction_id r)),
              (String.eqb_sym (WebhookEvents.event_type r)).
Qed.

(** In a list with distinct keys, looking a member up by its key finds it. *)
Lemma find_by_distinct_key {A : Type} (key : A -> string) (l : list A) (x : A) :
  distinctb String.eqb (map key l) = true ->
  In x l ->
  find (fun y => String.eqb (key y) (key x)) l = Some x.
Proof.
  induction l as [|a l IH]; simpl; [intros _ [] |].
  intros Hd Hin. apply andb_true_iff in Hd as [Ha Hl].
  destruct Hin as [->|Hin].
  - now rewrite String.eqb_refl.
  - destruct (String.eqb (key a) (key x)) eqn:E.
    + apply negb_true_iff in Ha.
      rewrite existsb_map in Ha.
      rewrite (proj1 (existsb_false_iff _ _) Ha x Hin) in E. discriminate.
    + auto.
Qed.


Lemma status_eqb_eq (a b : Orders.status_t) :
  Orders.status_eqb a b = true <-> a = b.
Proof. destruct a, b; simpl; split; intros H; congruence. Qed.

Lemma sql_eq_true (c : option string) (v : string) :
  sql_eq c v = true <-> c = Some v.
Proof.
  destruct c as [s|]; simpl.
  - rewrite String.eqb_eq. split; congruence.
  - split; discriminate.
Qed.

(** ** The transitions as case analyses *)

Lemma complete_payment_body_unfold (e : env) (num txn : string) (payload : json) (d : db) :
  complete_payment_body e num txn payload d =
  match completion_of num d with
  | OrderNotFound => inr (failure "ORDER_NOT_FOUND", d)
  | AlreadyProcessed _ =>
      inr (JObj [("success", JBool true); ("error", JStr "ALREADY_PROCESSED");
                 ("message", JStr "Payment sudah diproses sebelumnya")], d)
  | OrderNotPending o =>
      inr (JObj [("success", JBool false); ("error", JStr "ORDER_NOT_PENDING");
                 ("current_status", JStr (Orders.status_text (Orders.status o)))], d)
  | Rejected _ => inl (unique_violation "user_purchases_user_id_book_id_key")
  | Settled o =>
      inr (JObj [("success", JBool true); ("order_id", JStr (Orders.id o))],
           settled (NOW e) o txn payload d)
  end.
Proof.
  unfold complete_payment_body, completion_of, select_order_for_update,
    exists_purchase_of_order, bind, query.
  destruct (find _ (orders d)) as [o|]; [|reflexivity].
  destruct (existsb _ (user_purchases d)); [reflexivity|].
  destruct (negb _); [reflexivity|].
  unfold update_orders, insert_user_purchases, insert_payment_logs,
    insert_audit_logs, enforce, modify, bind, ret, owned_by_buyer, same_user_book.
  simpl. destruct (existsb _ (user_purchases d)); reflexivity.
Qed.

Lemma complete_payment_atomic_unfold (e : env) (num txn : string) (payload : json) (d : db) :
  complete_payment_atomic e num txn payload d =
  inr (match completion_of num d with
       | OrderNotFound => (failure "ORDER_NOT_FOUND", d)
       | AlreadyProcessed _ =>
           (JObj [("success", JBool true); ("error", JStr "ALREADY_PROCESSED");
                  ("message", JStr "Payment sudah diproses sebelumnya")], d)
       | OrderNotPending o =>
           (JObj [("success", JBool false); ("error", JStr "ORDER_NOT_PENDING");
                  ("current_status", JStr (Orders.status_text (Orders.status o)))], d)
       | Rejected _ =>
           (failure (SQLERRM (unique_violation "user_purchases_user_id_book_id_key")), d)
       | Settled o =>
           (JObj [("success", JBool true); ("order_id", JStr (Orders.id o))],
            settled (NOW e) o txn payload d)
       end).
Proof.
  unfold complete_payment_atomic, exception_block.
  rewrite complete_payment_body_unfold.
  destruct (completion_of num d); reflexivity.
Qed.

Lemma referenced_iff (o : Orders.row) (d : db) :
  existsb (fun p => sql_eq (UserPurchases.order_id p) (Orders.id o)) (user_purchases d) = true
  <-> referenced o d.
Proof.
  unfold referenced. rewrite existsb_exists.
  split; intros [p [Hin H]]; exists p; split; auto; now apply sql_eq_true.
Qed.

Lemma opt_eqb_true (x y : option string) :
  opt_eqb String.eqb x y = true <-> exists s, x = Some s /\ y = Some s.
Proof.
  destruct x as [a|], y as [b|]; simpl.
  - rewrite String.eqb_eq. split.
    + intros ->. now exists b.
    + intros [s [H1 H2]]. congruence.
  - split; [discriminate | intros [s [_ H]]; discriminate].
  - split; [discriminate | intros [s [H _]]; discriminate].
  - split; [discriminate | intros [s [H _]]; discriminate].
Qed.

Lemma owned_by_buyer_iff (o : Orders.row) (d : db) :
  owned_by_buyer o d = true <-> already_owned o d.
Proof.
  unfold owned_by_buyer, already_owned. rewrite existsb_exists. split.
  - intros [p [Hin H]]. apply andb_true_iff in H as [Hu Hb].
    apply opt_eqb_true in Hu as [u [Hu1 Hu2]].
    apply opt_eqb_true in Hb as [b [Hb1 Hb2]].
    exists p, u, b. auto.
  - intros [p [u [b [Hin [Hu1 [Hb1 [Hu2 Hb2]]]]]]].
    exists p. split; [assumption|].
    apply andb_true_iff. split; apply opt_eqb_true; eauto.
Qed.

(** The order a call selects, when the order numbers are distinct. *)
Lemma consistent_schema (d : db) : consistent d = true -> schema_ok d = true.
Proof. unfold consistent. rewrite andb_true_iff. tauto. Qed.

Lemma select_by_number (d : db) (o : Orders.row) :
  schema_ok d = true ->
  In o (orders d) ->
  find (fun x => String.eqb (Orders.order_number x) (Orders.order_number o)) (orders d)
  = Some o.
Proof.
  intros Hc Hin. apply find_by_distinct_key; [|assumption].
  unfold schema_ok in Hc.
  repeat (apply andb_true_iff in Hc as [Hc ?]). assumption.
Qed.

(** ** Integrity is kept by every transition *)

Lemma forallb_map {A B : Type} (f : B -> bool) (g : A -> B) (l : list A) :
  forallb f (map g l) = forallb (fun x => f (g x)) l.
Proof. induction l as [|a l IH]; simpl; [reflexivity | now rewrite IH]. Qed.

Lemma forallb_ext_in {A : Type} (f g : A -> bool) (l : list A) :
  (forall x, In x l -> f x = g x) -> forallb f l = forallb g l.
Proof.
  induction l as [|a l IH]; simpl; [reflexivity |].
  intros H. rewrite (H a (or_introl eq_refl)), IH; [reflexivity |].
  intros x Hx. apply H. now right.
Qed.

Lemma forallb_impl_in {A : Type} (f g : A -> bool) (l : list A) :
  (forall x, In x l -> f x = true -> g x = true) ->
  forallb f l = true -> forallb g l = true.
Proof.
  rewrite !forallb_forall. intros H Hf x Hx. auto.
Qed.

Lemma existsb_pointwise {A : Type} (f g : A -> bool) (l : list A) :
  (forall x, f x = g x) -> existsb f l = existsb g l.
Proof.
  intros H. induction l as [|a l IH]; simpl; [reflexivity | now rewrite H, IH].
Qed.

Section UpdateOrders.
Variable cond : Orders.row -> bool.
Variable set : Orders.row -> Orders.row.
Hypothesis set_id : forall o, Orders.id (set o) = Orders.id o.
Hypothesis set_order_number : forall o, Orders.order_number (set o) = Orders.order_number o.
Hypothesis set_midtrans : forall o, Orders.midtrans_order_id (set o) = Orders.midtrans_order_id o.
Hypothesis set_key : forall o, Orders.idempotency_key (set o) = Orders.idempotency_key o.
Hypothesis set_amount : forall o, Orders.amount (set o) = Orders.amount o.
Hypothesis set_leaves_pending : forall o, Orders.status (set o) <> Orders.pending.

Lemma map_upd_key {K : Type} (key : Orders.row -> K) (l : list Orders.row) :
  (forall o, key (set o) = key o) -> map key (map (update_row cond set) l) = map key l.
Proof.
  intros H. rewrite map_map. apply map_ext. intros o. unfold update_row.
  now destruct (cond o).
Qed.

Lemma upd_not_more_pending (o : Orders.row) :
  Orders.status_eqb (Orders.status ((update_row cond set) o)) Orders.pending = true ->
  Orders.status_eqb (Orders.status o) Orders.pending = true.
Proof.
  unfold update_row. destruct (cond o); [|auto].
  intros H. apply status_eqb_eq in H. now apply set_leaves_pending in H.
Qed.

Lemma consistent_update_orders (d : db) :
  consistent d = true ->
  consistent (mkdb (users d) (books d) (map (update_row cond set) (orders d)) (user_purchases d)
                   (payment_logs d) (audit_logs d) (webhook_events d)) = true.
Proof.
  unfold consistent, schema_ok, purchases_settled, references_order. simpl.
  rewrite !map_upd_key by assumption.
  rewrite !andb_true_iff.
  intros [[[[[[[[H1 H2] H3] H4] H5] H6] H7] H8] H9].
  repeat split; try assumption.
  - rewrite forallb_map. erewrite forallb_ext_in; [exact H5|].
    intros o _. unfold update_row. destruct (cond o); [now rewrite set_amount | reflexivity].
  - erewrite forallb_ext_in; [exact H7|].
    intros p _. simpl. destruct (UserPurchases.order_id p) as [i|]; [|reflexivity].
    rewrite existsb_map. apply existsb_pointwise. intros o. unfold update_row.
    destruct (cond o); [now rewrite set_id | reflexivity].
  - revert H9. apply forallb_impl_in. intros p _.
    rewrite forallb_map. apply forallb_impl_in. intros o _.
    rewrite !negb_true_iff, !andb_false_iff.
    intros [H|H].
    + left. unfold update_row. destruct (cond o); [now rewrite set_id | assumption].
    + right. destruct (Orders.status_eqb (Orders.status ((update_row cond set) o)) Orders.pending) eqn:E;
        [|reflexivity].
      apply upd_not_more_pending in E. congruence.
Qed.
End UpdateOrders.

Lemma consistent_insert_purchase (d : db) (r : UserPurchases.row)
    (pl : list PaymentLogs.row) (al : list AuditLogs.row) :
  consistent d = true ->
  existsb (same_user_book r) (user_purchases d) = false ->
  references_order d r = true ->
  (forall x, In x (orders d) ->
             sql_eq (UserPurchases.order_id r) (Orders.id x) = true ->
             Orders.status x <> Orders.pending) ->
  consistent (mkdb (users d) (books d) (orders d) (user_purchases d ++ [r]) pl al
                   (webhook_events d)) = true.
Proof.
  unfold consistent, schema_ok, purchases_settled. simpl.
  rewrite !andb_true_iff.
  intros [[[[[[[[H1 H2] H3] H4] H5] H6] H7] H8] H9] Hfresh Href Hst.
  repeat split; try assumption.
  - rewrite distinctb_snoc by apply same_user_book_sym.
    now rewrite H6, Hfresh.
  - rewrite forallb_app. simpl. rewrite andb_true_r.
    apply andb_true_iff. split; [exact H7 | exact Href].
  - rewrite forallb_app, H9. simpl. rewrite andb_true_r.
    apply forallb_forall. intros x Hx. apply negb_true_iff.
    destruct (sql_eq (UserPurchases.order_id r) (Orders.id x)) eqn:E; [|reflexivity].
    simpl. destruct (Orders.status_eqb (Orders.status x) Orders.pending) eqn:E2;
      [|reflexivity].
    apply status_eqb_eq in E2. now apply (Hst x Hx E) in E2.
Qed.

Lemma consistent_insert_webhook (d : db) (r : WebhookEvents.row) :
  consistent d = true ->
  existsb (same_webhook_key r) (webhook_events d) = false ->
  consistent (mkdb (users d) (books d) (orders d) (user_purchases d) (payment_logs d)
                   (audit_logs d) (webhook_events d ++ [r])) = true.
Proof.
  unfold consistent, schema_ok, purchases_settled. simpl.
  rewrite !andb_true_iff.
  intros [[[[[[[[H1 H2] H3] H4] H5] H6] H7] H8] H9] Hfresh.
  repeat split; try assumption.
  rewrite distinctb_snoc by apply same_webhook_key_sym. now rewrite H8, Hfresh.
Qed.

Lemma consistent_insert_audit (d : db) (al : list AuditLogs.row) :
  consistent d = true ->
  consistent (mkdb (users d) (books d) (orders d) (user_purchases d) (payment_logs d) al
                   (webhook_events d)) = true.
Proof. intros H. exact H. Qed.

Lemma consistent_insert_order (d : db) (r : Orders.row) :
  consistent d = true ->
  0 < Orders.amount r ->
  existsb (fun o => String.eqb (Orders.id o) (Orders.id r)) (orders d) = false ->
  existsb (fun o => String.eqb (Orders.order_number o) (Orders.order_number r))
          (orders d) = false ->
  existsb (fun o => opt_eqb String.eqb (Orders.midtrans_order_id o)
                                       (Orders.midtrans_order_id r)) (orders d) = false ->
  existsb (fun o => opt_eqb String.eqb (Orders.idempotency_key o)
                                       (Orders.idempotency_key r)) (orders d) = false ->
  consistent (mkdb (users d) (books d) (orders d ++ [r]) (user_purchases d) (payment_logs d)
                   (audit_logs d) (webhook_events d)) = true.
Proof.
  unfold consistent, schema_ok, purchases_settled, references_order. simpl.
  rewrite !andb_true_iff.
  intros [[[[[[[[H1 H2] H3] H4] H5] H6] H7] H8] H9] Hamt Hid Hnum Hmid Hkey.
  rewrite !map_app. simpl.
  repeat split; try assumption.
  - rewrite distinctb_snoc by apply String.eqb_sym.
    rewrite H1, existsb_map. simpl.
    erewrite existsb_pointwise; [rewrite Hid; reflexivity|].
    intros x. apply String.eqb_sym.
  - rewrite distinctb_snoc by apply String.eqb_sym.
    rewrite H2, existsb_map. simpl.
    erewrite existsb_pointwise; [rewrite Hnum; reflexivity|].
    intros x. apply String.eqb_sym.
  - rewrite distinctb_snoc by apply opt_eqb_sym.
    rewrite H3, existsb_map. simpl.
    erewrite existsb_pointwise; [rewrite Hmid; reflexivity|].
    intros x. apply opt_eqb_sym.
  - rewrite distinctb_snoc by apply opt_eqb_sym.
    rewrite H4, existsb_map. simpl.
    erewrite existsb_pointwise; [rewrite Hkey; reflexivity|].
    intros x. apply opt_eqb_sym.
  - rewrite forallb_app, H5. simpl. rewrite andb_true_r. now apply Z.ltb_lt.
  - revert H7. apply forallb_impl_in. intros p _.
    destruct (UserPurchases.order_id p) as [i|]; [|reflexivity].
    rewrite existsb_app. intros ->. reflexivity.
  - apply forallb_forall. intros p Hp.
    rewrite forallb_app. apply andb_true_iff. split.
    + rewrite forallb_forall in H9. exact (H9 p Hp).
    + simpl. rewrite andb_true_r. apply negb_true_iff, andb_false_iff. left.
      rewrite forallb_forall in H7. specialize (H7 p Hp).
      destruct (UserPurchases.order_id p) as [i|]; [|reflexivity]. simpl.
      destruct (String.eqb i (Orders.id r)) eqn:E; [|reflexivity].
      apply String.eqb_eq in E. subst i. congruence.
Qed.

Lemma completion_settled_inv (num : string) (d : db) (o : Orders.row) :
  completion_of num d = Settled o ->
  In o (orders d) /\ Orders.order_number o = num
  /\ existsb (fun p => sql_eq (UserPurchases.order_id p) (Orders.id o))
             (user_purchases d) = false
  /\ Orders.status o = Orders.pending
  /\ owned_by_buyer o d = false.
Proof.
  unfold completion_of.
  destruct (find _ (orders d)) as [x|] eqn:F; [|discriminate].
  destruct (existsb _ (user_purchases d)) eqn:R; [discriminate|].
  destruct (negb _) eqn:P; [discriminate|].
  destruct (owned_by_buyer x d) eqn:O; [discriminate|].
  intros H. injection H as <-.
  apply find_some in F as [Hin Hnum]. apply String.eqb_eq in Hnum.
  apply negb_false_iff, status_eqb_eq in P. auto.
Qed.

Lemma settled_consistent (now : timestamptz) (o : Orders.row) (txn : string)
    (payload : json) (d : db) :
  consistent d = true ->
  In o (orders d) ->
  owned_by_buyer o d = false ->
  consistent (settled now o txn payload d) = true.
Proof.
  intros Hc Hin Hown.
  pose (cond := fun x => String.eqb (Orders.id x) (Orders.id o)).
  pose (d1 := mkdb (users d) (books d)
                   (map (fun x => if cond x then Orders.set_paid now x else x) (orders d))
                   (user_purchases d) (payment_logs d) (audit_logs d) (webhook_events d)).
  assert (Hc1 : consistent d1 = true).
  { apply consistent_update_orders; auto; intros x; discriminate. }
  apply (consistent_insert_purchase d1 (purchase_of_order now o)); auto.
  - simpl. apply existsb_exists. exists (if cond o then Orders.set_paid now o else o).
    split.
    + apply in_map_iff. now exists o.
    + unfold cond. rewrite String.eqb_refl. simpl. apply String.eqb_refl.
  - simpl. intros x Hx E. apply in_map_iff in Hx as [x0 [<- Hx0]].
    unfold cond in *. destruct (String.eqb (Orders.id x0) (Orders.id o)) eqn:E0.
    + discriminate.
    + rewrite String.eqb_sym in E. congruence.
Qed.

Lemma complete_payment_atomic_consistent (e : env) (num txn : string)
    (payload : json) (d : db) :
  consistent d = true ->
  consistent (after (complete_payment_atomic e num txn payload) d) = true.
Proof.
  intros Hc. unfold after. rewrite complete_payment_atomic_unfold.
  destruct (completion_of num d) eqn:C; try assumption.
  apply completion_settled_inv in C as [Hin [_ [_ [_ Hown]]]].
  now apply settled_consistent.
Qed.

Lemma cleanup_expired_orders_unfold (e : env) (d : db) :
  cleanup_expired_orders e d =
  let n := List.length (filter (pending_and_expired (NOW e)) (orders d)) in
  inr (Z.of_nat n,
       mkdb (users d) (books d)
            (map (fun o => if pending_and_expired (NOW e) o
                           then Orders.set_expired (NOW e) o else o) (orders d))
            (user_purchases d) (payment_logs d)
            (audit_logs d
             ++ [AuditLogs.mk None "EXPIRED_ORDERS_CLEANUP" (Some "system") None
                   (Some (JObj [("expired_count", JNum (Z.of_nat n))]))
                   (Some (NOW e))])
            (webhook_events d)).
Proof. reflexivity. Qed.

Lemma cleanup_expired_orders_consistent (e : env) (d : db) :
  consistent d = true ->
  consistent (after (cleanup_expired_orders e) d) = true.
Proof.
  intros Hc. unfold after. rewrite cleanup_expired_orders_unfold. cbv zeta.
  apply (consistent_insert_audit
           (mkdb (users d) (books d)
                 (map (fun o => if pending_and_expired (NOW e) o
                                then Orders.set_expired (NOW e) o else o) (orders d))
                 (user_purchases d) (payment_logs d) (audit_logs d) (webhook_events d))).
  apply consistent_update_orders; auto; intros x; discriminate.
Qed.

Lemma process_webhook_event_unfold (e : env) (txn oid ty : string) (payload : json)
    (d : db) :
  process_webhook_event e txn oid ty payload d =
  if existsb (fun w => String.eqb (WebhookEvents.transaction_id w) txn
                       && String.eqb (WebhookEvents.event_type w) ty)
             (webhook_events d)
  then inr (JObj [("success", JBool true);
                  ("message", JStr "Event already processed");
                  ("duplicate", JBool true)], d)
  else inr (JObj [("success", JBool true);
                  ("message", JStr "Event processed successfully");
                  ("duplicate", JBool false)],
            mkdb (users d) (books d) (orders d) (user_purchases d) (payment_logs d) (audit_logs d)
                 (webhook_events d
                  ++ [WebhookEvents.mk txn oid ty (Some payload) (Some (NOW e))])).
Proof.
  unfold process_webhook_event, existing_webhook_event, insert_webhook_events,
    same_webhook_key.
  unfold bind, query, enforce, modify, ret. simpl.
  destruct (existsb _ (webhook_events d)) eqn:E; [reflexivity|].
  erewrite existsb_pointwise; [rewrite E; reflexivity|].
  intros w. simpl.
  now rewrite (String.eqb_sym txn), (String.eqb_sym ty).
Qed.

Lemma process_webhook_event_consistent (e : env) (txn oid ty : string)
    (payload : json) (d : db) :
  consistent d = true ->
  consistent (after (process_webhook_event e txn oid ty payload) d) = true.
Proof.
  intros Hc. unfold after. rewrite process_webhook_event_unfold.
  destruct (existsb _ (webhook_events d)) eqn:E; [assumption|].
  apply consistent_insert_webhook; [assumption|].
  unfold same_webhook_key. simpl.
  erewrite existsb_pointwise; [exact E|].
  intros w. simpl. now rewrite (String.eqb_sym txn), (String.eqb_sym ty).
Qed.

Lemma create_order_with_idempotency_unfold (e : env) (u b : uuid) (amt : Z)
    (pm : string) (key : option string) (d : db) :
  create_order_with_idempotency e u b amt pm key d =
  inr (if negb (existsb (fun x => String.eqb (Books.id x) b && sql_true (Books.is_active x))
                        (books d))
       then (failure "BOOK_NOT_FOUND", d)
       else if existsb (fun p => sql_eq (UserPurchases.user_id p) u
                                 && sql_eq (UserPurchases.book_id p) b)
                       (user_purchases d)
       then (failure "BOOK_ALREADY_PURCHASED", d)
       else match insert_orders (new_order e u b amt pm key) d with
            | inl (unique_violation _) => (failure "DUPLICATE_ORDER", d)
            | inl err => (failure (SQLERRM err), d)
            | inr (_, d') =>
                (JObj [("success", JBool true);
                       ("order_id", JStr (gen_random_uuid e));
                       ("order_number",
                        JStr (Orders.order_number (new_order e u b amt pm key)))], d')
            end).
Proof.
  unfold create_order_with_idempotency, exception_block, bind, exists_active_book,
    exists_purchase_of_user, query.
  destruct (negb _); [reflexivity|].
  destruct (existsb _ (user_purchases d)); [reflexivity|].
  fold (new_order e u b amt pm key).
  destruct (insert_orders (new_order e u b amt pm key) d) as [[c|r c|r c]|[[] d']];
    reflexivity.
Qed.

Lemma insert_orders_inr (r : Orders.row) (d d' : db) :
  insert_orders r d = inr (tt, d') ->
  0 < Orders.amount r
  /\ existsb (fun o => String.eqb (Orders.id o) (Orders.id r)) (orders d) = false
  /\ existsb (fun o => String.eqb (Orders.order_number o) (Orders.order_number r))
             (orders d) = false
  /\ existsb (fun o => opt_eqb String.eqb (Orders.midtrans_order_id o)
                                          (Orders.midtrans_order_id r)) (orders d) = false
  /\ existsb (fun o => opt_eqb String.eqb (Orders.idempotency_key o)
                                          (Orders.idempotency_key r)) (orders d) = false
  /\ d' = mkdb (users d) (books d) (orders d ++ [r]) (user_purchases d) (payment_logs d)
               (audit_logs d) (webhook_events d).
Proof.
  unfold insert_orders, enforce, modify, bind.
  destruct (0 <? Orders.amount r) eqn:A; [|discriminate].
  destruct (expires_after_created r); [|discriminate].
  destruct (existsb _ (orders d)); [discriminate|]. simpl.
  destruct (existsb _ (orders d)); [discriminate|]. simpl.
  destruct (existsb _ (orders d)); [discriminate|]. simpl.
  destruct (existsb _ (orders d)); [discriminate|]. simpl.
  destruct (user_is_there d (Orders.user_id r)); [|discriminate]. simpl.
  destruct (book_is_there d (Orders.book_id r)); [|discriminate]. simpl.
  intros H. injection H as <-. apply Z.ltb_lt in A. auto 10.
Qed.

Lemma insert_orders_references (r : Orders.row) (d d' : db) :
  insert_orders r d = inr (tt, d') ->
  user_is_there d (Orders.user_id r) = true
  /\ book_is_there d (Orders.book_id r) = true.
Proof.
  unfold insert_orders, enforce, modify, bind.
  destruct (0 <? Orders.amount r) eqn:A; [|discriminate].
  destruct (expires_after_created r); [|discriminate].
  destruct (existsb _ (orders d)); [discriminate|]. simpl.
  destruct (existsb _ (orders d)); [discriminate|]. simpl.
  destruct (existsb _ (orders d)); [discriminate|]. simpl.
  destruct (existsb _ (orders d)); [discriminate|]. simpl.
  destruct (user_is_there d (Orders.user_id r)); [|discriminate]. simpl.
  destruct (book_is_there d (Orders.book_id r)); [|discriminate]. auto.
Qed.

Lemma create_order_with_idempotency_consistent (e : env) (u b : uuid) (amt : Z)
    (pm : string) (key : option string) (d : db) :
  consistent d = true ->
  consistent (after (create_order_with_idempotency e u b amt pm key) d) = true.
Proof.
  intros Hc. unfold after. rewrite create_order_with_idempotency_unfold.
  destruct (negb _); [assumption|].
  destruct (existsb _ (user_purchases d)); [assumption|].
  destruct (insert_orders _ d) as [[c|r c|r c]|[[] d']] eqn:I; try assumption.
  apply insert_orders_inr in I as [Ha [Hi [Hn [Hm [Hk ->]]]]].
  now apply consistent_insert_order.
Qed.

(** Every call keeps the integrity of the database, and so does every
    sequence of calls. *)
Lemma exec_consistent (c : call) (d : db) :
  consistent d = true -> consistent (exec c d) = true.
Proof.
  destruct c; simpl.
  - apply create_order_with_idempotency_consistent.
  - apply process_webhook_event_consistent.
  - apply complete_payment_atomic_consistent.
  - apply cleanup_expired_orders_consistent.
Qed.

Lemma run_consistent (cs : list call) (d : db) :
  consistent d = true -> consistent (run cs d) = true.
Proof.
  revert d. induction cs as [|c cs IH]; simpl; intros d Hc; [assumption|].
  apply IH. now apply exec_consistent.
Qed.


Example first_settled_rows :
  orders first_settled = [Orders.set_paid 3000 first_order; second_order]
  /\ user_purchases first_settled = [purchase_of_order 3000 first_order]
  /\ payment_logs first_settled
     = [log_of_payment 3000 first_order "tx-1" gateway_payload].
Proof. repeat split. Qed.

(** ** Which way a settlement goes, in terms of the rows *)

Lemma distinct_key_inj {A : Type} (key : A -> string) (l : list A) (x y : A) :
  distinctb String.eqb (map key l) = true ->
  In x l -> In y l -> key x = key y -> x = y.
Proof.
  intros Hd Hx Hy Hk.
  pose proof (find_by_distinct_key key l x Hd Hx) as Fx.
  pose proof (find_by_distinct_key key l y Hd Hy) as Fy.
  rewrite Hk in Fx. congruence.
Qed.

Lemma schema_ids (d : db) :
  schema_ok d = true -> distinctb String.eqb (map Orders.id (orders d)) = true.
Proof.
  unfold schema_ok. rewrite !andb_true_iff. tauto.
Qed.

Lemma schema_numbers (d : db) :
  schema_ok d = true ->
  distinctb String.eqb (map Orders.order_number (orders d)) = true.
Proof.
  unfold schema_ok. rewrite !andb_true_iff. tauto.
Qed.


Lemma completion_of_order (d : db) (o : Orders.row) :
  schema_ok d = true ->
  In o (orders d) ->
  completion_of (Orders.order_number o) d =
  if existsb (fun p => sql_eq (UserPurchases.order_id p) (Orders.id o)) (user_purchases d)
  then AlreadyProcessed o
  else if negb (Orders.status_eqb (Orders.status o) Orders.pending)
  then OrderNotPending o
  else if owned_by_buyer o d then Rejected o else Settled o.
Proof.
  intros Hc Hin. unfold completion_of. now rewrite select_by_number.
Qed.



Lemma Forall2_map_in {A B : Type} (R : A -> B -> Prop) (f : A -> B) (l : list A) :
  (forall x, In x l -> R x (f x)) -> Forall2 R l (map f l).
Proof.
  induction l as [|a l IH]; simpl; intros H; constructor.
  - apply H. now left.
  - apply IH. intros x Hx. apply H. now right.
Qed.


(** ** Payment completion *)


Lemma two_orders_consistent : consistent two_orders = true.
Proof. reflexivity. Qed.

Lemma first_settled_consistent : consistent first_settled = true.
Proof. reflexivity. Qed.



(** ** No double purchase *)

Lemma distinct_purchases_at_most_one (u b : uuid) (l : list UserPurchases.row) :
  distinctb same_user_book l = true ->
  (List.length (filter (fun p => sql_eq (UserPurchases.user_id p) u
                                 && sql_eq (UserPurchases.book_id p) b) l) <= 1)%nat.
Proof.
  induction l as [|p l IH]; simpl; [lia|].
  intros H. apply andb_true_iff in H as [Hp Hl].
  destruct (sql_eq (UserPurchases.user_id p) u && sql_eq (UserPurchases.book_id p) b)
    eqn:E; [|auto].
  apply andb_true_iff in E as [Eu Eb].
  apply sql_eq_true in Eu, Eb.
  apply negb_true_iff in Hp.
  assert (Hnil : filter (fun q => sql_eq (UserPurchases.user_id q) u
                                  && sql_eq (UserPurchases.book_id q) b) l = []).
  { destruct (filter _ l) as [|q tl] eqn:F; [reflexivity|].
    assert (Hq : In q (filter (fun q => sql_eq (UserPurchases.user_id q) u
                                        && sql_eq (UserPurchases.book_id q) b) l))
      by (rewrite F; now left).
    apply filter_In in Hq as [Hq Hh]. apply andb_true_iff in Hh as [Hu Hb].
    apply sql_eq_true in Hu, Hb.
    pose proof (proj1 (existsb_false_iff _ _) Hp q Hq) as C.
    unfold same_user_book in C. rewrite Eu, Eb, Hu, Hb in C. simpl in C.
    rewrite !String.eqb_refl in C. discriminate. }
  rewrite Hnil. simpl. lia.
Qed.

Lemma consistent_at_most_one (d : db) (u b : uuid) :
  consistent d = true -> (List.length (purchases_of u b d) <= 1)%nat.
Proof.
  intros Hc. apply distinct_purchases_at_most_one.
  unfold consistent, schema_ok in Hc. rewrite !andb_true_iff in Hc. tauto.
Qed.

(** C2.  Starting from a database that satisfies its constraints, after any
    sequence of calls of the four functions every user holds at most one
    purchase row per book; and once a user holds a purchase of a book, the
    settlement of any order of that user for that book leaves the database
    as it was (no second purchase row) and answers either a failure or the
    ALREADY_PROCESSED no-op. *)
Theorem at_most_one_purchase_per_user_and_book (cs : list call) (d : db) :
  consistent d = true ->
  (forall u b, (List.length (purchases_of u b (run cs d)) <= 1)%nat)
  /\ (forall e txn payload o u b,
        In o (orders (run cs d)) ->
        Orders.user_id o = Some u -> Orders.book_id o = Some b ->
        purchases_of u b (run cs d) <> [] ->
        exists r,
          complete_payment_atomic e (Orders.order_number o) txn payload (run cs d)
          = inr (r, run cs d)
          /\ (jget "success" r = Some (JBool false)
              \/ jget "error" r = Some (JStr "ALREADY_PROCESSED"))).
Proof.
  intros Hc. pose proof (run_consistent cs d Hc) as Hr. split.
  - intros u b. now apply consistent_at_most_one.
  - intros e txn payload o u b Hin Hu Hb Hne.
    rewrite complete_payment_atomic_unfold,
      (completion_of_order _ o (consistent_schema _ Hr) Hin).
    destruct (existsb _ (user_purchases (run cs d)));
      [eexists; split; [reflexivity | now right]|].
    destruct (negb _); [eexists; split; [reflexivity | now left]|].
    assert (O : owned_by_buyer o (run cs d) = true).
    { apply owned_by_buyer_iff.
      destruct (purchases_of u b (run cs d)) as [|p tl] eqn:F; [congruence|].
      assert (Hp : In p (purchases_of u b (run cs d))) by (rewrite F; now left).
      apply filter_In in Hp as [Hp Hh]. apply andb_true_iff in Hh as [Hpu Hpb].
      apply sql_eq_true in Hpu, Hpb. exists p, u, b. auto. }
    rewrite O. eexists; split; [reflexivity | now left].
Qed.

Lemma at_most_one_purchase_per_user_and_book_witness :
  consistent shop = true
  /\ List.length (purchases_of "u-1" "b-1" first_settled) = 1%nat
  /\ exists r,
       complete_payment_atomic next_day "ORD-20250101-000043" "tx-2" gateway_payload
                               first_settled = inr (r, first_settled)
       /\ (jget "success" r = Some (JBool false)
           \/ jget "error" r = Some (JStr "ALREADY_PROCESSED")).
Proof.
  split; [reflexivity|]. split; [reflexivity|].
  pose (cs := [CreateOrder at_1000 "u-1" "b-1" 5000000 "qris" (Some "key-1");
               CreateOrder at_2000 "u-1" "b-1" 5000000 "gopay" (Some "key-2");
               CompletePayment at_3000 "ORD-20250101-000042" "tx-1" gateway_payload]).
  destruct (at_most_one_purchase_per_user_and_book cs shop eq_refl) as [_ H].
  apply (H next_day "tx-2" gateway_payload second_order "u-1" "b-1").
  - right. now left.
  - reflexivity.
  - reflexivity.
  - discriminate.
Defined.

(** ** Rollback *)

(** C5.  When a statement of [complete_payment_atomic] raises after the order
    was locked, the call answers a failure carrying the error message and
    leaves the database exactly as it was: the order is still there and still
    pending, no purchase row and no payment log row was added, and the
    identical call, whenever it is repeated, does the same again. *)
Theorem complete_payment_atomic_rolls_back (e : env) (num txn : string)
    (payload : json) (d : db) (err : sqlstate) :
  complete_payment_body e num txn payload d = inl err ->
  complete_payment_atomic e num txn payload d = inr (failure (SQLERRM err), d)
  /\ (exists o, In o (orders d) /\ Orders.order_number o = num
                /\ Orders.status o = Orders.pending)
  /\ (forall e', complete_payment_atomic e' num txn payload d
                 = inr (failure (SQLERRM err), d)).
Proof.
  intros H.
  assert (A : forall e', complete_payment_body e' num txn payload d = inl err).
  { intros e'. rewrite complete_payment_body_unfold in *.
    destruct (completion_of num d); try discriminate. exact H. }
  split; [|split].
  - unfold complete_payment_atomic, exception_block. now rewrite H.
  - rewrite complete_payment_body_unfold in H. unfold completion_of in H.
    destruct (find _ (orders d)) as [o|] eqn:F; [|discriminate].
    destruct (existsb _ (user_purchases d)); [discriminate|].
    destruct (negb _) eqn:P; [discriminate|].
    apply find_some in F as [Hin Hn]. apply String.eqb_eq in Hn.
    apply negb_false_iff, status_eqb_eq in P. now exists o.
  - intros e'. unfold complete_payment_atomic, exception_block. now rewrite A.
Qed.

Lemma complete_payment_atomic_rolls_back_witness :
  complete_payment_body next_day "ORD-20250101-000043" "tx-2" gateway_payload
                        first_settled
  = inl (unique_violation "user_purchases_user_id_book_id_key")
  /\ complete_payment_atomic next_day "ORD-20250101-000043" "tx-2" gateway_payload
                             first_settled
     = inr (failure (SQLERRM (unique_violation "user_purchases_user_id_book_id_key")),
            first_settled).
Proof.
  split; [reflexivity|].
  apply (complete_payment_atomic_rolls_back next_day "ORD-20250101-000043" "tx-2"
           gateway_payload first_settled
           (unique_violation "user_purchases_user_id_book_id_key")).
  reflexivity.
Defined.

(** ** The payment log *)

(** C10.  A call of [complete_payment_atomic] adds at most one row to
    [payment_logs], and adds one exactly when it answers success with the
    order id; whatever the transaction id and the payload, the row has
    [transaction_status = 'settlement'], the payload in [webhook_data] and the
    transaction id in [transaction_id], and nothing in [payment_type],
    [gross_amount], [fraud_status] and [settlement_time]. *)
Theorem payment_log_status_is_settlement (e : env) (num txn : string)
    (payload : json) (d : db) :
  exists r d',
    complete_payment_atomic e num txn payload d = inr (r, d')
    /\ (jget "order_id" r = None /\ payment_logs d' = payment_logs d
        \/ exists l,
             jget "success" r = Some (JBool true)
             /\ jget "order_id" r = option_map JStr (PaymentLogs.order_id l)
             /\ payment_logs d' = (payment_logs d ++ [l])%list
             /\ PaymentLogs.transaction_status l = Some "settlement"
             /\ PaymentLogs.webhook_data l = Some payload
             /\ PaymentLogs.transaction_id l = Some txn
             /\ PaymentLogs.payment_type l = None
             /\ PaymentLogs.gross_amount l = None
             /\ PaymentLogs.fraud_status l = None
             /\ PaymentLogs.settlement_time l = None).
Proof.
  rewrite complete_payment_atomic_unfold.
  match goal with |- context [inr ?x] => exists (fst x), (snd x) end.
  split; [now rewrite <- surjective_pairing|].
  destruct (completion_of num d) as [|o|o|o|o]; try (left; split; reflexivity).
  right. exists (log_of_payment (NOW e) o txn payload). repeat split.
Qed.

(** ** Order creation with a key that is already taken *)







(** ** The webhook ledger *)



(** ** The expiry sweep *)

Lemma pending_and_expired_iff (now : timestamptz) (o : Orders.row) :
  pending_and_expired now o = true <-> stale now o.
Proof.
  unfold pending_and_expired, stale. rewrite andb_true_iff, status_eqb_eq.
  destruct (Orders.expires_at o) as [t|].
  - rewrite Z.ltb_lt. split.
    + intros [H1 H2]. split; [assumption | now exists t].
    + intros [H1 [t' [H2 H3]]]. injection H2 as <-. auto.
  - split; [intros [_ H]; discriminate | intros [_ [t [H _]]]; discriminate].
Qed.

(** The sweep adds to the expired orders the rows it selects. *)
Lemma count_expired (now : timestamptz) (l : list Orders.row) :
  Z.of_nat (List.length (filter (pending_and_expired now) l))
  = Z.of_nat (List.length
                (filter (fun o => Orders.status_eqb (Orders.status o) Orders.expired)
                        (map (fun o => if pending_and_expired now o
                                       then Orders.set_expired now o else o) l)))
    - Z.of_nat (List.length
                  (filter (fun o => Orders.status_eqb (Orders.status o) Orders.expired)
                          l)).
Proof.
  induction l as [|o l IH]; [reflexivity|].
  cbn [filter map List.length].
  destruct (pending_and_expired now o) eqn:P.
  - cbn [Orders.set_expired Orders.status Orders.status_eqb List.length].
    unfold pending_and_expired in P. apply andb_true_iff in P as [P _].
    apply status_eqb_eq in P. rewrite P. cbn [Orders.status_eqb List.length]. lia.
  - destruct (Orders.status_eqb (Orders.status o) Orders.expired);
      cbn [List.length]; lia.
Qed.

(** C7.  A call of [cleanup_expired_orders] always returns.  Row by row, an
    order that is pending with [expires_at] earlier than [NOW()] gets status
    [expired] and [updated_at = NOW()] and keeps its other columns; every
    other order is left as it is, in particular an order that is no longer
    pending (one settled in the interim stays paid), one whose [expires_at]
    is null and one that expires at [NOW()] or later.  The call touches no
    user, book, purchase, payment log or ledger row, adds one
    EXPIRED_ORDERS_CLEANUP audit row carrying the count, and returns the
    number of orders it turned, which is the number of orders that are
    expired afterwards and were not before. *)
Theorem cleanup_expired_orders_spec (e : env) (d : db) :
  exists n d',
    cleanup_expired_orders e d = inr (n, d')
    /\ Forall2 (fun o o' =>
                  (stale (NOW e) o ->
                   Orders.status o' = Orders.expired
                   /\ Orders.updated_at o' = Some (NOW e)
                   /\ o' = Orders.mk (Orders.id o) (Orders.user_id o) (Orders.book_id o)
                                     (Orders.order_number o) (Orders.amount o)
                                     Orders.expired (Orders.payment_method o)
                                     (Orders.midtrans_order_id o) (Orders.payment_url o)
                                     (Orders.paid_at o) (Orders.expires_at o)
                                     (Orders.idempotency_key o) (Orders.created_at o)
                                     (Some (NOW e)))
                  /\ (~ stale (NOW e) o -> o' = o)
                  /\ (Orders.status o <> Orders.pending -> o' = o)
                  /\ (Orders.expires_at o = None -> o' = o)
                  /\ (forall t, Orders.expires_at o = Some t -> NOW e <= t -> o' = o))
               (orders d) (orders d')
    /\ n = Z.of_nat (List.length (filter (pending_and_expired (NOW e)) (orders d)))
    /\ (forall o, pending_and_expired (NOW e) o = true <-> stale (NOW e) o)
    /\ n = Z.of_nat (List.length (filter (fun o => Orders.status_eqb (Orders.status o)
                                                                     Orders.expired)
                                         (orders d')))
           - Z.of_nat (List.length (filter (fun o => Orders.status_eqb (Orders.status o)
                                                                       Orders.expired)
                                           (orders d)))
    /\ user_purchases d' = user_purchases d
    /\ payment_logs d' = payment_logs d
    /\ webhook_events d' = webhook_events d
    /\ books d' = books d
    /\ users d' = users d
    /\ audit_logs d'
       = (audit_logs d
          ++ [AuditLogs.mk None "EXPIRED_ORDERS_CLEANUP" (Some "system") None
                           (Some (JObj [("expired_count", JNum n)]))
                           (Some (NOW e))])%list.
Proof.
  rewrite cleanup_expired_orders_unfold. cbv zeta.
  eexists _, _. split; [reflexivity|]. simpl.
  split; [|split; [reflexivity
                  | split; [apply pending_and_expired_iff
                           | split; [apply count_expired | repeat split]]]].
  apply Forall2_map_in. intros o _.
  destruct (pending_and_expired (NOW e) o) eqn:P.
  - apply pending_and_expired_iff in P.
    split; [intros _; repeat split|]. split; [contradiction|].
    destruct P as [Hs [t [Ht Hlt]]].
    split; [contradiction|]. split; [congruence|].
    intros t' Ht' Hle. rewrite Ht in Ht'. injection Ht' as <-. lia.
  - assert (N : ~ stale (NOW e) o).
    { intros H. apply pending_and_expired_iff in H. congruence. }
    split; [contradiction|]. repeat split.
Qed.

(** ** Settlement against the sweep *)



Lemma complete_payment_atomic_after (e : env) (num txn : string) (payload : json)
    (d : db) :
  exists r, complete_payment_atomic e num txn payload d
            = inr (r, after (complete_payment_atomic e num txn payload) d).
Proof.
  unfold after. rewrite complete_payment_atomic_unfold.
  match goal with |- context [inr ?x] => exists (fst x) end.
  now rewrite <- surjective_pairing.
Qed.




(** * Facts about the payment monitor *)

Import Monitor.

(** ** The task queue *)

Lemma earliest_spec (l : list timer) (m : timer) :
  earliest l = Some m -> In m l /\ forall t, In t l -> due m <= due t.
Proof.
  revert m. induction l as [|a l IH]; simpl; [discriminate|].
  intros m. destruct (earliest l) as [m0|] eqn:E.
  - destruct (IH m0 eq_refl) as [Hin Hmin].
    destruct (before a m0) eqn:B; intros H; injection H as <-.
    + split; [now left|]. intros t [<-|Ht]; [lia|].
      specialize (Hmin t Ht). unfold before in B.
      apply orb_true_iff in B as [B|B].
      * apply Z.ltb_lt in B. lia.
      * apply andb_true_iff in B as [B _]. apply Z.eqb_eq in B. lia.
    + split; [now right|]. intros t [<-|Ht]; [|auto].
      unfold before in B. apply orb_false_iff in B as [B _].
      apply Z.ltb_ge in B. lia.
  - intros H. injection H as <-. destruct l as [|b l]; [|simpl in E].
    + split; [now left|]. intros t [<-|[]]. lia.
    + destruct (earliest l) as [x|]; [destruct (before b x)|]; discriminate.
Qed.

Lemma same_id (l : list timer) (a b : timer) :
  NoDup (map id l) -> In a l -> In b l -> id a = id b -> a = b.
Proof.
  induction l as [|x l IH]; simpl; [intros _ []|].
  intros Hnd Ha Hb Hid. inversion Hnd as [|? ? Hx Hl]; subst.
  destruct Ha as [<-|Ha], Hb as [<-|Hb]; auto.
  - exfalso. apply Hx. rewrite Hid. now apply in_map.
  - exfalso. apply Hx. rewrite <- Hid. now apply in_map.
Qed.

Lemma in_cleared (i : nat) (l : list timer) (t : timer) :
  In t (filter (fun x => negb (Nat.eqb (id x) i)) l) <-> In t l /\ id t <> i.
Proof.
  rewrite filter_In, negb_true_iff, Nat.eqb_neq. reflexivity.
Qed.

Lemma NoDup_cleared (i : nat) (l : list timer) :
  NoDup (map id l) ->
  NoDup (map id (filter (fun x => negb (Nat.eqb (id x) i)) l)).
Proof.
  induction l as [|x l IH]; simpl; [auto|].
  intros Hnd. inversion Hnd as [|? ? Hx Hl]; subst.
  destruct (negb (Nat.eqb (id x) i)); simpl; [|auto].
  constructor; [|auto].
  intros H. apply Hx. apply in_map_iff in H as [y [Hy Hin]].
  apply in_map_iff. exists y. split; [assumption|]. now apply in_cleared in Hin.
Qed.

Lemma NoDup_snoc (l : list nat) (n : nat) :
  NoDup l -> ~ In n l -> NoDup (l ++ [n]).
Proof.
  induction l as [|x l IH]; simpl; intros Hnd Hn.
  - constructor; [intros [] | constructor].
  - inversion Hnd as [|? ? Hx Hl]; subst. constructor.
    + rewrite in_app_iff. simpl. intros [H|[H|[]]]; [auto | subst; auto].
    + apply IH; auto.
Qed.

(** ** The queue stays in order *)

Lemma schedule_ok_same (p q : page) :
  clock q = clock p -> timers q = timers p -> next_id q = next_id p ->
  schedule_ok p -> schedule_ok q.
Proof.
  intros Hc Ht Hn [H1 H2 H3 H4].
  constructor; rewrite ?Hc, ?Ht, ?Hn; assumption.
Qed.

Lemma schedule_ok_schedule (c : callback) (delay : Z) (every : option Z) (p : page) :
  0 <= delay -> (forall d, every = Some d -> 0 < d) ->
  schedule_ok p -> schedule_ok (snd (schedule c delay every p)).
Proof.
  intros Hd He [H1 H2 H3 H4]. constructor; simpl.
  - intros t Ht. apply in_app_iff in Ht as [Ht|[<-|[]]]; [auto | simpl; lia].
  - intros t Ht. apply in_app_iff in Ht as [Ht|[<-|[]]]; [|simpl; lia].
    specialize (H2 t Ht). lia.
  - rewrite map_app. simpl. apply NoDup_snoc; [assumption|].
    intros H. apply in_map_iff in H as [t [Hid Ht]].
    specialize (H2 t Ht). lia.
  - intros t d Ht Hp. apply in_app_iff in Ht as [Ht|[<-|[]]]; [eauto | simpl in Hp; auto].
Qed.

Lemma schedule_ok_clearInterval (i : nat) (p : page) :
  schedule_ok p -> schedule_ok (clearInterval i p).
Proof.
  intros [H1 H2 H3 H4]. constructor; simpl.
  - intros t Ht. apply in_cleared in Ht as [Ht _]. auto.
  - intros t Ht. apply in_cleared in Ht as [Ht _]. auto.
  - now apply NoDup_cleared.
  - intros t d Ht. apply in_cleared in Ht as [Ht _]. eauto.
Qed.

Lemma schedule_ok_stopStatusPolling (p : page) :
  schedule_ok p -> schedule_ok (stopStatusPolling p).
Proof.
  intros H. unfold stopStatusPolling. destruct (statusCheckInterval p); [|assumption].
  apply (schedule_ok_same (clearInterval n p)); auto using schedule_ok_clearInterval.
Qed.

Lemma schedule_ok_close_payment_window (w : world) (p : page) :
  schedule_ok p -> schedule_ok (close_payment_window w p).
Proof.
  intros H. unfold close_payment_window.
  destruct (paymentWindow p) as [c|]; [|assumption].
  destruct (negb (closed w p c)); [|assumption].
  now apply (schedule_ok_same p).
Qed.

Lemma schedule_ok_start_task (m : timer) (p : page) :
  schedule_ok p -> earliest (timers p) = Some m -> schedule_ok (start_task m p).
Proof.
  intros [H1 H2 H3 H4] E. apply earliest_spec in E as [Hin Hmin].
  constructor; simpl.
  - intros t Ht. apply in_app_iff in Ht as [Ht|Ht].
    + apply in_cleared in Ht as [Ht _]. auto.
    + destruct (period m) as [d|] eqn:P; [|contradiction].
      destruct Ht as [<-|[]]. simpl. specialize (H4 m d Hin P). lia.
  - intros t Ht. apply in_app_iff in Ht as [Ht|Ht].
    + apply in_cleared in Ht as [Ht _]. auto.
    + destruct (period m) as [d|]; [|contradiction].
      destruct Ht as [<-|[]]. simpl. auto.
  - rewrite map_app. destruct (period m) as [d|]; simpl.
    + apply NoDup_snoc; [now apply NoDup_cleared|].
      intros H. apply in_map_iff in H as [t [Hid Ht]].
      apply in_cleared in Ht as [_ Ht]. contradiction.
    + rewrite app_nil_r. now apply NoDup_cleared.
  - intros t d Ht Hp. apply in_app_iff in Ht as [Ht|Ht].
    + apply in_cleared in Ht as [Ht _]. eauto.
    + destruct (period m) as [d'|] eqn:P; [|contradiction].
      destruct Ht as [<-|[]]. simpl in Hp. injection Hp as <-. eauto.
Qed.

Lemma schedule_ok_checkPaymentStatus (w : world) (p : page) :
  schedule_ok p -> schedule_ok (checkPaymentStatus w p).
Proof.
  intros H. unfold checkPaymentStatus. destruct (currentOrder p) as [o|]; [|assumption].
  apply schedule_ok_schedule; [lia | discriminate |].
  now apply (schedule_ok_same p).
Qed.

Lemma schedule_ok_window_check (w : world) (self : nat) (p : page) :
  schedule_ok p -> schedule_ok (window_check w self p).
Proof.
  intros H. unfold window_check. destruct (paymentWindow p) as [c|]; [|assumption].
  destruct (closed w p c); [|assumption].
  apply schedule_ok_schedule; [lia | discriminate |].
  apply (schedule_ok_same (clearInterval self p)); auto using schedule_ok_clearInterval.
Qed.

Lemma schedule_ok_handlePaymentSuccess (w : world) (p : page) :
  schedule_ok p -> schedule_ok (handlePaymentSuccess w p).
Proof.
  intros H. unfold handlePaymentSuccess.
  apply (schedule_ok_same (close_payment_window w (stopStatusPolling p)));
    try (destruct (confirm w); reflexivity).
  auto using schedule_ok_close_payment_window, schedule_ok_stopStatusPolling.
Qed.

Lemma schedule_ok_handlePaymentFailure (w : world) (s : Orders.status_t) (p : page) :
  schedule_ok p -> schedule_ok (handlePaymentFailure w s p).
Proof.
  intros H. unfold handlePaymentFailure.
  apply (schedule_ok_same (close_payment_window w (stopStatusPolling p)));
    try reflexivity.
  auto using schedule_ok_close_payment_window, schedule_ok_stopStatusPolling.
Qed.

Lemma schedule_ok_resume (w : world) (answer : option order_data) (p : page) :
  schedule_ok p -> schedule_ok (checkPaymentStatus_resume w answer p).
Proof.
  intros H. unfold checkPaymentStatus_resume.
  destruct answer as [u|]; [|assumption].
  destruct (currentOrder p) as [cur|]; [|assumption].
  destruct (negb _); [|assumption].
  assert (H1 : schedule_ok (set_currentOrder (Some u) p))
    by now apply (schedule_ok_same p).
  match goal with |- schedule_ok (triggerPaymentCallbacks _ ?x) =>
    apply (schedule_ok_same x); try reflexivity end.
  destruct (order_status u);
    auto using schedule_ok_handlePaymentSuccess, schedule_ok_handlePaymentFailure.
  now apply (schedule_ok_same (set_currentOrder (Some u) p)).
Qed.

Lemma schedule_ok_fire (w : world) (t : timer) (p : page) :
  schedule_ok p -> schedule_ok (fire w t p).
Proof.
  intros H. unfold fire. destruct (cb t);
    auto using schedule_ok_window_check, schedule_ok_checkPaymentStatus,
      schedule_ok_stopStatusPolling, schedule_ok_resume.
Qed.

(** ** The periodic status check *)

Lemma poll_times_start_task (m : timer) (p : page) :
  poll_times (start_task m p)
  = ((if is_poll (cb m) then [due m] else []) ++ poll_times p)%list.
Proof. unfold poll_times. simpl. destruct (cb m); reflexivity. Qed.

Lemma polling_ok_same (t0 : Z) (p q : page) :
  timers q = timers p -> statusCheckInterval q = statusCheckInterval p ->
  poll_times q = poll_times p ->
  polling_ok t0 p -> polling_ok t0 q.
Proof.
  intros Ht Hs Hl [H1 H2 H3 H4 H5].
  constructor; rewrite ?Ht, ?Hs, ?Hl; assumption.
Qed.

Lemma polling_ok_schedule (t0 : Z) (c : callback) (delay : Z) (p : page) :
  c <> StatusPoll -> c <> AutoStop ->
  polling_ok t0 p -> polling_ok t0 (snd (schedule c delay None p)).
Proof.
  intros Hc Hna [H1 H2 H3 H4 H5]. constructor; simpl.
  - intros t Ht Hp. apply in_app_iff in Ht as [Ht|[<-|[]]]; [auto | simpl in Hp; congruence].
  - intros i Hi. destruct (H2 i Hi) as [t [Ht Hid]]. exists t.
    split; [apply in_app_iff; now left | assumption].
  - destruct H3 as [[t [Ht Ha]]|[Hs Hn]].
    + left. exists t. split; [apply in_app_iff; now left | assumption].
    + right. split; [assumption|].
      intros t Ht. apply in_app_iff in Ht as [Ht|[<-|[]]]; [auto | assumption].
  - assumption.
  - intros t Ht Ct. apply in_app_iff in Ht as [Ht|[<-|[]]]; [auto | simpl in Ct; congruence].
Qed.

Lemma polling_ok_clearInterval (t0 : Z) (i : nat) (p : page) :
  (forall t, In t (timers p) -> id t = i -> cb t <> StatusPoll /\ cb t <> AutoStop) ->
  polling_ok t0 p -> polling_ok t0 (clearInterval i p).
Proof.
  intros Hi [H1 H2 H3 H4 H5]. constructor; simpl.
  - intros t Ht. apply in_cleared in Ht as [Ht _]. auto.
  - intros j Hj. destruct (H2 j Hj) as [t [Ht [Hid Hc]]]. exists t.
    split; [|auto]. apply in_cleared. split; [assumption|].
    intros E. destruct (Hi t Ht E) as [Hn _]. contradiction.
  - destruct H3 as [[t [Ht [Hc Hd]]]|[Hs Hn]].
    + left. exists t. split; [|auto]. apply in_cleared. split; [assumption|].
      intros E. destruct (Hi t Ht E) as [_ Hn]. contradiction.
    + right. split; [assumption|].
      intros t Ht. apply in_cleared in Ht as [Ht _]. auto.
  - assumption.
  - intros t Ht. apply in_cleared in Ht as [Ht _]. auto.
Qed.

Lemma stopStatusPolling_spec (p : page) :
  statusCheckInterval (stopStatusPolling p) = None
  /\ clock (stopStatusPolling p) = clock p
  /\ log (stopStatusPolling p) = log p
  /\ currentOrder (stopStatusPolling p) = currentOrder p
  /\ paymentWindow (stopStatusPolling p) = paymentWindow p
  /\ next_id (stopStatusPolling p) = next_id p
  /\ forall t, In t (timers (stopStatusPolling p)) <->
               In t (timers p) /\ statusCheckInterval p <> Some (id t).
Proof.
  unfold stopStatusPolling. destruct (statusCheckInterval p) as [i|] eqn:E; simpl.
  - do 6 (split; [reflexivity|]). intros t. rewrite in_cleared.
    split; intros [H1 H2]; (split; [assumption | congruence]).
  - rewrite E. do 6 (split; [reflexivity|]). intros t.
    split; [intros H; split; [assumption | discriminate] | tauto].
Qed.

Lemma polling_ok_stopStatusPolling (t0 : Z) (p : page) :
  (forall t, In t (timers p) -> cb t = StatusPoll ->
             statusCheckInterval p = Some (id t)) ->
  (forall t, In t (poll_times p) -> exists k, 1 <= k <= 360 /\ t = t0 + 5000 * k) ->
  (forall t, In t (timers p) -> cb t = AutoStop ->
             due t = ceiling t0 /\ period t = None) ->
  polling_ok t0 (stopStatusPolling p).
Proof.
  intros Hp Hf Ha.
  destruct (stopStatusPolling_spec p) as [Hs [_ [Hl [_ [_ [_ Ht]]]]]].
  assert (Hno : forall t, In t (timers (stopStatusPolling p)) -> cb t <> StatusPoll).
  { intros t Hin Hc. apply Ht in Hin as [Hin Hne]. auto. }
  constructor.
  - intros t Hin Hc. now apply Hno in Hin.
  - intros i Hi. congruence.
  - right. auto.
  - unfold poll_times. rewrite Hl. exact Hf.
  - intros t Hin. apply Ht in Hin as [Hin _]. auto.
Qed.

Lemma in_start_task (m : timer) (p : page) (t : timer) :
  In t (timers (start_task m p)) ->
  (In t (timers p) /\ id t <> id m) \/ (id t = id m /\ cb t = cb m).
Proof.
  simpl. intros Ht. apply in_app_iff in Ht as [Ht|Ht].
  - left. now apply in_cleared in Ht.
  - right. destruct (period m); [|contradiction]. now destruct Ht as [<-|[]].
Qed.

Lemma polling_ok_start_task (t0 : Z) (m : timer) (p : page) :
  schedule_ok p -> polling_ok t0 p ->
  earliest (timers p) = Some m -> cb m <> AutoStop ->
  polling_ok t0 (start_task m p).
Proof.
  intros [S1 S2 S3 S4] [H1 H2 H3 H4 H5] E Hm.
  apply earliest_spec in E as [Hin Hmin].
  constructor.
  - intros t Ht Hc. simpl in Ht. apply in_app_iff in Ht as [Ht|Ht].
    + apply in_cleared in Ht as [Ht _].
      destruct (H1 t Ht Hc) as [A [B [j [J1 [J2 J3]]]]].
      split; [exact A|]. split; [exact B|]. exists j. split; [exact J1|].
      split; [exact J2|]. intros k Hk. rewrite poll_times_start_task.
      apply in_app_iff. right. auto.
    + destruct (period m) as [d|] eqn:P; [|contradiction].
      destruct Ht as [<-|[]]. simpl in Hc.
      destruct (H1 m Hin Hc) as [A [B [j [J1 [J2 J3]]]]].
      rewrite P in B. injection B as ->.
      cbn [due period id cb statusCheckInterval start_task].
      split; [exact A|]. split; [reflexivity|]. exists (j + 1).
      split; [lia|]. split; [lia|]. intros k Hk. rewrite poll_times_start_task, Hc.
      cbn [is_poll app].
      destruct (Z.eq_dec k j) as [->|Hne]; [left; lia | right; apply J3; lia].
  - intros i Hi. simpl in Hi. destruct (H2 i Hi) as [t [Ht [Hid Hc]]].
    destruct (Nat.eq_dec (id t) (id m)) as [Eid|Nid].
    + assert (t = m) by (eapply same_id; eauto). subst t.
      destruct (H1 m Hin Hc) as [_ [B _]].
      exists (mkTimer (id m) (due m + 5000) (Some 5000) (cb m)). simpl.
      rewrite B. split; [apply in_app_iff; right; now left | auto].
    + exists t. split; [|auto]. simpl. apply in_app_iff. left.
      apply in_cleared. auto.
  - destruct H3 as [[t [Ht [Hc Hd]]]|[Hs Hn]].
    + left. exists t. split; [|auto]. simpl. apply in_app_iff. left.
      apply in_cleared. split; [assumption|].
      intros Eid. assert (t = m) by (eapply same_id; eauto). congruence.
    + right. split; [exact Hs|]. intros t Ht. simpl in Ht.
      apply in_app_iff in Ht as [Ht|Ht].
      * apply in_cleared in Ht as [Ht _]. auto.
      * destruct (period m); [|contradiction]. destruct Ht as [<-|[]]. simpl. auto.
  - intros t Ht. rewrite poll_times_start_task in Ht.
    apply in_app_iff in Ht as [Ht|Ht]; [|auto].
    destruct (cb m) eqn:Hc; simpl in Ht; try contradiction.
    destruct Ht as [<-|[]].
    destruct (H1 m Hin Hc) as [_ [_ [j [J1 [J2 _]]]]].
    exists j. split; [|assumption].
    destruct H3 as [[a [Ha [Hca Hda]]]|[_ Hn]].
    + specialize (Hmin a Ha). unfold ceiling, minutes_30 in Hda. lia.
    + now apply Hn in Hin.
  - intros t Ht Ct. apply in_start_task in Ht as [[Ht _]|[_ Kt]]; [auto | congruence].
Qed.

Lemma polling_ok_checkPaymentStatus (t0 : Z) (w : world) (p : page) :
  polling_ok t0 p -> polling_ok t0 (checkPaymentStatus w p).
Proof.
  intros H. unfold checkPaymentStatus. destruct (currentOrder p) as [o|]; [|assumption].
  apply polling_ok_schedule; [discriminate | discriminate |].
  now apply (polling_ok_same t0 p).
Qed.

Lemma polling_ok_close_payment_window (t0 : Z) (w : world) (p : page) :
  polling_ok t0 p -> polling_ok t0 (close_payment_window w p).
Proof.
  intros H. unfold close_payment_window.
  destruct (paymentWindow p) as [c|]; [|assumption].
  destruct (negb (closed w p c)); [|assumption].
  now apply (polling_ok_same t0 p).
Qed.

Lemma polling_ok_stop (t0 : Z) (p : page) :
  polling_ok t0 p -> polling_ok t0 (stopStatusPolling p).
Proof.
  intros [H1 H2 H3 H4 H5]. apply polling_ok_stopStatusPolling; [|assumption|assumption].
  intros t Ht Hc. now destruct (H1 t Ht Hc).
Qed.

Lemma polling_ok_resume (t0 : Z) (w : world) (answer : option order_data) (p : page) :
  polling_ok t0 p -> polling_ok t0 (checkPaymentStatus_resume w answer p).
Proof.
  intros H. unfold checkPaymentStatus_resume.
  destruct answer as [u|]; [|assumption].
  destruct (currentOrder p) as [cur|]; [|assumption].
  destruct (negb _); [|assumption].
  assert (H1 : polling_ok t0 (set_currentOrder (Some u) p))
    by now apply (polling_ok_same t0 p).
  assert (Hs : polling_ok t0 (close_payment_window w
                                (stopStatusPolling (set_currentOrder (Some u) p))))
    by auto using polling_ok_close_payment_window, polling_ok_stop.
  match goal with |- polling_ok _ (triggerPaymentCallbacks _ ?x) =>
    apply (polling_ok_same t0 x); try reflexivity end.
  destruct (order_status u); unfold handlePaymentSuccess, handlePaymentFailure,
    handlePaymentPending.
  - now apply (polling_ok_same t0 (set_currentOrder (Some u) p)).
  - eapply polling_ok_same; [| | | exact Hs]; destruct (confirm w); reflexivity.
  - eapply polling_ok_same; [| | | exact Hs]; reflexivity.
  - eapply polling_ok_same; [| | | exact Hs]; reflexivity.
  - exact H1.
  - eapply polling_ok_same; [| | | exact Hs]; reflexivity.
Qed.

(** The identifier of the running task is free again, or names the task
    itself when it is an interval. *)
Lemma start_task_self (m : timer) (p : page) (t : timer) :
  In t (timers (start_task m p)) -> id t = id m -> cb t = cb m.
Proof.
  simpl. intros Ht Hid. apply in_app_iff in Ht as [Ht|Ht].
  - apply in_cleared in Ht as [_ Ht]. contradiction.
  - destruct (period m); [|contradiction]. now destruct Ht as [<-|[]].
Qed.

Lemma polling_ok_window_check (t0 : Z) (w : world) (self : nat) (p : page) :
  (forall t, In t (timers p) -> id t = self -> cb t = WindowCheck) ->
  polling_ok t0 p -> polling_ok t0 (window_check w self p).
Proof.
  intros Hself H. unfold window_check.
  destruct (paymentWindow p) as [c|]; [|assumption].
  destruct (closed w p c); [|assumption].
  apply polling_ok_schedule; [discriminate | discriminate |].
  apply (polling_ok_same t0 (clearInterval self p)); try reflexivity.
  apply polling_ok_clearInterval; [|assumption].
  intros t Ht Hid. rewrite (Hself t Ht Hid). split; discriminate.
Qed.

(** ** The watch on the payment window *)

Lemma watch_phase_same (p q : page) :
  timers q = timers p ->
  detection_times q = detection_times p ->
  final_check_times q = final_check_times p ->
  watch_phase p -> watch_phase q.
Proof.
  intros Ht Hd Hf [A B C D | td t A B C D E F G H | td A B C D].
  - apply Watching; rewrite ?Ht, ?Hd, ?Hf; assumption.
  - apply (Grace q td t); rewrite ?Ht, ?Hd, ?Hf; assumption.
  - apply (Checked q td); rewrite ?Ht, ?Hd, ?Hf; assumption.
Qed.

Lemma watch_phase_schedule (c : callback) (delay : Z) (p : page) :
  c <> WindowCheck -> c <> FinalCheck ->
  watch_phase p -> watch_phase (snd (schedule c delay None p)).
Proof.
  intros Hw Hf [A B C D | td t A B C D E F G H | td A B C D].
  - apply Watching; simpl; try assumption.
    + intros x y Hx Hy Cx Cy.
      apply in_app_iff in Hx as [Hx|[<-|[]]]; [|simpl in Cx; congruence].
      apply in_app_iff in Hy as [Hy|[<-|[]]]; [|simpl in Cy; congruence].
      auto.
    + intros x Hx. apply in_app_iff in Hx as [Hx|[<-|[]]]; [auto | assumption].
  - apply (Grace _ td t); simpl; try assumption.
    + intros x Hx. apply in_app_iff in Hx as [Hx|[<-|[]]]; [auto | assumption].
    + apply in_app_iff. now left.
    + intros x Hx Cx.
      apply in_app_iff in Hx as [Hx|[<-|[]]]; [auto | simpl in Cx; congruence].
  - apply (Checked _ td); simpl; try assumption.
    + intros x Hx. apply in_app_iff in Hx as [Hx|[<-|[]]]; [auto | assumption].
    + intros x Hx. apply in_app_iff in Hx as [Hx|[<-|[]]]; [auto | assumption].
Qed.

Lemma watch_phase_clearInterval (i : nat) (p : page) :
  (forall t, In t (timers p) -> id t = i -> cb t <> FinalCheck) ->
  watch_phase p -> watch_phase (clearInterval i p).
Proof.
  intros Hi [A B C D | td t A B C D E F G H | td A B C D].
  - apply Watching; simpl; try assumption.
    + intros x y Hx Hy. apply in_cleared in Hx as [Hx _].
      apply in_cleared in Hy as [Hy _]. auto.
    + intros x Hx. apply in_cleared in Hx as [Hx _]. auto.
  - apply (Grace _ td t); simpl; try assumption.
    + intros x Hx. apply in_cleared in Hx as [Hx _]. auto.
    + apply in_cleared. split; [assumption|]. intros Hid.
      now apply (Hi t B Hid).
    + intros x Hx. apply in_cleared in Hx as [Hx _]. auto.
  - apply (Checked _ td); simpl; try assumption.
    + intros x Hx. apply in_cleared in Hx as [Hx _]. auto.
    + intros x Hx. apply in_cleared in Hx as [Hx _]. auto.
Qed.

Lemma watch_phase_stopStatusPolling (t0 : Z) (p : page) :
  schedule_ok p -> polling_ok t0 p ->
  watch_phase p -> watch_phase (stopStatusPolling p).
Proof.
  intros [S1 S2 S3 S4] [H1 H2 H3 H4 H5] W. unfold stopStatusPolling.
  destruct (statusCheckInterval p) as [i|] eqn:E; [|assumption].
  apply (watch_phase_same (clearInterval i p)); try reflexivity.
  apply watch_phase_clearInterval; [|assumption].
  intros t Ht Hid. destruct (H2 i eq_refl) as [t' [Ht' [Hid' Hc]]].
  assert (t = t') by (eapply same_id; eauto; congruence). subst t'.
  rewrite Hc. discriminate.
Qed.

Lemma watch_phase_close_payment_window (w : world) (p : page) :
  watch_phase p -> watch_phase (close_payment_window w p).
Proof.
  intros H. unfold close_payment_window.
  destruct (paymentWindow p) as [c|]; [|assumption].
  destruct (negb (closed w p c)); [|assumption].
  now apply (watch_phase_same p).
Qed.

Lemma watch_phase_checkPaymentStatus (w : world) (p : page) :
  watch_phase p -> watch_phase (checkPaymentStatus w p).
Proof.
  intros H. unfold checkPaymentStatus. destruct (currentOrder p) as [o|]; [|assumption].
  apply watch_phase_schedule; [discriminate | discriminate |].
  now apply (watch_phase_same p).
Qed.

Lemma watch_phase_resume (t0 : Z) (w : world) (answer : option order_data) (p : page) :
  schedule_ok p -> polling_ok t0 p ->
  watch_phase p -> watch_phase (checkPaymentStatus_resume w answer p).
Proof.
  intros S P H. unfold checkPaymentStatus_resume.
  destruct answer as [u|]; [|assumption].
  destruct (currentOrder p) as [cur|]; [|assumption].
  destruct (negb _); [|assumption].
  assert (H1 : watch_phase (set_currentOrder (Some u) p))
    by now apply (watch_phase_same p).
  assert (Hs : watch_phase (close_payment_window w
                              (stopStatusPolling (set_currentOrder (Some u) p)))).
  { apply watch_phase_close_payment_window.
    apply (watch_phase_stopStatusPolling t0); [| |assumption].
    - now apply (schedule_ok_same p).
    - now apply (polling_ok_same t0 p). }
  match goal with |- watch_phase (triggerPaymentCallbacks _ ?x) =>
    apply (watch_phase_same x); try reflexivity end.
  destruct (order_status u); unfold handlePaymentSuccess, handlePaymentFailure,
    handlePaymentPending.
  - now apply (watch_phase_same (set_currentOrder (Some u) p)).
  - eapply watch_phase_same; [| | | exact Hs]; destruct (confirm w); reflexivity.
  - eapply watch_phase_same; [| | | exact Hs]; reflexivity.
  - eapply watch_phase_same; [| | | exact Hs]; reflexivity.
  - exact H1.
  - eapply watch_phase_same; [| | | exact Hs]; reflexivity.
Qed.

Lemma detection_times_start_task (m : timer) (p : page) :
  detection_times (start_task m p) = detection_times p.
Proof. reflexivity. Qed.

Lemma final_check_times_start_task (m : timer) (p : page) :
  final_check_times (start_task m p)
  = ((if is_final_check (cb m) then [due m] else []) ++ final_check_times p)%list.
Proof. unfold final_check_times. simpl. destruct (cb m); reflexivity. Qed.



Lemma kept_by_start_task (m : timer) (p : page) (t : timer) :
  NoDup (map id (timers p)) -> In m (timers p) ->
  In t (timers p) -> t <> m -> In t (timers (start_task m p)).
Proof.
  intros Hnd Hm Ht Hne. simpl. apply in_app_iff. left. apply in_cleared.
  split; [assumption|]. intros Hid. apply Hne. eapply same_id; eauto.
Qed.

Ltac grace_goes_on td t Cm :=
  apply (Grace _ td t); try assumption;
  [ intros x Hx; apply in_start_task in Hx as [[Hx _]|[_ Kx]]; [auto | congruence]
  | apply kept_by_start_task; auto; congruence
  | intros x Hx Cx; apply in_start_task in Hx as [[Hx _]|[_ Kx]];
    [auto | congruence]
  | now rewrite final_check_times_start_task, Cm ].

(** Any task but the watch itself leaves the phase of the watch, except
    that the status check after the closure moves it to its last phase. *)
Lemma watch_phase_start_task (m : timer) (p : page) :
  schedule_ok p -> watch_phase p -> earliest (timers p) = Some m ->
  watch_phase (start_task m p).
Proof.
  intros [S1 S2 S3 S4] W E. apply earliest_spec in E as [Hm _].
  destruct W as [A B C D | td t A B C D E F G H | td A B C D].
  - apply Watching.
    + intros x y Hx Hy Cx Cy.
      apply in_start_task in Hx as [[Hx _]|[Hx Kx]];
        apply in_start_task in Hy as [[Hy _]|[Hy Ky]].
      * auto.
      * rewrite Hy. apply A; auto. congruence.
      * rewrite Hx. apply A; auto. congruence.
      * congruence.
    + intros x Hx. apply in_start_task in Hx as [[Hx _]|[_ Kx]]; [auto|].
      rewrite Kx. auto.
    + assumption.
    + rewrite final_check_times_start_task, D.
      specialize (B m Hm). now destruct (cb m).
  - destruct (cb m) eqn:Cm.
    + now apply A in Hm.
    + grace_goes_on td t Cm.
    + assert (m = t) by auto. subst m.
      apply (Checked _ td).
      * intros x Hx. apply in_start_task in Hx as [[Hx _]|[_ Kx]]; [auto | congruence].
      * intros x Hx Cx. simpl in Hx. rewrite E, app_nil_r in Hx.
        apply in_cleared in Hx as [Hx Nx]. apply Nx. f_equal. auto.
      * assumption.
      * rewrite final_check_times_start_task, Cm, H, D. reflexivity.
    + grace_goes_on td t Cm.
    + grace_goes_on td t Cm.
  - apply (Checked _ td).
    + intros x Hx. apply in_start_task in Hx as [[Hx _]|[_ Kx]]; [auto|].
      rewrite Kx. auto.
    + intros x Hx. apply in_start_task in Hx as [[Hx _]|[_ Kx]]; [auto|].
      rewrite Kx. auto.
    + assumption.
    + rewrite final_check_times_start_task, D.
      specialize (B m Hm). now destruct (cb m).
Qed.

(** The watch itself: when it finds the window closed it is cleared, and one
    status check is queued two seconds later. *)
Lemma watch_phase_window_check (w : world) (m : timer) (p : page) :
  schedule_ok p -> watch_phase p -> earliest (timers p) = Some m ->
  cb m = WindowCheck ->
  watch_phase (window_check w (id m) (start_task m p)).
Proof.
  intros S W E Cm.
  pose proof (watch_phase_start_task m p S W E) as Wq.
  pose proof (schedule_ok_start_task m p S E) as Sq.
  apply earliest_spec in E as [Hm _].
  unfold window_check.
  destruct (paymentWindow (start_task m p)) as [c|]; [|assumption].
  destruct (closed w (start_task m p) c); [|assumption].
  destruct W as [A B C D | td t A B C D E F G H | td A B C D];
    [| now apply A in Hm | now apply A in Hm].
  apply (Grace _ (due m)
               (mkTimer (next_id (start_task m p)) (due m + 2000) None FinalCheck)).
  - intros x Hx. simpl in Hx. apply in_app_iff in Hx as [Hx|[<-|[]]]; [|discriminate].
    apply in_cleared in Hx as [Hx Nx]. intros Cx.
    apply in_start_task in Hx as [[Hx _]|[Ix _]]; [|contradiction].
    apply Nx. auto.
  - simpl. apply in_app_iff. right. now left.
  - reflexivity.
  - reflexivity.
  - reflexivity.
  - intros x Hx Cx. simpl in Hx. apply in_app_iff in Hx as [Hx|[<-|[]]]; [|reflexivity].
    apply in_cleared in Hx as [Hx _].
    apply in_start_task in Hx as [[Hx _]|[_ Kx]]; [now apply B in Hx | congruence].
  - unfold detection_times. simpl. fold (detection_times p). now rewrite C.
  - unfold final_check_times. simpl. rewrite Cm. simpl.
    fold (final_check_times p). now rewrite D.
Qed.

(** ** Why the periodic check stops *)

Lemma stop_cause_mono (p q : page) :
  incl (log p) (log q) -> stop_cause p -> stop_cause q.
Proof.
  intros Hi [t [H|[H|[s H]]]]; exists t; [left | right; left | right; right; exists s];
    now apply Hi.
Qed.

Lemma close_payment_window_spec (w : world) (p : page) :
  log (close_payment_window w p) = log p
  /\ statusCheckInterval (close_payment_window w p) = statusCheckInterval p
  /\ timers (close_payment_window w p) = timers p
  /\ clock (close_payment_window w p) = clock p
  /\ currentOrder (close_payment_window w p) = currentOrder p.
Proof.
  unfold close_payment_window. destruct (paymentWindow p) as [c|]; [|auto].
  destruct (negb (closed w p c)); auto.
Qed.

Lemma log_stopStatusPolling (p : page) : log (stopStatusPolling p) = log p.
Proof. now destruct (stopStatusPolling_spec p) as [_ [_ [H _]]]. Qed.

Lemma log_handlePaymentSuccess (w : world) (p : page) :
  log (handlePaymentSuccess w p) = (clock p, Emitted payment_success) :: log p.
Proof.
  unfold handlePaymentSuccess.
  destruct (close_payment_window_spec w (stopStatusPolling p)) as [Hl [_ [_ [Hc _]]]].
  destruct (stopStatusPolling_spec p) as [_ [Hc' [Hl' _]]].
  destruct (confirm w); simpl; now rewrite Hl, Hc, Hl', Hc'.
Qed.

Lemma log_handlePaymentFailure (w : world) (s : Orders.status_t) (p : page) :
  log (handlePaymentFailure w s p) = (clock p, Emitted (payment_failed s)) :: log p.
Proof.
  unfold handlePaymentFailure.
  destruct (close_payment_window_spec w (stopStatusPolling p)) as [Hl [_ [_ [Hc _]]]].
  destruct (stopStatusPolling_spec p) as [_ [Hc' [Hl' _]]].
  simpl; now rewrite Hl, Hc, Hl', Hc'.
Qed.

Ltac newest_entry :=
  unfold triggerPaymentCallbacks, observe; cbn [log]; right;
  rewrite ?log_handlePaymentSuccess, ?log_handlePaymentFailure; now left.

Ltac cause_kept H Hs :=
  simpl in Hs; destruct (H Hs) as [t [Ht|[Ht|[s Ht]]]]; exists t;
  [left | right; left | right; right; exists s]; simpl; tauto.

Lemma cause_resume (w : world) (answer : option order_data) (p : page) :
  (statusCheckInterval p = None -> stop_cause p) ->
  statusCheckInterval (checkPaymentStatus_resume w answer p) = None ->
  stop_cause (checkPaymentStatus_resume w answer p).
Proof.
  intros H. unfold checkPaymentStatus_resume.
  destruct answer as [u|]; [|assumption].
  destruct (currentOrder p) as [cur|]; [|assumption].
  destruct (negb _); [|assumption].
  destruct (order_status u) eqn:Es; intros Hs.
  - cause_kept H Hs.
  - exists (clock p). right. left. newest_entry.
  - exists (clock p). right. right. exists Orders.failed. newest_entry.
  - exists (clock p). right. right. exists Orders.cancelled. newest_entry.
  - cause_kept H Hs.
  - exists (clock p). right. right. exists Orders.expired. newest_entry.
Qed.

Lemma cause_checkPaymentStatus (w : world) (p : page) :
  (statusCheckInterval p = None -> stop_cause p) ->
  statusCheckInterval (checkPaymentStatus w p) = None ->
  stop_cause (checkPaymentStatus w p).
Proof.
  intros H. unfold checkPaymentStatus. destruct (currentOrder p) as [o|]; [|assumption].
  simpl. intros Hs. apply (stop_cause_mono p); [|auto].
  simpl. intros e He. now right.
Qed.

Lemma cause_window_check (w : world) (self : nat) (p : page) :
  (statusCheckInterval p = None -> stop_cause p) ->
  statusCheckInterval (window_check w self p) = None ->
  stop_cause (window_check w self p).
Proof.
  intros H. unfold window_check. destruct (paymentWindow p) as [c|]; [|assumption].
  destruct (closed w p c); [|assumption].
  simpl. intros Hs. apply (stop_cause_mono p); [|auto].
  simpl. intros e He. now right.
Qed.

Lemma cause_fire (w : world) (m : timer) (p : page) :
  (statusCheckInterval p = None -> stop_cause p) ->
  statusCheckInterval (fire w m (start_task m p)) = None ->
  stop_cause (fire w m (start_task m p)).
Proof.
  intros H.
  assert (Hq : statusCheckInterval (start_task m p) = None ->
               stop_cause (start_task m p)).
  { simpl. intros Hs. apply (stop_cause_mono p); [|auto].
    simpl. intros e He. now right. }
  unfold fire. destruct (cb m) eqn:Cm.
  - now apply cause_window_check.
  - now apply cause_checkPaymentStatus.
  - now apply cause_checkPaymentStatus.
  - intros _. exists (due m). left. rewrite log_stopStatusPolling. simpl.
    rewrite Cm. now left.
  - now apply cause_resume.
Qed.

(** ** The invariant of a session *)

Lemma session_ok_step (t0 : Z) (w : world) (p p' : page) :
  session_ok t0 p -> step w p = Some p' -> session_ok t0 p'.
Proof.
  intros [S P W C]. unfold step. destruct (navigating p); [discriminate|].
  destruct (earliest (timers p)) as [m|] eqn:E; [|discriminate].
  intros H. injection H as <-.
  pose proof (schedule_ok_start_task m p S E) as Sq.
  constructor.
  - now apply schedule_ok_fire.
  - unfold fire. destruct (cb m) eqn:Cm.
    + apply polling_ok_window_check.
      * intros t Ht Hid. rewrite <- Cm. now apply (start_task_self m p).
      * apply polling_ok_start_task; auto. congruence.
    + apply polling_ok_checkPaymentStatus, polling_ok_start_task; auto. congruence.
    + apply polling_ok_checkPaymentStatus, polling_ok_start_task; auto. congruence.
    + apply polling_ok_stopStatusPolling.
      * intros t Ht Ct. destruct P as [P1 _ _ _ _].
        apply in_start_task in Ht as [[Ht _]|[_ Kt]]; [|congruence].
        now destruct (P1 t Ht Ct).
      * rewrite poll_times_start_task, Cm. simpl. now destruct P.
      * intros t Ht Ct. destruct P as [_ _ _ _ P5].
        pose proof (proj1 (earliest_spec _ _ E)) as Hm.
        destruct (P5 m Hm Cm) as [_ Pm].
        simpl in Ht. rewrite Pm, app_nil_r in Ht.
        apply in_cleared in Ht as [Ht _]. auto.
    + apply polling_ok_resume, polling_ok_start_task; auto. congruence.
  - unfold fire. destruct (cb m) eqn:Cm.
    + now apply watch_phase_window_check.
    + now apply watch_phase_checkPaymentStatus, watch_phase_start_task.
    + now apply watch_phase_checkPaymentStatus, watch_phase_start_task.
    + unfold stopStatusPolling.
      destruct (statusCheckInterval (start_task m p)) as [i|] eqn:Ei;
        [|now apply watch_phase_start_task].
      apply (watch_phase_same (clearInterval i (start_task m p))); try reflexivity.
      apply watch_phase_clearInterval; [|now apply watch_phase_start_task].
      intros t Ht Hid. simpl in Ei.
      destruct P as [_ P2 _ _ _]. destruct (P2 i Ei) as [t' [Ht' [Hid' Ct']]].
      apply in_start_task in Ht as [[Ht Nt]|[It Kt]]; [|congruence].
      destruct S as [_ _ S3 _].
      assert (t = t') by (eapply same_id; eauto; congruence). subst t'.
      rewrite Ct'. discriminate.
    + apply (watch_phase_resume t0); auto.
      * apply polling_ok_start_task; auto. congruence.
      * now apply watch_phase_start_task.
  - now apply cause_fire.
Qed.

Lemma session_ok_steps (t0 : Z) (w : world) (n : nat) (p : page) :
  session_ok t0 p -> session_ok t0 (steps n w p).
Proof.
  revert p. induction n as [|n IH]; simpl; intros p H; [assumption|].
  destruct (step w p) as [p'|] eqn:E; [|assumption].
  apply IH. now apply (session_ok_step t0 w p).
Qed.

Lemma session_ok_session (t0 : Z) (o : order_data) : session_ok t0 (session t0 o).
Proof.
  constructor.
  - constructor; simpl.
    + intros t [<-|[<-|[<-|[]]]]; simpl; unfold minutes_30; lia.
    + intros t [<-|[<-|[<-|[]]]]; simpl; lia.
    + repeat constructor; simpl; intuition discriminate.
    + intros t d [<-|[<-|[<-|[]]]]; simpl; intros H; inversion H; lia.
  - constructor; simpl.
    + intros t [<-|[<-|[<-|[]]]]; simpl; try discriminate. intros _.
      split; [reflexivity|]. split; [reflexivity|]. exists 1.
      split; [lia|]. split; [lia|]. intros k Hk. lia.
    + intros i H. injection H as <-. eexists. split; [left; reflexivity|]. auto.
    + left. eexists. split; [right; left; reflexivity|]. auto.
    + intros t [].
    + intros t [<-|[<-|[<-|[]]]]; simpl; try discriminate. auto.
  - apply Watching; simpl.
    + intros t t' [<-|[<-|[<-|[]]]] [<-|[<-|[<-|[]]]]; simpl; congruence.
    + intros t [<-|[<-|[<-|[]]]]; discriminate.
    + reflexivity.
    + reflexivity.
  - discriminate.
Qed.

(** ** Closure of the payment window *)



(** ** The periodic check and its ceiling *)

(** Thirty minutes of a payment that is never made: 360 checks, the last
    one at the ceiling, no event but the two of the start, and the order
    still readable as pending. *)
Example thirty_minutes_of_polling :
  List.length (poll_times (steps 2522 never_pays (session 0 an_order))) = 360%nat
  /\ hd 0 (poll_times (steps 2522 never_pays (session 0 an_order))) = 1800000
  /\ emitted (steps 2522 never_pays (session 0 an_order))
     = [(0, payment_window_opened); (0, order_created)]
  /\ getCurrentPaymentStatus (steps 2522 never_pays (session 0 an_order))
     = Some (Orders.pending, false).
Proof. vm_compute. repeat split. Qed.

(** * More about the database functions *)

Lemma create_order_atomic_unfold (e : env_atomic) (u b : uuid) (amt : Z)
    (pm : string) (d : db) :
  create_order_atomic e u b amt pm d =
  if negb (existsb (fun x => String.eqb (Books.id x) b && sql_true (Books.is_active x))
                   (books d))
  then inr (failure "BOOK_NOT_FOUND", d)
  else if existsb (fun p => sql_eq (UserPurchases.user_id p) u
                            && sql_eq (UserPurchases.book_id p) b)
                  (user_purchases d)
  then inr (failure "BOOK_ALREADY_PURCHASED", d)
  else match insert_orders (new_order_atomic e u b amt pm) d with
       | inl err => inl err
       | inr (_, d') =>
           inr (JObj [("success", JBool true);
                      ("order_id", JStr (gen_random_uuid (session_env e)));
                      ("order_number",
                       JStr (Orders.order_number (new_order_atomic e u b amt pm)))],
                mkdb (users d') (books d') (orders d') (user_purchases d') (payment_logs d')
                     (audit_logs d'
                      ++ [AuditLogs.mk (Some u) "ORDER_CREATED" (Some "order")
                            (Some (gen_random_uuid (session_env e)))
                            (Some (JObj [("book_id", JStr b);
                                         ("amount", JNum amt);
                                         ("payment_method", JStr pm)]))
                            (Some (NOW (session_env e)))])
                     (webhook_events d'))
       end.
Proof.
  unfold create_order_atomic, exists_active_book, exists_purchase_of_user.
  unfold bind, query.
  destruct (negb _); [reflexivity|].
  destruct (existsb _ (user_purchases d)); [reflexivity|].
  destruct (insert_orders (new_order_atomic e u b amt pm) d) as [err|[[] d']];
    reflexivity.
Qed.

Lemma create_order_atomic_consistent (e : env_atomic) (u b : uuid) (amt : Z)
    (pm : string) (d : db) :
  consistent d = true ->
  consistent (after (create_order_atomic e u b amt pm) d) = true.
Proof.
  intros Hc. unfold after. rewrite create_order_atomic_unfold.
  destruct (negb _); [assumption|].
  destruct (existsb _ (user_purchases d)); [assumption|].
  destruct (insert_orders _ d) as [err|[[] d']] eqn:I; [assumption|].
  apply insert_orders_inr in I as [Ha [Hi [Hn [Hm [Hk ->]]]]].
  now apply (consistent_insert_order d (new_order_atomic e u b amt pm)).
Qed.

Lemma serve_consistent (r : request) (d : db) :
  consistent d = true -> consistent (serve r d) = true.
Proof.
  destruct r; simpl; [apply exec_consistent | apply create_order_atomic_consistent].
Qed.

Lemma serve_all_consistent (rs : list request) (d : db) :
  consistent d = true -> consistent (serve_all rs d) = true.
Proof.
  revert d. induction rs as [|r rs IH]; simpl; intros d Hc; [assumption|].
  apply IH. now apply serve_consistent.
Qed.

(** ** What a request does to the tables *)

Lemma order_evolves_refl (o : Orders.row) : order_evolves o o.
Proof. unfold order_evolves. auto 15. Qed.

Lemma order_evolves_trans (a b c : Orders.row) :
  order_evolves a b -> order_evolves b c -> order_evolves a c.
Proof.
  unfold order_evolves.
  intros [A1 [A2 [A3 [A4 [A5 [A6 [A7 [A8 [A9 A10]]]]]]]]]
         [B1 [B2 [B3 [B4 [B5 [B6 [B7 [B8 [B9 B10]]]]]]]]].
  do 8 (split; [congruence|]). split.
  - intros H. assert (b = a) by auto. subst b. auto.
  - destruct A10 as [A10|[A10 A11]].
    + destruct B10 as [B10|[B10 B11]]; [left; congruence|].
      right. split; [congruence | assumption].
    + right. split; [assumption|].
      assert (Hb : Orders.status b <> Orders.pending)
        by (destruct A11 as [E|E]; rewrite E; discriminate).
      rewrite (B9 Hb). assumption.
Qed.

Lemma order_evolves_set_paid (now : timestamptz) (o : Orders.row) :
  Orders.status o = Orders.pending -> order_evolves o (Orders.set_paid now o).
Proof.
  intros H. unfold order_evolves. simpl.
  do 8 (split; [reflexivity|]). split; [congruence | right; auto].
Qed.

Lemma order_evolves_set_expired (now : timestamptz) (o : Orders.row) :
  Orders.status o = Orders.pending -> order_evolves o (Orders.set_expired now o).
Proof.
  intros H. unfold order_evolves. simpl.
  do 8 (split; [reflexivity|]). split; [congruence | right; auto].
Qed.

Lemma Forall2_refl_on {A : Type} (R : A -> A -> Prop) (l : list A) :
  (forall x, R x x) -> Forall2 R l l.
Proof. intros H. induction l; constructor; auto. Qed.

Lemma Forall2_trans_on {A : Type} (R : A -> A -> Prop) (l1 l2 l3 : list A) :
  (forall a b c, R a b -> R b c -> R a c) ->
  Forall2 R l1 l2 -> Forall2 R l2 l3 -> Forall2 R l1 l3.
Proof.
  intros HR H12. revert l3. induction H12 as [|a b l1 l2 Hab H12 IH];
    intros l3 H23; inversion H23; subst; constructor; eauto.
Qed.

Lemma orders_evolve_refl (d : db) : orders_evolve d d.
Proof.
  exists (orders d), []. rewrite app_nil_r. split; [reflexivity|].
  apply Forall2_refl_on, order_evolves_refl.
Qed.

Lemma orders_evolve_same (d d' : db) :
  orders d' = orders d -> orders_evolve d d'.
Proof.
  intros H. destruct (orders_evolve_refl d) as [olds [news Hd]].
  exists olds, news. now rewrite H.
Qed.

Lemma orders_evolve_append (d d' : db) (o : Orders.row) :
  orders d' = (orders d ++ [o])%list -> orders_evolve d d'.
Proof.
  intros H. exists (orders d), [o]. split; [assumption|].
  apply Forall2_refl_on, order_evolves_refl.
Qed.

Lemma serve_orders_evolve (r : request) (d : db) :
  consistent d = true -> orders_evolve d (serve r d).
Proof.
  intros Hc. destruct r as [[e u b a pm k|e t o ty pl|e n t w|e]|e u b a pm]; simpl;
    unfold after.
  - rewrite create_order_with_idempotency_unfold.
    destruct (negb _); [apply orders_evolve_refl|].
    destruct (existsb _ (user_purchases d)); [apply orders_evolve_refl|].
    destruct (insert_orders _ d) as [[c|rel c|rel c]|[[] d']] eqn:I;
      try apply orders_evolve_refl.
    apply insert_orders_inr in I as [_ [_ [_ [_ [_ ->]]]]].
    now apply (orders_evolve_append _ _ (new_order e u b a pm k)).
  - rewrite process_webhook_event_unfold.
    destruct (existsb _ (webhook_events d)); now apply orders_evolve_same.
  - rewrite complete_payment_atomic_unfold.
    destruct (completion_of n d) as [|x|x|x|x] eqn:C; try apply orders_evolve_refl.
    apply completion_settled_inv in C as [Hin [_ [_ [Hst _]]]].
    exists (orders (settled (NOW e) x t w d)), []. rewrite app_nil_r.
    split; [reflexivity|].
    simpl. apply Forall2_map_in. intros y Hy.
    destruct (String.eqb (Orders.id y) (Orders.id x)) eqn:E;
      [|apply order_evolves_refl].
    apply String.eqb_eq in E.
    assert (y = x) as ->.
    { eapply distinct_key_inj; eauto using schema_ids, consistent_schema. }
    now apply order_evolves_set_paid.
  - rewrite cleanup_expired_orders_unfold. cbv zeta.
    eexists _, []. rewrite app_nil_r. split; [reflexivity|].
    simpl. apply Forall2_map_in. intros y Hy. unfold update_row.
    destruct (pending_and_expired (NOW e) y) eqn:P; [|apply order_evolves_refl].
    apply order_evolves_set_expired.
    unfold pending_and_expired in P. apply andb_true_iff in P as [P _].
    now apply status_eqb_eq.
  - rewrite create_order_atomic_unfold.
    destruct (negb _); [apply orders_evolve_refl|].
    destruct (existsb _ (user_purchases d)); [apply orders_evolve_refl|].
    destruct (insert_orders _ d) as [err|[[] d']] eqn:I; [apply orders_evolve_refl|].
    apply insert_orders_inr in I as [_ [_ [_ [_ [_ ->]]]]].
    now apply (orders_evolve_append _ _ (new_order_atomic e u b a pm)).
Qed.

Lemma orders_evolve_trans (d1 d2 d3 : db) :
  orders_evolve d1 d2 -> orders_evolve d2 d3 -> orders_evolve d1 d3.
Proof.
  intros [o1 [n1 [E1 F1]]] [o2 [n2 [E2 F2]]].
  rewrite E1 in F2. apply Forall2_app_inv_l in F2 as [a [c [Fa [Fc ->]]]].
  exists a, (c ++ n2)%list. split; [now rewrite E2, app_assoc|].
  eapply Forall2_trans_on; eauto using order_evolves_trans.
Qed.

Lemma appended_refl (d : db) : appended d d [] [] [] [].
Proof. unfold appended. now rewrite !app_nil_r. Qed.

Lemma appended_trans (d1 d2 d3 : db) pu lo au we pu' lo' au' we' :
  appended d1 d2 pu lo au we -> appended d2 d3 pu' lo' au' we' ->
  appended d1 d3 (pu ++ pu') (lo ++ lo') (au ++ au') (we ++ we').
Proof.
  unfold appended.
  intros [B1 [P1 [L1 [A1 [W1 U1]]]]] [B2 [P2 [L2 [A2 [W2 U2]]]]].
  rewrite B2, P2, L2, A2, W2, U2, B1, P1, L1, A1, W1, U1, <- !app_assoc. auto 6.
Qed.

Lemma serve_effect (r : request) (d : db) : effect d (serve r d).
Proof.
  destruct r as [[e u b a pm k|e t o ty pl|e n t w|e]|e u b a pm]; simpl;
    unfold after.
  - rewrite create_order_with_idempotency_unfold.
    destruct (negb _); [now apply no_change|].
    destruct (existsb _ (user_purchases d)); [now apply no_change|].
    destruct (insert_orders _ d) as [[c|rel c|rel c]|[[] d']] eqn:I;
      try now apply no_change.
    apply insert_orders_inr in I as [_ [_ [_ [_ [_ ->]]]]].
    apply (adds_order _ _ (new_order e u b a pm k) []); simpl; auto.
    unfold appended; simpl; repeat split; now rewrite ?app_nil_r.
  - rewrite process_webhook_event_unfold.
    destruct (existsb _ (webhook_events d)); [now apply no_change|].
    eapply adds_event; simpl; [reflexivity|].
    unfold appended; simpl; repeat split; now rewrite ?app_nil_r.
  - rewrite complete_payment_atomic_unfold.
    destruct (completion_of n d) as [|x|x|x|x] eqn:C; try now apply no_change.
    apply completion_settled_inv in C as [Hin [_ [_ [Hst _]]]].
    now apply (settles _ _ (NOW e) x t w).
  - rewrite cleanup_expired_orders_unfold. cbv zeta.
    eapply (sweeps _ _ (NOW e)); simpl; [reflexivity|].
    unfold appended; simpl; repeat split; now rewrite ?app_nil_r.
  - rewrite create_order_atomic_unfold.
    destruct (negb _); [now apply no_change|].
    destruct (existsb _ (user_purchases d)); [now apply no_change|].
    destruct (insert_orders _ d) as [err|[[] d']] eqn:I; [now apply no_change|].
    apply insert_orders_inr in I as [_ [_ [_ [_ [_ ->]]]]].
    eapply (adds_order _ _ (new_order_atomic e u b a pm)); simpl; auto.
    unfold appended; simpl; repeat split; now rewrite ?app_nil_r.
Qed.

Lemma effect_appended (d d' : db) :
  effect d d' ->
  exists pu lo au we,
    appended d d' pu lo au we /\ List.length pu = List.length lo.
Proof.
  intros [->|o au _ _ H|w _ H|now o txn payload _ _ ->|now au _ H].
  - exists [], [], [], []. split; [apply appended_refl | reflexivity].
  - exists [], [], au, []. auto.
  - exists [], [], [], [w]. auto.
  - exists [purchase_of_order now o], [log_of_payment now o txn payload],
           [audit_of_payment now o txn], [].
    split; [|reflexivity]. unfold appended; simpl. now rewrite app_nil_r.
  - exists [], [], au, []. auto.
Qed.

Lemma serve_all_snoc (rs : list request) (r : request) (d : db) :
  serve_all (rs ++ [r]) d = serve r (serve_all rs d).
Proof. unfold serve_all. now rewrite fold_left_app. Qed.

(** Induction over the requests served so far. *)
Lemma serve_all_invariant (P : db -> Prop) (d : db) :
  consistent d = true ->
  P d ->
  (forall r x, consistent x = true -> P x -> P (serve r x)) ->
  forall rs, P (serve_all rs d).
Proof.
  intros Hc H0 Hstep rs. induction rs as [|r rs IH] using rev_ind; [assumption|].
  rewrite serve_all_snoc. apply Hstep; [now apply serve_all_consistent | assumption].
Qed.

Lemma Forall2_in_left {A B : Type} (R : A -> B -> Prop) (l : list A) (l' : list B)
    (x : A) :
  Forall2 R l l' -> In x l -> exists y, In y l' /\ R x y.
Proof.
  induction 1 as [|a b l l' Hab _ IH]; intros Hx; [destruct Hx|].
  destruct Hx as [<-|Hx].
  - exists b. split; [now left | assumption].
  - destruct (IH Hx) as [y [Hy Hxy]]. exists y. split; [now right | assumption].
Qed.

Lemma orders_evolve_in (d d' : db) (o : Orders.row) :
  orders_evolve d d' -> In o (orders d) ->
  exists o', In o' (orders d') /\ order_evolves o o'.
Proof.
  intros [olds [news [E F]]] Ho.
  destruct (Forall2_in_left _ _ _ _ F Ho) as [o' [Ho' Hev]].
  exists o'. split; [|assumption]. rewrite E. apply in_or_app. now left.
Qed.

Lemma orders_evolve_keeps (d d' : db) (o : Orders.row) :
  orders_evolve d d' -> In o (orders d) -> Orders.status o <> Orders.pending ->
  In o (orders d').
Proof.
  intros He Ho Hs. destruct (orders_evolve_in _ _ _ He Ho) as [o' [Ho' Hev]].
  destruct Hev as [_ [_ [_ [_ [_ [_ [_ [_ [Hsame _]]]]]]]]].
  now rewrite <- (Hsame Hs).
Qed.

Lemma serve_all_orders_evolve (rs : list request) (d : db) :
  consistent d = true -> orders_evolve d (serve_all rs d).
Proof.
  intros Hc. apply serve_all_invariant; [assumption | apply orders_evolve_refl|].
  intros r x Hx H. eapply orders_evolve_trans; [exact H|].
  now apply serve_orders_evolve.
Qed.

Lemma effect_orders_length (d d' : db) :
  effect d d' -> (List.length (orders d) <= List.length (orders d'))%nat.
Proof.
  intros [->|o au _ E _|w E _|now o txn payload _ _ ->|now au E _];
    rewrite ?E; simpl; rewrite ?length_app, ?length_map; simpl; lia.
Qed.

Lemma serve_all_appended (rs : list request) (d : db) :
  exists pu lo au we,
    appended d (serve_all rs d) pu lo au we
    /\ List.length pu = List.length lo
    /\ (List.length (orders d) <= List.length (orders (serve_all rs d)))%nat.
Proof.
  induction rs as [|r rs IH] using rev_ind.
  - exists [], [], [], []. split; [apply appended_refl|]. split; [reflexivity|].
    simpl. lia.
  - rewrite serve_all_snoc.
    destruct IH as [pu [lo [au [we [H [L O]]]]]].
    destruct (effect_appended _ _ (serve_effect r (serve_all rs d)))
      as [pu' [lo' [au' [we' [H' L']]]]].
    exists (pu ++ pu')%list, (lo ++ lo')%list, (au ++ au')%list, (we ++ we')%list.
    split; [eapply appended_trans; eauto|].
    split; [rewrite !length_app; lia|].
    pose proof (effect_orders_length _ _ (serve_effect r (serve_all rs d))). lia.
Qed.

Lemma distinctb_NoDup (l : list string) :
  distinctb String.eqb l = true -> NoDup l.
Proof.
  induction l as [|k l IH]; simpl; intros H; constructor.
  - apply andb_true_iff in H as [H _]. apply negb_true_iff in H.
    intros Hin. rewrite existsb_false_iff in H. specialize (H k Hin).
    now rewrite String.eqb_refl in H.
  - apply andb_true_iff in H as [_ H]. auto.
Qed.

Lemma consistent_purchases_settled (d : db) :
  consistent d = true -> purchases_settled d = true.
Proof. unfold consistent. intros H. now apply andb_true_iff in H as [_ H]. Qed.

Lemma consistent_purchase_order (d : db) (p : UserPurchases.row) (i : uuid) :
  consistent d = true ->
  In p (user_purchases d) ->
  UserPurchases.order_id p = Some i ->
  exists o, In o (orders d) /\ Orders.id o = i /\ Orders.status o <> Orders.pending.
Proof.
  intros Hc Hp Hi.
  pose proof (consistent_schema _ Hc) as Hs.
  pose proof (consistent_purchases_settled _ Hc) as Hps.
  unfold schema_ok in Hs. repeat (apply andb_true_iff in Hs as [Hs ?]).
  match goal with H : forallb (references_order d) _ = true |- _ =>
    rewrite forallb_forall in H; specialize (H p Hp) end.
  unfold references_order in *. rewrite Hi in *.
  match goal with H : existsb _ (orders d) = true |- _ =>
    apply existsb_exists in H as [o [Ho Heq]] end.
  apply String.eqb_eq in Heq. exists o. split; [assumption|]. split; [assumption|].
  unfold purchases_settled in Hps. rewrite forallb_forall in Hps.
  specialize (Hps p Hp). rewrite forallb_forall in Hps. specialize (Hps o Ho).
  rewrite Hi in Hps. simpl in Hps. rewrite <- Heq, String.eqb_refl in Hps.
  simpl in Hps. apply negb_true_iff in Hps. intros E.
  rewrite E in Hps. discriminate.
Qed.

Lemma backed_evolves (d d' : db) (p : UserPurchases.row) :
  orders_evolve d d' -> backed_by_paid_order d p -> backed_by_paid_order d' p.
Proof.
  intros He [o [Ho [Hi [Hs [Hu Hb]]]]]. exists o.
  split; [|auto]. apply (orders_evolve_keeps d); auto. rewrite Hs. discriminate.
Qed.

Lemma settled_backs (now : timestamptz) (o : Orders.row) (txn : string)
    (payload : json) (d : db) :
  In o (orders d) ->
  backed_by_paid_order (settled now o txn payload d) (purchase_of_order now o).
Proof.
  intros Ho. exists (Orders.set_paid now o). simpl. split; [|auto].
  apply in_map_iff. exists o. now rewrite String.eqb_refl.
Qed.

Lemma schema_amounts (d : db) (o : Orders.row) :
  schema_ok d = true -> In o (orders d) -> 0 < Orders.amount o.
Proof.
  intros Hs Ho. unfold schema_ok in Hs. repeat (apply andb_true_iff in Hs as [Hs ?]).
  match goal with H : forallb (fun o => 0 <? Orders.amount o) _ = true |- _ =>
    rewrite forallb_forall in H; specialize (H o Ho) end.
  lia.
Qed.

Lemma purchases_of_exists (u b : uuid) (d : db) :
  purchases_of u b d <> [] <->
  existsb (fun p => sql_eq (UserPurchases.user_id p) u
                    && sql_eq (UserPurchases.book_id p) b) (user_purchases d) = true.
Proof.
  unfold purchases_of. induction (user_purchases d) as [|p l IH]; simpl.
  - split; [congruence | discriminate].
  - destruct (sql_eq (UserPurchases.user_id p) u && sql_eq (UserPurchases.book_id p) b);
      simpl; [split; [reflexivity | discriminate] | exact IH].
Qed.

Lemma processed_forever (rs : list request) (d : db) (o : Orders.row) :
  consistent d = true ->
  In o (orders d) ->
  Orders.status o <> Orders.pending ->
  referenced o d ->
  In o (orders (serve_all rs d)) /\ referenced o (serve_all rs d).
Proof.
  intros Hc Ho Hs [p [Hp Hi]]. split.
  - apply (orders_evolve_keeps d); auto using serve_all_orders_evolve.
  - destruct (serve_all_appended rs d) as [pu [lo [au [we [[_ [E _]] _]]]]].
    exists p. split; [|assumption]. rewrite E. apply in_or_app. now left.
Qed.

(** X1.  Whatever requests are served (the four functions of the order flow and
    the older create_order_atomic), in whatever order and on whatever
    database, no row of user_purchases, payment_logs, audit_logs or
    webhook_events is ever removed or rewritten: each table is the old one
    followed by the new rows.  The tables books and users are not written,
    no order row is deleted, and exactly as many payment log rows are added
    as purchase rows. *)
Theorem tables_only_grow (rs : list request) (d : db) :
  exists pu lo au we,
    books (serve_all rs d) = books d
    /\ users (serve_all rs d) = users d
    /\ user_purchases (serve_all rs d) = (user_purchases d ++ pu)%list
    /\ payment_logs (serve_all rs d) = (payment_logs d ++ lo)%list
    /\ audit_logs (serve_all rs d) = (audit_logs d ++ au)%list
    /\ webhook_events (serve_all rs d) = (webhook_events d ++ we)%list
    /\ List.length pu = List.length lo
    /\ (List.length (orders d) <= List.length (orders (serve_all rs d)))%nat.
Proof.
  destruct (serve_all_appended rs d)
    as [pu [lo [au [we [[B [P [L [A [W U]]]]] [E O]]]]]].
  exists pu, lo, au, we. auto 10.
Qed.

(** X2.  On a database that satisfies its constraints, after any sequence of
    requests the orders table is the old rows in their old places, each
    evolved, followed by the orders created since.  An evolved row keeps its
    id, number, user, book, amount, idempotency key, expiry and creation
    time; its status is the old one, or went from pending to paid or to
    expired; and a row that was not pending is left exactly as it was. *)
Theorem orders_only_move_forward (rs : list request) (d : db) :
  consistent d = true ->
  exists olds news,
    orders (serve_all rs d) = (olds ++ news)%list
    /\ Forall2 order_evolves (orders d) olds.
Proof. intros Hc. now apply serve_all_orders_evolve. Qed.

Lemma orders_only_move_forward_witness :
  consistent two_orders = true
  /\ exists olds news,
       orders (serve_all [Call (CompletePayment at_3000 "ORD-20250101-000042" "tx-1"
                                                gateway_payload);
                          CreateOrderAtomic (mkenv_atomic next_day 1735862400 "c0ffee00-1")
                                            "u-2" "b-1" 5000000 "qris";
                          Call (CleanupExpired next_day)] two_orders)
       = (olds ++ news)%list
       /\ Forall2 order_evolves (orders two_orders) olds.
Proof.
  split; [vm_compute; reflexivity|].
  apply orders_only_move_forward. vm_compute; reflexivity.
Defined.

(** X3.  The integrity of the database is an invariant of every sequence of
    requests, create_order_atomic included: order ids and order numbers stay
    pairwise distinct, amounts stay positive, every purchase row that names
    an order names an order of the table that is no longer pending, and a
    user holds at most one purchase row per book. *)
Theorem requests_keep_integrity (rs : list request) (d : db) :
  consistent d = true ->
  consistent (serve_all rs d) = true
  /\ NoDup (map Orders.id (orders (serve_all rs d)))
  /\ NoDup (map Orders.order_number (orders (serve_all rs d)))
  /\ (forall o, In o (orders (serve_all rs d)) -> 0 < Orders.amount o)
  /\ (forall p i, In p (user_purchases (serve_all rs d)) ->
                  UserPurchases.order_id p = Some i ->
                  exists o, In o (orders (serve_all rs d)) /\ Orders.id o = i
                            /\ Orders.status o <> Orders.pending)
  /\ (forall u b, (List.length (purchases_of u b (serve_all rs d)) <= 1)%nat).
Proof.
  intros Hc. pose proof (serve_all_consistent rs d Hc) as H.
  pose proof (consistent_schema _ H) as Hs.
  split; [assumption|].
  split; [now apply distinctb_NoDup, schema_ids|].
  split; [now apply distinctb_NoDup, schema_numbers|].
  split; [intros o; now apply schema_amounts|].
  split; [intros p i; now apply consistent_purchase_order|].
  intros u b. now apply consistent_at_most_one.
Qed.

Lemma requests_keep_integrity_witness :
  consistent shop = true
  /\ consistent (serve_all [CreateOrderAtomic (mkenv_atomic at_1000 1735689600 "c0ffee00-1")
                                              "u-1" "b-1" 5000000 "qris";
                            Call (CompletePayment at_3000 "ORD-1735689600-c0ffee00"
                                                  "tx-1" gateway_payload)] shop) = true.
Proof.
  split; [vm_compute; reflexivity|].
  apply (requests_keep_integrity
           [CreateOrderAtomic (mkenv_atomic at_1000 1735689600 "c0ffee00-1")
                              "u-1" "b-1" 5000000 "qris";
            Call (CompletePayment at_3000 "ORD-1735689600-c0ffee00"
                                  "tx-1" gateway_payload)] shop).
  vm_compute; reflexivity.
Defined.

(** X4.  Nobody gets a book without a paid order: on a database that
    satisfies its constraints, every purchase row that a sequence of
    requests adds names an order that is in the table with status paid, of
    the same user and for the same book. *)
Theorem purchases_stand_on_paid_orders (rs : list request) (d : db) :
  consistent d = true ->
  exists pu,
    user_purchases (serve_all rs d) = (user_purchases d ++ pu)%list
    /\ forall p, In p pu -> backed_by_paid_order (serve_all rs d) p.
Proof.
  intros Hc.
  apply (serve_all_invariant
           (fun x => exists pu, user_purchases x = (user_purchases d ++ pu)%list
                                /\ forall p, In p pu -> backed_by_paid_order x p));
    [assumption | exists []; split; [now rewrite app_nil_r | intros p []] |].
  intros r x Hx [pu [E B]].
  pose proof (serve_orders_evolve r x Hx) as Hev.
  assert (Hold : forall p, In p pu -> backed_by_paid_order (serve r x) p)
    by (intros p Hp; eapply backed_evolves; eauto).
  destruct (serve_effect r x)
    as [->|o au _ _ [_ [P _]]|w _ [_ [P _]]|now o txn payload Ho _ E'|now au _ [_ [P _]]].
  - exists pu. auto.
  - exists pu. rewrite P, app_nil_r. auto.
  - exists pu. rewrite P, app_nil_r. auto.
  - exists (pu ++ [purchase_of_order now o])%list. rewrite E' in *. simpl.
    split; [now rewrite E, app_assoc|].
    intros p Hp. apply in_app_iff in Hp as [Hp|[<-|[]]]; [auto|].
    now apply settled_backs.
  - exists pu. rewrite P, app_nil_r. auto.
Qed.

Lemma purchases_stand_on_paid_orders_witness :
  consistent two_orders = true
  /\ exists pu,
       user_purchases (serve_all [Call (CompletePayment at_3000 "ORD-20250101-000042"
                                                        "tx-1" gateway_payload);
                                  Call (CleanupExpired next_day)] two_orders)
       = (user_purchases two_orders ++ pu)%list
       /\ forall p, In p pu ->
            backed_by_paid_order
              (serve_all [Call (CompletePayment at_3000 "ORD-20250101-000042"
                                                "tx-1" gateway_payload);
                          Call (CleanupExpired next_day)] two_orders) p.
Proof.
  split; [vm_compute; reflexivity|].
  apply purchases_stand_on_paid_orders. vm_compute; reflexivity.
Defined.

(** X5.  A settlement happens once.  When complete_payment_atomic has settled
    an order on a database that satisfies its constraints, then after any
    further requests a call for the same order number, at any time and with
    any transaction id and payload, answers the ALREADY_PROCESSED no-op and
    changes nothing; the order is still there, paid as it was. *)
Theorem settled_order_stays_processed (e : env) (num txn : string) (payload : json)
    (d d' : db) (i : uuid) :
  consistent d = true ->
  complete_payment_atomic e num txn payload d
  = inr (JObj [("success", JBool true); ("order_id", JStr i)], d') ->
  forall (rs : list request) (e' : env) (txn' : string) (payload' : json),
    complete_payment_atomic e' num txn' payload' (serve_all rs d')
    = inr (JObj [("success", JBool true); ("error", JStr "ALREADY_PROCESSED");
                 ("message", JStr "Payment sudah diproses sebelumnya")],
           serve_all rs d')
    /\ exists o, In o (orders (serve_all rs d'))
                 /\ Orders.id o = i /\ Orders.order_number o = num
                 /\ Orders.status o = Orders.paid
                 /\ Orders.paid_at o = Some (NOW e).
Proof.
  intros Hc H rs e' txn' payload'.
  pose proof (complete_payment_atomic_consistent e num txn payload d Hc) as Hc'.
  unfold after in Hc'. rewrite H in Hc'.
  rewrite complete_payment_atomic_unfold in H.
  destruct (completion_of num d) as [|x|x|x|x] eqn:C; unfold failure in H;
    try discriminate.
  injection H as Hi Hd. subst i d'.
  apply completion_settled_inv in C as [Hin [Hnum [_ [Hst _]]]].
  assert (Hpaid : In (Orders.set_paid (NOW e) x)
                     (orders (settled (NOW e) x txn payload d))).
  { simpl. apply in_map_iff. exists x. now rewrite String.eqb_refl. }
  assert (Href : referenced (Orders.set_paid (NOW e) x)
                            (settled (NOW e) x txn payload d)).
  { exists (purchase_of_order (NOW e) x). simpl. split; [|reflexivity].
    apply in_or_app. right. now left. }
  destruct (processed_forever rs _ _ Hc' Hpaid) as [Ho Hr];
    [simpl; discriminate | assumption |].
  split.
  - rewrite complete_payment_atomic_unfold.
    rewrite <- Hnum.
    change (Orders.order_number x)
      with (Orders.order_number (Orders.set_paid (NOW e) x)).
    rewrite completion_of_order;
      [|apply consistent_schema; now apply serve_all_consistent | assumption].
    apply referenced_iff in Hr. now rewrite Hr.
  - exists (Orders.set_paid (NOW e) x). simpl. auto.
Qed.

Lemma settled_order_stays_processed_witness :
  consistent two_orders = true
  /\ complete_payment_atomic next_day "ORD-20250101-000042" "tx-9" gateway_payload
       (serve_all [Call (CleanupExpired next_day)] first_settled)
     = inr (JObj [("success", JBool true); ("error", JStr "ALREADY_PROCESSED");
                  ("message", JStr "Payment sudah diproses sebelumnya")],
            serve_all [Call (CleanupExpired next_day)] first_settled).
Proof.
  split; [vm_compute; reflexivity|].
  apply (settled_order_stays_processed at_3000 "ORD-20250101-000042" "tx-1"
           gateway_payload two_orders first_settled "o-1");
    vm_compute; reflexivity.
Defined.

(** X6.  A book that a user holds cannot be ordered again by that user: once
    user_purchases has a row for the user and the book, then after any
    further requests both order-creation functions refuse, with
    BOOK_ALREADY_PURCHASED (or BOOK_NOT_FOUND when the book is not active),
    whatever the amount, payment method and key, and leave the database as
    it is. *)
Theorem bought_book_is_not_ordered_again (u b : uuid) (d : db) (rs : list request) :
  purchases_of u b d <> [] ->
  (forall e amt pm key,
      create_order_with_idempotency e u b amt pm key (serve_all rs d)
      = inr (failure "BOOK_ALREADY_PURCHASED", serve_all rs d)
      \/ create_order_with_idempotency e u b amt pm key (serve_all rs d)
         = inr (failure "BOOK_NOT_FOUND", serve_all rs d))
  /\ (forall e amt pm,
        create_order_atomic e u b amt pm (serve_all rs d)
        = inr (failure "BOOK_ALREADY_PURCHASED", serve_all rs d)
        \/ create_order_atomic e u b amt pm (serve_all rs d)
           = inr (failure "BOOK_NOT_FOUND", serve_all rs d)).
Proof.
  intros H.
  assert (H' : existsb (fun p => sql_eq (UserPurchases.user_id p) u
                                 && sql_eq (UserPurchases.book_id p) b)
                       (user_purchases (serve_all rs d)) = true).
  { apply purchases_of_exists in H. apply existsb_exists in H as [p [Hp Hf]].
    destruct (serve_all_appended rs d) as [pu [lo [au [we [[_ [E _]] _]]]]].
    apply existsb_exists. exists p. split; [|assumption].
    rewrite E. apply in_or_app. now left. }
  split.
  - intros e amt pm key. rewrite create_order_with_idempotency_unfold, H'.
    destruct (negb _); auto.
  - intros e amt pm. rewrite create_order_atomic_unfold, H'.
    destruct (negb _); auto.
Qed.

Lemma bought_book_is_not_ordered_again_witness :
  purchases_of "u-1" "b-1" first_settled <> []
  /\ (create_order_atomic (mkenv_atomic next_day 1735862400 "c0ffee00-1")
                          "u-1" "b-1" 5000000 "qris"
                          (serve_all [Call (CleanupExpired next_day)] first_settled)
      = inr (failure "BOOK_ALREADY_PURCHASED",
             serve_all [Call (CleanupExpired next_day)] first_settled)
      \/ create_order_atomic (mkenv_atomic next_day 1735862400 "c0ffee00-1")
                             "u-1" "b-1" 5000000 "qris"
                             (serve_all [Call (CleanupExpired next_day)] first_settled)
         = inr (failure "BOOK_NOT_FOUND",
                serve_all [Call (CleanupExpired next_day)] first_settled)).
Proof.
  split; [vm_compute; discriminate|].
  refine (proj2 (bought_book_is_not_ordered_again "u-1" "b-1" first_settled
                   [Call (CleanupExpired next_day)] _) _ _ _).
  vm_compute; discriminate.
Defined.

(** ** Sweeping twice *)

Lemma filter_map_length {A : Type} (p : A -> bool) (f : A -> A) (l : list A) :
  List.length (filter p (map f l)) = List.length (filter (fun x => p (f x)) l).
Proof.
  induction l as [|a l IH]; simpl; [reflexivity|].
  destruct (p (f a)); simpl; now rewrite IH.
Qed.

Lemma swept_row_later (now1 now2 : timestamptz) (o : Orders.row) :
  pending_and_expired now2
    (if pending_and_expired now1 o then Orders.set_expired now1 o else o)
  = pending_and_expired now2 o && negb (pending_and_expired now1 o).
Proof.
  destruct (pending_and_expired now1 o) eqn:P; simpl.
  - unfold pending_and_expired. simpl. now rewrite andb_false_r.
  - now rewrite andb_true_r.
Qed.

Lemma stale_earlier (now1 now2 : timestamptz) (o : Orders.row) :
  now2 <= now1 ->
  pending_and_expired now2 o && negb (pending_and_expired now1 o) = false.
Proof.
  intros H. unfold pending_and_expired.
  destruct (Orders.status_eqb (Orders.status o) Orders.pending); [|reflexivity].
  destruct (Orders.expires_at o) as [t|]; [|reflexivity]. simpl.
  destruct (t <? now2) eqn:E2; [|reflexivity].
  apply Z.ltb_lt in E2. assert (E1 : (t <? now1) = true) by (apply Z.ltb_lt; lia).
  now rewrite E1.
Qed.

(** X7.  Two sweeps in a row.  The second sweep expires exactly the orders of
    the first database that are pending and past their expiry at its own
    clock but were not at the clock of the first, and counts them.  So a
    sweep repeated at the same or an earlier clock returns 0 and leaves
    every order row as the first sweep left it; and after a sweep no order
    is pending and past its expiry at that clock. *)
Theorem cleanup_expired_orders_twice (e1 e2 : env) (d : db) :
  exists n1 d1 n2 d2,
    cleanup_expired_orders e1 d = inr (n1, d1)
    /\ cleanup_expired_orders e2 d1 = inr (n2, d2)
    /\ n2 = Z.of_nat (List.length
                        (filter (fun o => pending_and_expired (NOW e2) o
                                          && negb (pending_and_expired (NOW e1) o))
                                (orders d)))
    /\ (forall o, In o (orders d1) -> ~ stale (NOW e1) o)
    /\ (NOW e2 <= NOW e1 -> n2 = 0 /\ orders d2 = orders d1).
Proof.
  rewrite cleanup_expired_orders_unfold. cbv zeta.
  eexists _, _. rewrite cleanup_expired_orders_unfold. cbv zeta.
  eexists _, _. split; [reflexivity|]. split; [reflexivity|]. simpl.
  rewrite filter_map_length.
  rewrite (filter_ext _ _ (swept_row_later (NOW e1) (NOW e2))).
  split; [reflexivity|]. split.
  - intros o Ho Hst. apply in_map_iff in Ho as [x [<- _]].
    apply pending_and_expired_iff in Hst.
    rewrite swept_row_later in Hst.
    destruct (pending_and_expired (NOW e1) x); simpl in Hst; discriminate.
  - intros H. split.
    + rewrite (filter_ext _ (fun _ => false)
                 (fun o => stale_earlier (NOW e1) (NOW e2) o H)).
      now induction (orders d).
    + rewrite map_map. apply map_ext. intros o.
      pose proof (swept_row_later (NOW e1) (NOW e2) o) as E.
      rewrite stale_earlier in E by assumption. now rewrite E.
Qed.

(** ** The webhook ledger *)






(** ** Order creation, case by case *)


Lemma user_is_there_iff (u : uuid) (d : db) :
  user_is_there d (Some u) = true
  <-> exists x, In x (users d) /\ Users.id x = u.
Proof.
  cbn [user_is_there]. rewrite existsb_exists.
  split; intros [x [Hx H]]; exists x; split; auto.
  - now apply String.eqb_eq.
  - now apply String.eqb_eq.
Qed.












(** ** The order number *)

Lemma length_append (s1 s2 : string) :
  String.length (s1 ++ s2) = (String.length s1 + String.length s2)%nat.
Proof. induction s1 as [|c s1 IH]; simpl; [reflexivity | now rewrite IH]. Qed.

Lemma append_cancel_l (s x y : string) : (s ++ x = s ++ y)%string -> x = y.
Proof.
  induction s as [|c s IH]; simpl; [auto|].
  intros H. injection H as H. auto.
Qed.

Lemma substring_whole (s : string) : substring 0 (String.length s) s = s.
Proof. induction s as [|c s IH]; simpl; [reflexivity | now rewrite IH]. Qed.

Lemma length_substring_0 (n : nat) (s : string) :
  (n <= String.length s)%nat -> String.length (substring 0 n s) = n.
Proof.
  revert s. induction n as [|n IH]; intros [|c s] H; simpl in *;
    try reflexivity; try lia.
  rewrite IH; [reflexivity | lia].
Qed.

Lemma length_replicate (n : nat) (c : string) :
  String.length (replicate n c) = (n * String.length c)%nat.
Proof.
  induction n as [|n IH]; simpl; [reflexivity|]. now rewrite length_append, IH.
Qed.

Lemma length_LPAD (s : string) (n : nat) : String.length (LPAD s n "0") = n.
Proof.
  unfold LPAD. destruct (Nat.leb n (String.length s)) eqn:E.
  - apply Nat.leb_le in E. now apply length_substring_0.
  - apply Nat.leb_gt in E. rewrite length_append, length_replicate. simpl. lia.
Qed.

Lemma LPAD_short (s : string) (n : nat) :
  (String.length s <= n)%nat ->
  LPAD s n "0" = (replicate (n - String.length s) "0" ++ s)%string.
Proof.
  intros H. unfold LPAD. destruct (Nat.leb n (String.length s)) eqn:E; [|reflexivity].
  apply Nat.leb_le in E. assert (n = String.length s) as -> by lia.
  now rewrite substring_whole, Nat.sub_diag.
Qed.

Lemma length_string_of_uint (d : Decimal.uint) :
  String.length (NilEmpty.string_of_uint d) = Decimal.nb_digits d.
Proof. induction d; simpl; auto. Qed.

Lemma to_lu_add (r m : nat) :
  DecimalNat.Unsigned.to_lu (r + m)
  = Nat.iter r Decimal.Little.succ (DecimalNat.Unsigned.to_lu m).
Proof.
  induction r as [|r IH]; [reflexivity|].
  change (S r + m)%nat with (S (r + m)).
  now rewrite DecimalNat.Unsigned.to_lu_succ, IH.
Qed.

Lemma digits_of_digit (r : nat) :
  (r < 10)%nat -> Decimal.nb_digits (DecimalNat.Unsigned.to_lu r) = 1%nat.
Proof. intros H. do 10 (destruct r as [|r]; [reflexivity|]). lia. Qed.

Lemma digits_of_tens (q r : nat) :
  q <> 0%nat -> (r < 10)%nat ->
  Decimal.nb_digits (DecimalNat.Unsigned.to_lu (r + 10 * q))
  = S (Decimal.nb_digits (DecimalNat.Unsigned.to_lu q)).
Proof.
  intros Hq Hr. rewrite to_lu_add, DecimalNat.Unsigned.to_lu_tenfold by assumption.
  do 10 (destruct r as [|r]; [reflexivity|]). lia.
Qed.

Lemma digits_bound (k n : nat) :
  (n < 10 ^ S k)%nat -> (Decimal.nb_digits (DecimalNat.Unsigned.to_lu n) <= S k)%nat.
Proof.
  revert n. induction k as [|k IH]; intros n H.
  - rewrite digits_of_digit; [lia | exact H].
  - pose proof (Nat.div_mod_eq n 10) as E.
    pose proof (Nat.mod_upper_bound n 10 ltac:(lia)) as Hr.
    destruct (Nat.eq_dec (n / 10) 0) as [Hq|Hq].
    + rewrite digits_of_digit; [lia|]. rewrite Hq in E. lia.
    + rewrite E, Nat.add_comm, digits_of_tens by assumption.
      apply le_n_S, IH. rewrite Nat.pow_succ_r' in H.
      apply Nat.Div0.div_lt_upper_bound. lia.
Qed.

Lemma length_to_text (n : nat) :
  (n < 10 ^ 6)%nat -> (String.length (to_text n) <= 6)%nat.
Proof.
  intros H. unfold to_text.
  rewrite length_string_of_uint, DecimalNat.Unsigned.to_uint_alt,
          DecimalFacts.nb_digits_rev.
  now apply digits_bound.
Qed.

(** Reading a string of decimal digits as a number. *)
Lemma read_zeros (k : nat) (s : string) :
  option_map Nat.of_uint (NilEmpty.uint_of_string (replicate k "0" ++ s))
  = option_map Nat.of_uint (NilEmpty.uint_of_string s).
Proof.
  induction k as [|k IH]; [reflexivity|].
  change (replicate (S k) "0" ++ s)%string
    with (String "0" (replicate k "0" ++ s))%string.
  change (NilEmpty.uint_of_string (String "0" (replicate k "0" ++ s)))
    with (option_map Decimal.D0 (NilEmpty.uint_of_string (replicate k "0" ++ s))).
  rewrite <- IH. now destruct (NilEmpty.uint_of_string (replicate k "0" ++ s)).
Qed.

Lemma read_LPAD (n : nat) :
  (n < 10 ^ 6)%nat ->
  option_map Nat.of_uint (NilEmpty.uint_of_string (LPAD (to_text n) 6 "0")) = Some n.
Proof.
  intros H. rewrite LPAD_short by now apply length_to_text.
  rewrite read_zeros. unfold to_text.
  rewrite NilEmpty.usu. simpl. now rewrite DecimalNat.Unsigned.of_to.
Qed.

Lemma draw_in_range (n : nat) : Z.of_nat n < 999999 -> (n < 10 ^ 6)%nat.
Proof.
  intros H. apply Nat2Z.inj_lt. rewrite Nat2Z.inj_pow.
  change (Z.of_nat 10 ^ Z.of_nat 6) with 1000000. lia.
Qed.

(** X11.  The order number of create_order_with_idempotency is ORD-, the date,
    a dash and always exactly six characters.  A draw of
    FLOOR(RANDOM() * 999999), which is below 999999, is never cut by LPAD:
    the six characters are its decimal digits behind zeros, so two orders
    of the same day get the same number only when their draws are the
    same. *)
Theorem order_number_of_draw (e e' : env) (u b u' b' : uuid) (amt amt' : Z)
    (pm pm' : string) (key key' : option string) :
  Z.of_nat (RANDOM_999999 e) < 999999 ->
  Z.of_nat (RANDOM_999999 e') < 999999 ->
  String.length (Orders.order_number (new_order e u b amt pm key))
  = (11 + String.length (NOW_YYYYMMDD e))%nat
  /\ option_map Nat.of_uint
       (NilEmpty.uint_of_string (LPAD (to_text (RANDOM_999999 e)) 6 "0"))
     = Some (RANDOM_999999 e)
  /\ (NOW_YYYYMMDD e = NOW_YYYYMMDD e' ->
      Orders.order_number (new_order e u b amt pm key)
      = Orders.order_number (new_order e' u' b' amt' pm' key') ->
      RANDOM_999999 e = RANDOM_999999 e').
Proof.
  intros H H'. apply draw_in_range in H. apply draw_in_range in H'.
  cbn [Orders.order_number new_order]. split; [|split].
  - rewrite !length_append, length_LPAD. simpl. lia.
  - now apply read_LPAD.
  - intros Ed E. rewrite Ed in E.
    apply append_cancel_l in E. apply append_cancel_l in E.
    apply append_cancel_l in E.
    pose proof (read_LPAD _ H) as R. pose proof (read_LPAD _ H') as R'.
    rewrite E, R' in R. now injection R.
Qed.

Lemma order_number_of_draw_witness :
  Z.of_nat (RANDOM_999999 at_1000) < 999999
  /\ Z.of_nat (RANDOM_999999 at_2000) < 999999
  /\ String.length (Orders.order_number
                      (new_order at_1000 "u-1" "b-1" 5000000 "qris" (Some "key-1")))
     = (11 + String.length (NOW_YYYYMMDD at_1000))%nat.
Proof.
  split; [vm_compute; reflexivity|]. split; [vm_compute; reflexivity|].
  apply (order_number_of_draw at_1000 at_2000 "u-1" "b-1" "u-1" "b-1" 5000000 5000000
           "qris" "gopay" (Some "key-1") (Some "key-2"));
    vm_compute; reflexivity.
Defined.

(** * Token housekeeping *)

Lemma length_delete_where {A : Type} (cond : A -> bool) (l : list A) :
  Z.of_nat (List.length l)
  = fst (Auth.delete_where cond l) + Z.of_nat (List.length (snd (Auth.delete_where cond l))).
Proof.
  unfold Auth.delete_where. cbn [fst snd].
  assert (H : List.length l
              = (List.length (filter cond l)
                 + List.length (filter (fun r => negb (cond r)) l))%nat).
  { induction l as [|a l IH]; cbn [filter List.length]; [reflexivity|].
    destruct (cond a); cbn [negb List.length]; lia. }
  lia.
Qed.

Lemma delete_where_again {A : Type} (cond : A -> bool) (l : list A) :
  Auth.delete_where cond (snd (Auth.delete_where cond l))
  = (0, snd (Auth.delete_where cond l)).
Proof.
  unfold Auth.delete_where. cbn [fst snd].
  assert (H1 : filter cond (filter (fun r => negb (cond r)) l) = []).
  { induction l as [|a l IH]; cbn [filter]; [reflexivity|].
    destruct (cond a) eqn:E; cbn [negb filter]; [exact IH|]. now rewrite E. }
  assert (H2 : filter (fun r => negb (cond r)) (filter (fun r => negb (cond r)) l)
               = filter (fun r => negb (cond r)) l).
  { clear H1. induction l as [|a l IH]; cbn [filter]; [reflexivity|].
    destruct (cond a) eqn:E; cbn [negb filter]; [exact IH|].
    rewrite E. cbn [negb]. now rewrite IH. }
  now rewrite H1, H2.
Qed.

Lemma cleanup_expired_tokens_unfold (e : Auth.env) (d : Auth.db) :
  Auth.cleanup_expired_tokens e d =
  let otp := Auth.delete_where (Auth.otp_is_old e) (Auth.login_otps d) in
  let email := Auth.delete_where (Auth.email_token_is_old e)
                                 (Auth.email_verification_tokens d) in
  let password := Auth.delete_where (Auth.password_token_is_done e)
                                    (Auth.password_reset_tokens d) in
  let refresh := Auth.delete_where (Auth.refresh_token_is_over e)
                                   (Auth.refresh_tokens d) in
  let blacklist := Auth.delete_where (Auth.blacklisting_is_over e)
                                     (Auth.token_blacklist d) in
  (JObj [("success", JBool true);
         ("otp_deleted", JNum (fst otp));
         ("email_deleted", JNum (fst email));
         ("password_deleted", JNum (fst password));
         ("refresh_deleted", JNum (fst refresh));
         ("blacklist_deleted", JNum (fst blacklist));
         ("total_deleted",
          JNum (fst otp + fst email + fst password + fst refresh + fst blacklist))],
   Auth.mkdb (snd otp) (snd email) (snd password) (snd refresh) (snd blacklist)
             (Auth.audit_logs d
              ++ [AuditLogs.mk None "TOKEN_CLEANUP" (Some "system") None
                    (Some (JObj [("otp_deleted", JNum (fst otp));
                                 ("email_deleted", JNum (fst email));
                                 ("password_deleted", JNum (fst password));
                                 ("refresh_deleted", JNum (fst refresh));
                                 ("blacklist_deleted", JNum (fst blacklist));
                                 ("timestamp", JStr (Auth.NOW_json e))]))
                    (Some (Auth.NOW e))])).
Proof. reflexivity. Qed.

(** X12.  cleanup_expired_tokens always answers success with five counters
    that are not negative, and total_deleted is their sum.  Each counter is
    the number of rows its table lost, so the total is the number of rows
    the five token tables lost together. *)
Theorem cleanup_expired_tokens_counts (e : Auth.env) (d : Auth.db) :
  exists o em pw rf bl,
    jget "success" (fst (Auth.cleanup_expired_tokens e d)) = Some (JBool true)
    /\ jget "otp_deleted" (fst (Auth.cleanup_expired_tokens e d)) = Some (JNum o)
    /\ jget "email_deleted" (fst (Auth.cleanup_expired_tokens e d)) = Some (JNum em)
    /\ jget "password_deleted" (fst (Auth.cleanup_expired_tokens e d))
       = Some (JNum pw)
    /\ jget "refresh_deleted" (fst (Auth.cleanup_expired_tokens e d)) = Some (JNum rf)
    /\ jget "blacklist_deleted" (fst (Auth.cleanup_expired_tokens e d))
       = Some (JNum bl)
    /\ jget "total_deleted" (fst (Auth.cleanup_expired_tokens e d))
       = Some (JNum (o + em + pw + rf + bl))
    /\ 0 <= o /\ 0 <= em /\ 0 <= pw /\ 0 <= rf /\ 0 <= bl
    /\ Z.of_nat (List.length (Auth.login_otps d))
       = o + Z.of_nat (List.length
                         (Auth.login_otps (snd (Auth.cleanup_expired_tokens e d))))
    /\ Z.of_nat (List.length (Auth.email_verification_tokens d))
       = em + Z.of_nat (List.length
                          (Auth.email_verification_tokens
                             (snd (Auth.cleanup_expired_tokens e d))))
    /\ Z.of_nat (List.length (Auth.password_reset_tokens d))
       = pw + Z.of_nat (List.length
                          (Auth.password_reset_tokens
                             (snd (Auth.cleanup_expired_tokens e d))))
    /\ Z.of_nat (List.length (Auth.refresh_tokens d))
       = rf + Z.of_nat (List.length
                          (Auth.refresh_tokens (snd (Auth.cleanup_expired_tokens e d))))
    /\ Z.of_nat (List.length (Auth.token_blacklist d))
       = bl + Z.of_nat (List.length
                          (Auth.token_blacklist (snd (Auth.cleanup_expired_tokens e d))))
    /\ Auth.token_rows d
       = o + em + pw + rf + bl
         + Auth.token_rows (snd (Auth.cleanup_expired_tokens e d)).
Proof.
  rewrite cleanup_expired_tokens_unfold. cbv zeta.
  pose proof (length_delete_where (Auth.otp_is_old e) (Auth.login_otps d)) as H1.
  pose proof (length_delete_where (Auth.email_token_is_old e)
                                  (Auth.email_verification_tokens d)) as H2.
  pose proof (length_delete_where (Auth.password_token_is_done e)
                                  (Auth.password_reset_tokens d)) as H3.
  pose proof (length_delete_where (Auth.refresh_token_is_over e)
                                  (Auth.refresh_tokens d)) as H4.
  pose proof (length_delete_where (Auth.blacklisting_is_over e)
                                  (Auth.token_blacklist d)) as H5.
  eexists _, _, _, _, _.
  cbn [fst snd jget assoc Auth.login_otps Auth.email_verification_tokens
       Auth.password_reset_tokens Auth.refresh_tokens Auth.token_blacklist
       Auth.token_rows].
  repeat (split; [reflexivity|]).
  unfold Auth.delete_where in *. cbn [fst snd] in *.
  repeat (split; [lia|]).
  unfold Auth.token_rows.
  cbn [Auth.login_otps Auth.email_verification_tokens Auth.password_reset_tokens
       Auth.refresh_tokens Auth.token_blacklist].
  lia.
Qed.

(** X13.  cleanup_expired_tokens run a second time at the same clock finds
    nothing to delete: every counter and the total are 0, the five token
    tables stay as the first run left them, and the only write is one more
    TOKEN_CLEANUP row in the audit log. *)
Theorem cleanup_expired_tokens_again (e : Auth.env) (d : Auth.db) :
  exists row,
    Auth.cleanup_expired_tokens e (snd (Auth.cleanup_expired_tokens e d))
    = (JObj [("success", JBool true);
             ("otp_deleted", JNum 0); ("email_deleted", JNum 0);
             ("password_deleted", JNum 0); ("refresh_deleted", JNum 0);
             ("blacklist_deleted", JNum 0); ("total_deleted", JNum 0)],
       Auth.mkdb (Auth.login_otps (snd (Auth.cleanup_expired_tokens e d)))
                 (Auth.email_verification_tokens
                    (snd (Auth.cleanup_expired_tokens e d)))
                 (Auth.password_reset_tokens (snd (Auth.cleanup_expired_tokens e d)))
                 (Auth.refresh_tokens (snd (Auth.cleanup_expired_tokens e d)))
                 (Auth.token_blacklist (snd (Auth.cleanup_expired_tokens e d)))
                 (Auth.audit_logs (snd (Auth.cleanup_expired_tokens e d)) ++ [row]))
    /\ AuditLogs.action row = "TOKEN_CLEANUP".
Proof.
  eexists. rewrite (cleanup_expired_tokens_unfold e (snd _)).
  rewrite (cleanup_expired_tokens_unfold e d). cbv zeta.
  cbn [snd Auth.login_otps Auth.email_verification_tokens
       Auth.password_reset_tokens Auth.refresh_tokens Auth.token_blacklist
       Auth.audit_logs].
  rewrite !delete_where_again. cbn [fst snd]. split; reflexivity.
Qed.

Lemma cleanups_cons (e : Auth.env) (es : list Auth.env) (d : Auth.db) :
  Auth.cleanups (e :: es) d = Auth.cleanups es (snd (Auth.cleanup_expired_tokens e d)).
Proof. reflexivity. Qed.

(** What a sequence of runs leaves of a table: the rows no run selects. *)
Lemma cleanups_keep {A : Type} (table : Auth.db -> list A)
    (cond : Auth.env -> A -> bool) (es : list Auth.env) (d : Auth.db) (r : A) :
  (forall e x, table (snd (Auth.cleanup_expired_tokens e x))
               = filter (fun r => negb (cond e r)) (table x)) ->
  In r (table (Auth.cleanups es d))
  <-> In r (table d) /\ forall e, In e es -> cond e r = false.
Proof.
  intros Htable. revert d. induction es as [|e es IH]; intros d.
  - simpl. split; [intros H; split; [assumption | intros e []] | now intros [H _]].
  - rewrite cleanups_cons, IH, Htable, filter_In, negb_true_iff. split.
    + intros [[H1 H2] H3]. split; [assumption|]. intros e' [<-|He']; auto.
    + intros [H1 H2]. split; [split|]; auto using in_eq, in_cons.
Qed.

(** X14.  What the housekeeping job never removes, however often and at
    whatever clocks it runs: a refresh token that is revoked (or whose flag
    is null), however long expired; a refresh token or a blacklist entry
    that has not expired at any of the clocks, so a blacklisted access token
    stays blacklisted for as long as it is valid.  It never adds a token;
    and once it has run, no used password reset token is left. *)
Theorem tokens_the_cleanup_keeps (es : list Auth.env) (d : Auth.db) :
  (forall r, In r (Auth.refresh_tokens d) ->
             Auth.RefreshTokens.is_revoked r <> Some false ->
             In r (Auth.refresh_tokens (Auth.cleanups es d)))
  /\ (forall r, In r (Auth.refresh_tokens d) ->
                (forall e, In e es -> Auth.NOW e <= Auth.RefreshTokens.expires_at r) ->
                In r (Auth.refresh_tokens (Auth.cleanups es d)))
  /\ (forall r, In r (Auth.token_blacklist (Auth.cleanups es d))
                <-> In r (Auth.token_blacklist d)
                    /\ forall e, In e es ->
                                 Auth.NOW e <= Auth.TokenBlacklist.expires_at r)
  /\ (forall r, In r (Auth.refresh_tokens (Auth.cleanups es d)) ->
                In r (Auth.refresh_tokens d))
  /\ (forall r, In r (Auth.password_reset_tokens (Auth.cleanups es d)) ->
                In r (Auth.password_reset_tokens d)
                /\ (es <> [] -> Auth.PasswordResetTokens.used_at r = None)).
Proof.
  pose proof (fun r => cleanups_keep Auth.refresh_tokens Auth.refresh_token_is_over
                         es d r (fun e x => eq_refl)) as Hrf.
  pose proof (fun r => cleanups_keep Auth.token_blacklist Auth.blacklisting_is_over
                         es d r (fun e x => eq_refl)) as Hbl.
  pose proof (fun r => cleanups_keep Auth.password_reset_tokens
                         Auth.password_token_is_done es d r (fun e x => eq_refl))
    as Hpw.
  split; [|split; [|split; [|split]]].
  - intros r Hr Hrev. apply Hrf. split; [assumption|]. intros e _.
    unfold Auth.refresh_token_is_over.
    destruct (Auth.RefreshTokens.is_revoked r) as [[|]|];
      try congruence; apply andb_false_r.
  - intros r Hr Hlive. apply Hrf. split; [assumption|]. intros e He.
    unfold Auth.refresh_token_is_over.
    assert (E : (Auth.RefreshTokens.expires_at r <? Auth.NOW e) = false)
      by (apply Z.ltb_ge; auto).
    now rewrite E.
  - intros r. rewrite Hbl. unfold Auth.blacklisting_is_over.
    split; intros [H1 H2]; (split; [assumption|]); intros e He;
      specialize (H2 e He); now apply Z.ltb_ge.
  - intros r Hr. now apply Hrf in Hr.
  - intros r Hr. apply Hpw in Hr as [H1 H2]. split; [assumption|].
    intros Hne. destruct es as [|e es]; [congruence|].
    specialize (H2 e (or_introl eq_refl)). unfold Auth.password_token_is_done in H2.
    apply orb_false_iff in H2 as [_ H2].
    now destruct (Auth.PasswordResetTokens.used_at r).
Qed.

(** * The payment methods of the client *)

Lemma above_the_larger (a b : Z) (q : QArith_base.Q) :
  a <= b ->
  QArith_base.Qle_bool q (QArith_base.inject_Z b) = false ->
  QArith_base.Qle_bool (QArith_base.inject_Z a) q = true.
Proof.
  intros Hab H. apply QArith_base.Qle_bool_iff.
  apply QArith_base.Qle_trans with (QArith_base.inject_Z b).
  - now rewrite <- QArith_base.Zle_Qle.
  - apply QArith_base.Qlt_le_weak, QArith_base.Qnot_le_lt.
    intros Hle. apply QArith_base.Qle_bool_iff in Hle. congruence.
Qed.

Lemma getPaymentMethods_sorted :
  Methods.getPaymentMethods = Methods.initializePaymentMethods.
Proof. reflexivity. Qed.

Lemma getPaymentMethod_configured (i : Methods.method_id) :
  exists m, Methods.getPaymentMethod i = Some m /\ Methods.id m = i
            /\ In m Methods.initializePaymentMethods.
Proof.
  destruct i; eexists; (split; [reflexivity|]); (split; [reflexivity|]);
    simpl; auto 10.
Qed.

(** An amount that passes validation and is a number lies within the
    limits. *)
Lemma valid_number (parseFloat : string -> Methods.number) (amount : Methods.value) :
  Methods.isValid (Methods.validatePaymentAmount parseFloat amount) = true ->
  Methods.numeric parseFloat amount <> Methods.NaN ->
  exists q, Methods.numeric parseFloat amount = Methods.Finite q
            /\ QArith_base.Qle_bool (QArith_base.inject_Z 1000) q = true
            /\ QArith_base.Qle_bool q (QArith_base.inject_Z 999999999) = true.
Proof.
  unfold Methods.validatePaymentAmount. cbv zeta.
  destruct (Methods.numeric parseFloat amount) as [|[|]|q]; simpl;
    try discriminate; [congruence|].
  intros H _. exists q. split; [reflexivity|].
  destruct (QArith_base.Qle_bool (QArith_base.inject_Z 1000) q);
    [|discriminate H].
  destruct (QArith_base.Qle_bool q (QArith_base.inject_Z 999999999));
    [auto | discriminate H].
Qed.

(** X15.  For an amount that validatePaymentAmount accepts and that is a
    number, every method that getRecommendedPaymentMethods proposes is one
    that isPaymentMethodAvailable admits for that amount, and at least three
    methods are proposed. *)
Theorem recommended_methods_are_available (parseFloat : string -> Methods.number)
    (amount : Methods.value) :
  Methods.isValid (Methods.validatePaymentAmount parseFloat amount) = true ->
  Methods.numeric parseFloat amount <> Methods.NaN ->
  (3 <= List.length (Methods.getRecommendedPaymentMethods parseFloat amount))%nat
  /\ forall m, In m (Methods.getRecommendedPaymentMethods parseFloat amount) ->
               Methods.isPaymentMethodAvailable parseFloat (Methods.id m) amount
               = true.
Proof.
  intros Hv Hn. destruct (valid_number _ _ Hv Hn) as [q [E [Hmin Hmax]]].
  unfold Methods.getRecommendedPaymentMethods, Methods.isPaymentMethodAvailable.
  cbv zeta. rewrite E. cbn [Methods.le Methods.ge Methods.of_Z].
  destruct (QArith_base.Qle_bool q (QArith_base.inject_Z 50000)) eqn:E1.
  - split; [simpl; lia|]. intros m Hm. simpl in Hm.
    destruct Hm as [<-|[<-|[<-|[]]]]; simpl; now rewrite Hmin, Hmax.
  - pose proof (above_the_larger 5000 50000 q ltac:(lia) E1) as Hcard.
    destruct (QArith_base.Qle_bool q (QArith_base.inject_Z 200000)) eqn:E2.
    + split; [simpl; lia|]. intros m Hm. simpl in Hm.
      destruct Hm as [<-|[<-|[<-|[<-|[]]]]]; simpl;
        rewrite ?Hmin, ?Hmax, ?Hcard; reflexivity.
    + split; [simpl; lia|]. intros m Hm. simpl in Hm.
      destruct Hm as [<-|[<-|[<-|[]]]]; simpl;
        rewrite ?Hmin, ?Hmax, ?Hcard; reflexivity.
Qed.

Lemma recommended_methods_are_available_witness :
  Methods.isValid (Methods.validatePaymentAmount (fun _ => Methods.NaN)
                     (Methods.Num (Methods.of_Z 75000))) = true
  /\ Methods.numeric (fun _ => Methods.NaN) (Methods.Num (Methods.of_Z 75000))
     <> Methods.NaN
  /\ (3 <= List.length (Methods.getRecommendedPaymentMethods
                          (fun _ => Methods.NaN) (Methods.Num (Methods.of_Z 75000))))%nat.
Proof.
  split; [vm_compute; reflexivity|]. split; [simpl; discriminate|].
  apply (recommended_methods_are_available (fun _ => Methods.NaN)
           (Methods.Num (Methods.of_Z 75000)));
    [vm_compute; reflexivity | simpl; discriminate].
Defined.

(** X16.  validatePaymentAmount accepts an amount exactly when it is not below
    1000 and not above 999999999 as JavaScript compares, which a NaN never
    is: an amount that parseFloat cannot read passes the validation.  For
    such an amount no payment method is available, and the recommendation
    is the one for large amounts. *)
Theorem validatePaymentAmount_accepts (parseFloat : string -> Methods.number)
    (amount : Methods.value) :
  (Methods.isValid (Methods.validatePaymentAmount parseFloat amount) = true
   <-> Methods.numeric parseFloat amount = Methods.NaN
       \/ (Methods.ge (Methods.numeric parseFloat amount) (Methods.of_Z 1000) = true
           /\ Methods.le (Methods.numeric parseFloat amount)
                         (Methods.of_Z 999999999) = true))
  /\ (Methods.isValid (Methods.validatePaymentAmount parseFloat amount) = true
      <-> Methods.error (Methods.validatePaymentAmount parseFloat amount) = None)
  /\ (Methods.numeric parseFloat amount = Methods.NaN ->
      Methods.getAvailablePaymentMethods parseFloat amount = []
      /\ map Methods.id (Methods.getRecommendedPaymentMethods parseFloat amount)
         = [Methods.bank_transfer; Methods.credit_card; Methods.qris]).
Proof.
  unfold Methods.validatePaymentAmount, Methods.getAvailablePaymentMethods,
    Methods.getRecommendedPaymentMethods, Methods.isPaymentMethodAvailable.
  cbv zeta.
  destruct (Methods.numeric parseFloat amount) as [|[|]|q]; simpl.
  - repeat split; auto; discriminate.
  - repeat split; try discriminate; intros [H|[H1 H2]]; discriminate.
  - repeat split; try discriminate; intros [H|[H1 H2]]; discriminate.
  - destruct (QArith_base.Qle_bool (QArith_base.inject_Z 1000) q); simpl.
    + destruct (QArith_base.Qle_bool q (QArith_base.inject_Z 999999999)); simpl;
        repeat split; auto; try discriminate; intros [H|[H1 H2]]; discriminate.
    + repeat split; try discriminate; intros [H|[H1 H2]]; discriminate.
Qed.

(** X17.  getAvailablePaymentMethods lists exactly the configured methods that
    isPaymentMethodAvailable admits, in the order of their priority and
    each once.  For an accepted amount that is a number the list has QRIS,
    GoPay, ShopeePay and the virtual account; the card is listed for every
    amount from 5000 on, also above the maximum that the validation
    accepts. *)
Theorem getAvailablePaymentMethods_spec (parseFloat : string -> Methods.number)
    (amount : Methods.value) :
  (forall m, In m (Methods.getAvailablePaymentMethods parseFloat amount)
             <-> In m Methods.initializePaymentMethods
                 /\ Methods.isPaymentMethodAvailable parseFloat (Methods.id m) amount
                    = true)
  /\ Sorted.StronglySorted (fun a b => Methods.priority a < Methods.priority b)
                    (Methods.getAvailablePaymentMethods parseFloat amount)
  /\ (Methods.isValid (Methods.validatePaymentAmount parseFloat amount) = true ->
      Methods.numeric parseFloat amount <> Methods.NaN ->
      forall i, In i [Methods.qris; Methods.gopay; Methods.shopeepay;
                      Methods.bank_transfer] ->
                In i (map Methods.id
                          (Methods.getAvailablePaymentMethods parseFloat amount)))
  /\ (Methods.ge (Methods.numeric parseFloat amount) (Methods.of_Z 5000) = true ->
      In Methods.credit_card
         (map Methods.id (Methods.getAvailablePaymentMethods parseFloat amount))).
Proof.
  split; [|split; [|split]].
  - intros m. unfold Methods.getAvailablePaymentMethods.
    rewrite getPaymentMethods_sorted. apply filter_In.
  - unfold Methods.getAvailablePaymentMethods, Methods.isPaymentMethodAvailable.
    rewrite getPaymentMethods_sorted. cbv zeta.
    set (b1 := Methods.ge (Methods.numeric parseFloat amount) (Methods.of_Z 1000)
               && Methods.le (Methods.numeric parseFloat amount)
                             (Methods.of_Z 999999999)).
    set (b2 := Methods.ge (Methods.numeric parseFloat amount) (Methods.of_Z 5000)).
    set (b3 := Methods.ge (Methods.numeric parseFloat amount) (Methods.of_Z 10000)
               && Methods.le (Methods.numeric parseFloat amount)
                             (Methods.of_Z 2500000)).
    clearbody b1 b2 b3.
    destruct b1, b2, b3; simpl; repeat (constructor; simpl; try lia).
  - intros Hv Hn i Hi. destruct (valid_number _ _ Hv Hn) as [q [E [Hmin Hmax]]].
    apply in_map_iff.
    destruct (getPaymentMethod_configured i) as [m [_ [Hid Hm]]].
    exists m. split; [assumption|].
    unfold Methods.getAvailablePaymentMethods. rewrite getPaymentMethods_sorted.
    apply filter_In. split; [assumption|]. rewrite Hid.
    unfold Methods.isPaymentMethodAvailable. cbv zeta. rewrite E.
    simpl in Hi. destruct Hi as [<-|[<-|[<-|[<-|[]]]]]; simpl;
      now rewrite Hmin, Hmax.
  - intros H. apply in_map_iff. eexists (Methods.mkMethod Methods.credit_card _ _).
    split; [reflexivity|].
    unfold Methods.getAvailablePaymentMethods. rewrite getPaymentMethods_sorted.
    apply filter_In. split; [simpl; auto 10|].
    unfold Methods.isPaymentMethodAvailable. simpl. exact H.
Qed.

(** * The outcome of a monitoring session *)

Lemma answered_mono (w : world) (oid : string) (p q : page) (s : Orders.status_t) :
  incl (log p) (log q) -> answered w oid p s -> answered w oid q s.
Proof. intros H [t [Ht E]]. exists t. auto. Qed.

Lemma told_mono (w : world) (oid : string) (p q : page) (ev : payment_event) :
  incl (log p) (log q) -> told w oid p ev -> told w oid q ev.
Proof.
  intros H. destruct ev; simpl; auto; try apply answered_mono; auto.
  intros [Hs Ha]. split; [assumption|]. eapply answered_mono; eauto.
Qed.

Lemma quiet_not_outcome (e : Z * observation) : quiet e -> is_outcome e = false.
Proof. destruct e as [t [c|i|[]]]; simpl; intros H; now try destruct H. Qed.

Lemma quiet_not_request (e : Z * observation) : quiet e -> is_request e = false.
Proof. destruct e as [t [c|i|[]]]; simpl; intros H; now try destruct H. Qed.

(** A step after which the payment goes on: it sends no request, reports no
    final event, and what it reports the server has answered. *)
Lemma outcome_ok_goes_on (w : world) (oid : string) (p q : page)
    (news : list (Z * observation)) :
  (currentOrder q = currentOrder p
   \/ (currentOrder p <> None
       /\ exists u, currentOrder q = Some u /\ order_id u = oid)) ->
  (statusCheckInterval p = None -> statusCheckInterval q = None) ->
  log q = (news ++ log p)%list ->
  Forall (fun e => is_outcome e = false /\ is_request e = false
                   /\ forall ev, snd e = Emitted ev -> told w oid p ev) news ->
  (forall t u, In t (timers q) -> cb t = Response (Some u) ->
               exists t', In t' (timers p) /\ cb t' = Response (Some u)) ->
  outcome_ok w oid p -> outcome_ok w oid q.
Proof.
  intros Ho Hi Hl Hq Ht [I1 I2 I3 I4 I5 I6].
  assert (Hincl : incl (log p) (log q))
    by (rewrite Hl; intros x Hx; apply in_or_app; now right).
  assert (Hout : outcomes q = outcomes p).
  { unfold outcomes. rewrite Hl, filter_app.
    replace (filter is_outcome news) with (@nil (Z * observation)); [reflexivity|].
    clear - Hq. induction Hq as [|e l [He _] _ IH]; simpl; [reflexivity|].
    now rewrite He. }
  assert (Hsince : forallb (fun e => negb (is_request e)) (since_outcome (log p)) = true
                   -> forallb (fun e => negb (is_request e)) (since_outcome (log q))
                      = true).
  { rewrite Hl. clear - Hq. intros H.
    induction Hq as [|e l [He1 [He2 _]] _ IH]; simpl; [assumption|].
    rewrite He1. simpl. now rewrite He2, IH. }
  rewrite Forall_forall in Hq.
  split.
  - intros c Hc. destruct Ho as [Ho|[_ [u [Hu Hid]]]].
    + apply I1. now rewrite <- Ho.
    + rewrite Hu in Hc. now injection Hc as <-.
  - intros t i Hin. rewrite Hl in Hin. apply in_app_iff in Hin as [Hin|Hin]; [|eauto].
    apply Hq in Hin as [_ [Hin _]]. discriminate Hin.
  - intros t u Hin Hcb. destruct (Ht t u Hin Hcb) as [t' [Hin' Hcb']].
    destruct (I3 t' u Hin' Hcb') as [Hid Ha]. split; [assumption|].
    now apply (answered_mono w oid p).
  - intros t ev Hin. rewrite Hl in Hin. apply (told_mono w oid p); [assumption|].
    apply in_app_iff in Hin as [Hin|Hin]; [|eauto].
    apply Hq in Hin as [_ [_ Hin]]. now apply Hin.
  - intros c Hc. rewrite Hout. destruct Ho as [Ho|[Hp _]].
    + apply (I5 c). now rewrite <- Ho.
    + destruct (currentOrder p) as [c'|] eqn:E; [eauto | congruence].
  - intros Hc. destruct Ho as [Ho|[_ [u [Hu _]]]]; [|congruence].
    rewrite Ho in Hc. destruct (I6 Hc) as [He [Hs Hr]].
    rewrite Hout. auto.
Qed.

Lemma quiet_goes_on (w : world) (oid : string) (p : page)
    (news : list (Z * observation)) :
  Forall quiet news ->
  Forall (fun e => is_outcome e = false /\ is_request e = false
                   /\ forall ev, snd e = Emitted ev -> told w oid p ev) news.
Proof.
  intros H. eapply Forall_impl; [|exact H]. intros e He.
  split; [now apply quiet_not_outcome|]. split; [now apply quiet_not_request|].
  intros ev Hev. destruct e as [t o]. simpl in Hev. subst o.
  unfold quiet in He. destruct ev; simpl in *; solve [exact I | destruct He].
Qed.

(** A step that reports the final event [ev] and gives the order up. *)
Lemma outcome_ok_final (w : world) (oid : string) (p q : page) (t1 t2 : Z)
    (ev : payment_event) :
  currentOrder p <> None ->
  currentOrder q = None ->
  statusCheckInterval q = None ->
  (forall t, In t (timers q) -> In t (timers p)) ->
  log q = (t1, Emitted status_changed) :: (t2, Emitted ev) :: log p ->
  final_event ev = true ->
  told w oid p ev ->
  outcome_ok w oid p -> outcome_ok w oid q.
Proof.
  intros Hp Hq Hs Ht Hl Hf Hev [I1 I2 I3 I4 I5 I6].
  assert (Hincl : incl (log p) (log q))
    by (rewrite Hl; intros x Hx; right; now right).
  split.
  - intros c Hc. congruence.
  - intros t i Hin. rewrite Hl in Hin.
    destruct Hin as [Hin|[Hin|Hin]]; [discriminate | discriminate | eauto].
  - intros t u Hin Hcb. destruct (I3 t u (Ht t Hin) Hcb) as [Hid Ha].
    split; [assumption|]. now apply (answered_mono w oid p).
  - intros t e Hin. rewrite Hl in Hin. apply (told_mono w oid p); [assumption|].
    destruct Hin as [Hin|[Hin|Hin]]; [| |eauto].
    + injection Hin as _ <-. exact I.
    + injection Hin as _ <-. assumption.
  - intros c Hc. congruence.
  - intros _. split; [|split; [assumption|]].
    + exists (t2, Emitted ev).
      destruct (currentOrder p) as [c|] eqn:E; [|congruence].
      pose proof (I5 c eq_refl) as Hnone. unfold outcomes in *. rewrite Hl.
      cbn [filter is_outcome snd final_event]. now rewrite Hf, Hnone.
    + rewrite Hl. cbn [since_outcome is_outcome snd final_event].
      now rewrite Hf.
Qed.

Lemma outcome_ok_start_task (w : world) (oid : string) (m : timer) (p : page) :
  In m (timers p) -> outcome_ok w oid p -> outcome_ok w oid (start_task m p).
Proof.
  intros Hm. apply (outcome_ok_goes_on w oid p _ [(due m, Fired (cb m))]);
    [now left | auto | reflexivity | apply quiet_goes_on; repeat constructor |].
  intros t u Hin Hcb. apply in_start_task in Hin as [[Hin _]|[_ Hin]].
  - now exists t.
  - exists m. split; [assumption | congruence].
Qed.

Lemma outcome_ok_stopStatusPolling (w : world) (oid : string) (p : page) :
  outcome_ok w oid p -> outcome_ok w oid (stopStatusPolling p).
Proof.
  destruct (stopStatusPolling_spec p) as [Hs [_ [Hl [Ho [_ [_ Ht]]]]]].
  apply (outcome_ok_goes_on w oid p _ []);
    [now left | auto | now rewrite Hl | constructor |].
  intros t u Hin Hcb. exists t. split; [now apply Ht in Hin | assumption].
Qed.

Lemma outcome_ok_window_check (w : world) (oid : string) (self : nat) (p : page) :
  outcome_ok w oid p -> outcome_ok w oid (window_check w self p).
Proof.
  unfold window_check. destruct (paymentWindow p) as [c|]; [|auto].
  destruct (closed w p c); [|auto].
  apply (outcome_ok_goes_on w oid p _ [(clock p, Emitted payment_window_closed)]);
    [now left | auto | reflexivity | apply quiet_goes_on; repeat constructor |].
  intros t u Hin Hcb. simpl in Hin. apply in_app_iff in Hin as [Hin|[<-|[]]].
  - exists t. split; [now apply in_cleared in Hin | assumption].
  - discriminate Hcb.
Qed.

Lemma outcome_ok_checkPaymentStatus (w : world) (oid : string) (p : page) :
  outcome_ok w oid p -> outcome_ok w oid (checkPaymentStatus w p).
Proof.
  intros H. unfold checkPaymentStatus.
  destruct (currentOrder p) as [c|] eqn:E; [|assumption].
  destruct H as [I1 I2 I3 I4 I5 I6].
  pose proof (I1 c E) as Hid.
  assert (Hincl : incl (log p) ((clock p, Request (order_id c)) :: log p))
    by (intros x Hx; now right).
  split; cbn [snd schedule observe currentOrder log timers statusCheckInterval].
  - assumption.
  - intros t i [Hin|Hin]; [congruence | eauto].
  - intros t u Hin Hcb. apply in_app_iff in Hin as [Hin|[<-|[]]].
    + destruct (I3 t u Hin Hcb) as [Hu Ha]. split; [assumption|].
      destruct Ha as [tr [Hr Hg]]. exists tr. split; [now right | assumption].
    + cbn [cb] in Hcb.
      destruct (getOrder w (clock p)) as [s|] eqn:G; [|discriminate].
      simpl in Hcb. injection Hcb as <-. split; [assumption|].
      exists (clock p). split; [left; now rewrite Hid | assumption].
  - intros t ev [Hin|Hin]; [discriminate|].
    specialize (I4 t ev Hin). revert I4.
    apply (told_mono w oid p (mkPage _ _ _ _ _ _ _ _)). exact Hincl.
  - intros c' Hc'. unfold outcomes. simpl. now apply (I5 c).
  - congruence.
Qed.

Lemma handlePaymentSuccess_spec (w : world) (p : page) :
  currentOrder (handlePaymentSuccess w p) = None
  /\ statusCheckInterval (handlePaymentSuccess w p) = None
  /\ (forall t, In t (timers (handlePaymentSuccess w p)) -> In t (timers p))
  /\ clock (handlePaymentSuccess w p) = clock p.
Proof.
  unfold handlePaymentSuccess.
  destruct (stopStatusPolling_spec p) as [Hs [Hc [_ [_ [_ [_ Ht]]]]]].
  destruct (close_payment_window_spec w (stopStatusPolling p))
    as [_ [Hs' [Ht' [Hc' _]]]].
  destruct (confirm w); simpl; rewrite Hs', Ht', Hc', Hs, Hc;
    (repeat split; auto); intros t Hin; now apply Ht in Hin.
Qed.

Lemma handlePaymentFailure_spec (w : world) (s : Orders.status_t) (p : page) :
  currentOrder (handlePaymentFailure w s p) = None
  /\ statusCheckInterval (handlePaymentFailure w s p) = None
  /\ (forall t, In t (timers (handlePaymentFailure w s p)) -> In t (timers p))
  /\ clock (handlePaymentFailure w s p) = clock p.
Proof.
  unfold handlePaymentFailure.
  destruct (stopStatusPolling_spec p) as [Hs [Hc [_ [_ [_ [_ Ht]]]]]].
  destruct (close_payment_window_spec w (stopStatusPolling p))
    as [_ [Hs' [Ht' [Hc' _]]]].
  simpl; rewrite Hs', Ht', Hc', Hs, Hc;
    (repeat split; auto); intros t Hin; now apply Ht in Hin.
Qed.

Lemma outcome_ok_resume (w : world) (oid : string) (answer : option order_data)
    (p : page) :
  (forall u, answer = Some u ->
             order_id u = oid /\ answered w oid p (order_status u)) ->
  outcome_ok w oid p -> outcome_ok w oid (checkPaymentStatus_resume w answer p).
Proof.
  intros Ha H. unfold checkPaymentStatus_resume.
  destruct answer as [u|]; [|assumption].
  destruct (currentOrder p) as [cur|] eqn:E; [|assumption].
  destruct (negb (Orders.status_eqb (order_status u) (order_status cur)));
    [|assumption].
  destruct (Ha u eq_refl) as [Hid Hans].
  assert (Hp : currentOrder p <> None) by congruence.
  destruct (order_status u) eqn:S.
  - apply (outcome_ok_goes_on w oid p _
             [(clock p, Emitted status_changed); (clock p, Emitted payment_pending)]);
      [right; split; [assumption|]; now exists u | auto | reflexivity | | | exact H].
    + repeat constructor; simpl; intros ev Hev; injection Hev as <-;
        [exact I | exact Hans].
    + intros t x Hin Hcb. now exists t.
  - destruct (handlePaymentSuccess_spec w (set_currentOrder (Some u) p))
      as [Hc [Hs [Ht Hk]]].
    apply (outcome_ok_final w oid p _
             (clock (handlePaymentSuccess w (set_currentOrder (Some u) p)))
             (clock p) payment_success); auto.
    unfold triggerPaymentCallbacks at 1, observe at 1. cbn [log].
    now rewrite log_handlePaymentSuccess.
  - destruct (handlePaymentFailure_spec w Orders.failed (set_currentOrder (Some u) p))
      as [Hc [Hs [Ht Hk]]].
    apply (outcome_ok_final w oid p _
             (clock (handlePaymentFailure w Orders.failed
                       (set_currentOrder (Some u) p)))
             (clock p) (payment_failed Orders.failed)); auto.
    + unfold triggerPaymentCallbacks at 1, observe at 1. cbn [log].
      now rewrite log_handlePaymentFailure.
    + simpl. auto.
  - destruct (handlePaymentFailure_spec w Orders.cancelled
                (set_currentOrder (Some u) p)) as [Hc [Hs [Ht Hk]]].
    apply (outcome_ok_final w oid p _
             (clock (handlePaymentFailure w Orders.cancelled
                       (set_currentOrder (Some u) p)))
             (clock p) (payment_failed Orders.cancelled)); auto.
    + unfold triggerPaymentCallbacks at 1, observe at 1. cbn [log].
      now rewrite log_handlePaymentFailure.
    + simpl. auto.
  - apply (outcome_ok_goes_on w oid p _ [(clock p, Emitted status_changed)]);
      [right; split; [assumption|]; now exists u | auto | reflexivity | | | exact H].
    + repeat constructor; simpl; intros ev Hev; injection Hev as <-; exact I.
    + intros t x Hin Hcb. now exists t.
  - destruct (handlePaymentFailure_spec w Orders.expired
                (set_currentOrder (Some u) p)) as [Hc [Hs [Ht Hk]]].
    apply (outcome_ok_final w oid p _
             (clock (handlePaymentFailure w Orders.expired
                       (set_currentOrder (Some u) p)))
             (clock p) (payment_failed Orders.expired)); auto.
    + unfold triggerPaymentCallbacks at 1, observe at 1. cbn [log].
      now rewrite log_handlePaymentFailure.
    + simpl. auto.
Qed.

Lemma outcome_ok_step (w : world) (oid : string) (p p' : page) :
  outcome_ok w oid p -> step w p = Some p' -> outcome_ok w oid p'.
Proof.
  intros H. unfold step. destruct (navigating p); [discriminate|].
  destruct (earliest (timers p)) as [m|] eqn:E; [|discriminate].
  intros Hp'. injection Hp' as <-.
  apply earliest_spec in E as [Hm _].
  pose proof (outcome_ok_start_task w oid m p Hm H) as H1.
  unfold fire. destruct (cb m) as [| | | |answer] eqn:C.
  - now apply outcome_ok_window_check.
  - now apply outcome_ok_checkPaymentStatus.
  - now apply outcome_ok_checkPaymentStatus.
  - now apply outcome_ok_stopStatusPolling.
  - apply outcome_ok_resume; [|assumption].
    intros u ->. destruct (answers_pending _ _ _ H m u Hm C) as [Hid Ha].
    split; [assumption|]. apply (answered_mono w oid p); [|assumption].
    intros x Hx. now right.
Qed.

Lemma outcome_ok_steps (w : world) (oid : string) (n : nat) (p : page) :
  outcome_ok w oid p -> outcome_ok w oid (steps n w p).
Proof.
  revert p. induction n as [|n IH]; intros p H; simpl; [assumption|].
  destruct (step w p) as [p'|] eqn:E; [|assumption].
  apply IH. eapply outcome_ok_step; eauto.
Qed.

Lemma outcome_ok_session (w : world) (t0 : Z) (o : order_data) :
  outcome_ok w (order_id o) (session t0 o).
Proof.
  split; simpl.
  - intros c Hc. now injection Hc as <-.
  - intros t i [Hin|[Hin|[]]]; discriminate.
  - intros t u [<-|[<-|[<-|[]]]]; discriminate.
  - intros t ev [Hin|[Hin|[]]]; injection Hin as _ <-; exact I.
  - reflexivity.
  - discriminate.
Qed.


(** X18.  A monitoring session has at most one outcome.  Whatever the server
    answers and whenever, the page sends payment_success or payment_failed
    at most once in all; it has given up the order exactly when it has sent
    one; from then on it holds no polling interval and sends no status
    request any more.  Every status request it sends is for the order of
    the session. *)
Theorem one_outcome_per_session (w : world) (t0 : Z) (o : order_data) (n : nat) :
  (List.length (outcomes (steps n w (session t0 o))) <= 1)%nat
  /\ (currentOrder (steps n w (session t0 o)) = None
      <-> outcomes (steps n w (session t0 o)) <> [])
  /\ (currentOrder (steps n w (session t0 o)) = None ->
      statusCheckInterval (steps n w (session t0 o)) = None
      /\ forall e, In e (since_outcome (log (steps n w (session t0 o)))) ->
                   is_request e = false)
  /\ (forall t i, In (t, Request i) (log (steps n w (session t0 o))) ->
                  i = order_id o).
Proof.
  pose proof (outcome_ok_steps w (order_id o) n _ (outcome_ok_session w t0 o))
    as [I1 I2 I3 I4 I5 I6].
  destruct (currentOrder (steps n w (session t0 o))) as [c|] eqn:E.
  - rewrite (I5 c eq_refl). simpl.
    repeat split; try discriminate; try congruence; eauto.
  - destruct (I6 eq_refl) as [[e He] [Hs Hr]]. rewrite He. simpl.
    repeat split; try discriminate; auto.
    intros x Hx. rewrite forallb_forall in Hr. apply Hr in Hx.
    now apply negb_true_iff in Hx.
Qed.



(** * Leaving a session *)

Lemma in_start_task_inv (m : timer) (p : page) (t : timer) :
  In t (timers (start_task m p)) ->
  In t (timers p)
  \/ exists d, period m = Some d /\ t = mkTimer (id m) (due m + d) (Some d) (cb m).
Proof.
  unfold start_task. cbn [timers]. intros H. apply in_app_iff in H as [H|H].
  - left. now apply in_cleared in H.
  - right. destruct (period m) as [d|]; [|destruct H].
    destruct H as [<-|[]]. now exists d.
Qed.

(** A task adds no timer but the status check after a closure and the
    continuation of a request. *)
Lemma fire_adds (w : world) (m : timer) (p : page) (t : timer) :
  In t (timers (fire w m p)) ->
  In t (timers p) \/ cb t = FinalCheck \/ exists a, cb t = Response a.
Proof.
  unfold fire. destruct (cb m) as [| | | |answer].
  - unfold window_check. destruct (paymentWindow p) as [c|]; [|auto].
    destruct (closed w p c); [|auto]. cbn [snd setTimeout schedule timers].
    intros H. apply in_app_iff in H as [H|[<-|[]]]; [|auto].
    left. unfold triggerPaymentCallbacks, observe, clearInterval in H.
    cbn [timers set_timers] in H. now apply in_cleared in H.
  - unfold checkPaymentStatus. destruct (currentOrder p); [|auto].
    cbn [snd schedule timers observe]. intros H.
    apply in_app_iff in H as [H|[<-|[]]]; [auto|]. right. right. now eexists.
  - unfold checkPaymentStatus. destruct (currentOrder p); [|auto].
    cbn [snd schedule timers observe]. intros H.
    apply in_app_iff in H as [H|[<-|[]]]; [auto|]. right. right. now eexists.
  - intros H. left. now apply stopStatusPolling_spec in H.
  - unfold checkPaymentStatus_resume. destruct answer as [u|]; [|auto].
    destruct (currentOrder p); [|auto].
    destruct (negb _); [|auto].
    unfold triggerPaymentCallbacks at 1, observe at 1. cbn [timers].
    destruct (order_status u); intros H; left;
      try (apply handlePaymentSuccess_spec in H);
      try (apply handlePaymentFailure_spec in H); exact H.
Qed.

Lemma watch_periodic_step (w : world) (p p' : page) :
  watch_periodic p -> step w p = Some p' -> watch_periodic p'.
Proof.
  intros H. unfold step. destruct (navigating p); [discriminate|].
  destruct (earliest (timers p)) as [m|] eqn:E; [|discriminate].
  intros Hp'. injection Hp' as <-. apply earliest_spec in E as [Hm _].
  intros t Hin Hcb. apply fire_adds in Hin as [Hin|[Hin|[a Hin]]]; try congruence.
  apply in_start_task_inv in Hin as [Hin|[d [Hd ->]]]; [auto|].
  cbn [cb period] in *. rewrite <- Hd. auto.
Qed.

Lemma watch_periodic_steps (w : world) (n : nat) (p : page) :
  watch_periodic p -> watch_periodic (steps n w p).
Proof.
  revert p. induction n as [|n IH]; intros p H; simpl; [assumption|].
  destruct (step w p) as [p'|] eqn:E; [|assumption].
  apply IH. eapply watch_periodic_step; eauto.
Qed.

Lemma watch_periodic_session (t0 : Z) (o : order_data) :
  watch_periodic (session t0 o).
Proof.
  intros t Hin Hcb. simpl in Hin.
  destruct Hin as [<-|[<-|[<-|[]]]]; try discriminate. reflexivity.
Qed.

(** Once the page is cleaned, a turn of the event loop only lets the task
    start. *)
Lemma cleaned_step (w : world) (p p' : page) :
  cleaned p -> step w p = Some p' ->
  exists m, earliest (timers p) = Some m /\ p' = start_task m p.
Proof.
  intros [Ho [Hw Hi]]. unfold step. destruct (navigating p); [discriminate|].
  destruct (earliest (timers p)) as [m|] eqn:E; [|discriminate].
  intros Hp'. injection Hp' as <-. exists m. split; [reflexivity|].
  unfold fire, window_check, checkPaymentStatus, stopStatusPolling,
    checkPaymentStatus_resume.
  cbn [start_task currentOrder paymentWindow statusCheckInterval].
  rewrite Ho, Hw, Hi. destruct (cb m) as [| | | |[u|]]; reflexivity.
Qed.

Lemma cleanup_spec (w : world) (p : page) :
  cleaned (cleanup w p)
  /\ log (cleanup w p) = log p
  /\ clock (cleanup w p) = clock p
  /\ next_id (cleanup w p) = next_id p
  /\ forall t, In t (timers (cleanup w p)) <->
               In t (timers p) /\ statusCheckInterval p <> Some (id t).
Proof.
  unfold cleanup, cleaned.
  destruct (stopStatusPolling_spec p) as [Hs [Hc [Hl [_ [_ [Hn Ht]]]]]].
  destruct (close_payment_window_spec w (stopStatusPolling p))
    as [Hl' [Hs' [Ht' [Hc' _]]]].
  cbn [set_paymentWindow set_currentOrder currentOrder paymentWindow
       statusCheckInterval log clock timers next_id].
  rewrite Hs', Hl', Hc', Ht', Hs, Hl, Hc.
  split; [auto|]. split; [reflexivity|]. split; [reflexivity|].
  split; [|exact Ht].
  unfold close_payment_window. destruct (paymentWindow (stopStatusPolling p));
    [destruct (negb _)|]; simpl; auto.
Qed.

(** What stays as it is while a cleaned page runs. *)
Lemma cleaned_steps (w : world) (n : nat) (p : page) (i : nat) :
  schedule_ok p -> cleaned p ->
  (forall t, In t (timers p) -> cb t <> StatusPoll) ->
  cleaned (steps n w p)
  /\ emitted (steps n w p) = emitted p
  /\ requests (steps n w p) = requests p
  /\ (forall t, In t (timers (steps n w p)) -> cb t <> StatusPoll)
  /\ ((exists t, In t (timers p) /\ id t = i /\ cb t = WindowCheck
                 /\ period t = Some 1000) ->
      exists t, In t (timers (steps n w p)) /\ id t = i /\ cb t = WindowCheck
                /\ period t = Some 1000).
Proof.
  revert p. induction n as [|n IH]; intros p Hs Hc Hp; simpl; [auto 6|].
  destruct (step w p) as [p'|] eqn:E; [|auto 6].
  destruct (cleaned_step w p p' Hc E) as [m [Em ->]].
  pose proof (earliest_spec _ _ Em) as [Hm _].
  assert (Hc' : cleaned (start_task m p)) by exact Hc.
  destruct (IH (start_task m p)) as [H1 [H2 [H3 [H4 H5]]]]; auto.
  - now apply schedule_ok_start_task.
  - intros t Hin Hcb. apply in_start_task_inv in Hin as [Hin|[d [Hd ->]]].
    + now apply (Hp t).
    + cbn [cb] in Hcb. now apply (Hp m).
  - split; [assumption|]. split; [exact H2|]. split; [exact H3|].
    split; [assumption|]. intros Hw. apply H5.
    destruct Hw as [t [Hin [Hid [Hcb Hper]]]].
    destruct (Nat.eq_dec (id m) i) as [Hmi|Hmi].
    + assert (t = m) as ->.
      { apply (same_id (timers p)); [apply (ids_distinct p Hs) | | |]; congruence. }
      exists (mkTimer (id m) (due m + 1000) (Some 1000) (cb m)).
      split; [|auto]. unfold start_task. cbn [timers]. apply in_or_app. right.
      rewrite Hper. now left.
    + exists t. split; [|auto].
      apply kept_by_start_task; [apply (ids_distinct p Hs) | | |]; congruence.
Qed.

(** X20.  cleanup lets go of the order, the window and the polling, and the
    page is silent from then on: however long it runs, it sends no event and
    no status request any more and no periodic status check is left in the
    queue.  But cleanup does not stop the watch on the payment window: when
    that interval was still on, it is in the queue after any number of
    turns, due every second. *)
Theorem cleanup_leaves_the_watch (w : world) (t0 : Z) (o : order_data) (k n : nat) :
  cleaned (steps n w (cleanup w (steps k w (session t0 o))))
  /\ emitted (steps n w (cleanup w (steps k w (session t0 o))))
     = emitted (steps k w (session t0 o))
  /\ requests (steps n w (cleanup w (steps k w (session t0 o))))
     = requests (steps k w (session t0 o))
  /\ (forall t, In t (timers (steps n w (cleanup w (steps k w (session t0 o))))) ->
                cb t <> StatusPoll)
  /\ (forall t, In t (timers (steps k w (session t0 o))) -> cb t = WindowCheck ->
      exists t', In t' (timers (steps n w (cleanup w (steps k w (session t0 o)))))
                 /\ id t' = id t /\ cb t' = WindowCheck /\ period t' = Some 1000).
Proof.
  pose proof (session_ok_steps t0 w k _ (session_ok_session t0 o)) as [Hs Hp _ _].
  pose proof (watch_periodic_steps w k _ (watch_periodic_session t0 o)) as Hw.
  set (p := steps k w (session t0 o)) in *.
  destruct (cleanup_spec w p) as [Hc [Hl [Hk [Hn Ht]]]].
  assert (Hs' : schedule_ok (cleanup w p)).
  { destruct Hs as [S1 S2 S3 S4]. split.
    - intros t Hin. rewrite Hk. apply S1. now apply Ht in Hin.
    - intros t Hin. rewrite Hn. apply S2. now apply Ht in Hin.
    - unfold cleanup. cbn [timers set_paymentWindow set_currentOrder].
      destruct (close_payment_window_spec w (stopStatusPolling p))
        as [_ [_ [-> _]]].
      apply (ids_distinct _ (schedule_ok_stopStatusPolling p
                               (Build_schedule_ok p S1 S2 S3 S4))).
    - intros t d Hin. apply S4. now apply Ht in Hin. }
  assert (Hnp : forall t, In t (timers (cleanup w p)) -> cb t <> StatusPoll).
  { intros t Hin Hcb. apply Ht in Hin as [Hin Hne].
    now destruct (poll_timer t0 p Hp t Hin Hcb) as [Hheld _]. }
  split; [|split; [|split; [|split]]].
  - now apply (cleaned_steps w n _ 0%nat).
  - destruct (cleaned_steps w n _ 0%nat Hs' Hc Hnp) as [_ [-> _]].
    unfold emitted. now rewrite Hl.
  - destruct (cleaned_steps w n _ 0%nat Hs' Hc Hnp) as [_ [_ [-> _]]].
    unfold requests. now rewrite Hl.
  - now apply (cleaned_steps w n _ 0%nat).
  - intros t Hin Hcb.
    destruct (cleaned_steps w n _ (id t) Hs' Hc Hnp) as [_ [_ [_ [_ H]]]].
    destruct H as [t' Ht']; [|exists t'; tauto].
    exists t. split; [|auto]. apply Ht. split; [assumption|].
    intros Hheld. destruct (poll_active t0 p Hp _ Hheld) as [x [Hx [Hid Hcx]]].
    assert (x = t) as ->
      by (apply (same_id (timers p)); [apply (ids_distinct p Hs) | | |]; auto).
    congruence.
Qed.

(** * Resuming a session *)

Lemma handlePaymentSuccess_timers (w : world) (p : page) :
  timers (handlePaymentSuccess w p) = timers (stopStatusPolling p).
Proof.
  unfold handlePaymentSuccess.
  destruct (close_payment_window_spec w (stopStatusPolling p)) as [_ [_ [Ht _]]].
  destruct (confirm w); simpl; exact Ht.
Qed.

Lemma handlePaymentFailure_timers (w : world) (s : Orders.status_t) (p : page) :
  timers (handlePaymentFailure w s p) = timers (stopStatusPolling p).
Proof.
  unfold handlePaymentFailure.
  destruct (close_payment_window_spec w (stopStatusPolling p)) as [_ [_ [Ht _]]].
  simpl; exact Ht.
Qed.

(** Stopping the polling the page holds ends it. *)
Lemma stopped_is_over (p : page) :
  (forall t, In t (timers p) -> cb t = StatusPoll ->
             statusCheckInterval p = Some (id t)) ->
  statusCheckInterval (stopStatusPolling p) = None
  /\ forall t, In t (timers (stopStatusPolling p)) -> cb t <> StatusPoll.
Proof.
  intros Hheld. destruct (stopStatusPolling_spec p) as [Hs [_ [_ [_ [_ [_ Ht]]]]]].
  split; [assumption|]. intros t Hin Hcb. apply Ht in Hin as [Hin Hne].
  apply Hne. now apply Hheld.
Qed.

Lemma stop_after_set (o : option order_data) (p : page) :
  statusCheckInterval (stopStatusPolling (set_currentOrder o p))
  = statusCheckInterval (stopStatusPolling p)
  /\ timers (stopStatusPolling (set_currentOrder o p))
     = timers (stopStatusPolling p).
Proof.
  unfold stopStatusPolling. simpl. destruct (statusCheckInterval p); split; reflexivity.
Qed.

(** What a task does to the polling: it leaves the interval the page holds
    and its timer alone, or it stops the polling. *)
Lemma fire_polling (w : world) (m : timer) (p : page) :
  (cb m <> AutoStop
   /\ statusCheckInterval (fire w m p) = statusCheckInterval p
   /\ (forall t, In t (timers (fire w m p)) -> cb t = StatusPoll \/ cb t = AutoStop ->
                 In t (timers p))
   /\ (forall t, In t (timers p) -> id t <> id m \/ cb m <> WindowCheck ->
                 In t (timers (fire w m p))))
  \/ (statusCheckInterval (fire w m p) = statusCheckInterval (stopStatusPolling p)
      /\ timers (fire w m p) = timers (stopStatusPolling p)).
Proof.
  unfold fire. destruct (cb m) as [| | | |answer] eqn:C.
  - left. unfold window_check. destruct (paymentWindow p) as [c|];
      [|split; [congruence|]; split; [reflexivity | split; auto]].
    destruct (closed w p c); [|split; [congruence|]; split; [reflexivity | split; auto]].
    cbn [snd setTimeout schedule timers statusCheckInterval triggerPaymentCallbacks
         observe clearInterval set_timers].
    split; [congruence|]. split; [reflexivity|]. split.
    + intros t Hin Hcb. apply in_app_iff in Hin as [Hin|[<-|[]]].
      * now apply in_cleared in Hin.
      * cbn [cb] in Hcb. destruct Hcb; discriminate.
    + intros t Hin [Hid|Hcb]; [|congruence].
      apply in_or_app. left. apply in_cleared. auto.
  - left. unfold checkPaymentStatus. destruct (currentOrder p);
      [|split; [congruence|]; split; [reflexivity | split; auto]].
    cbn [snd schedule timers statusCheckInterval observe].
    split; [congruence|]. split; [reflexivity|]. split.
    + intros t Hin Hcb. apply in_app_iff in Hin as [Hin|[<-|[]]]; [assumption|].
      cbn [cb] in Hcb. destruct Hcb; discriminate.
    + intros t Hin _. apply in_or_app. now left.
  - left. unfold checkPaymentStatus. destruct (currentOrder p);
      [|split; [congruence|]; split; [reflexivity | split; auto]].
    cbn [snd schedule timers statusCheckInterval observe].
    split; [congruence|]. split; [reflexivity|]. split.
    + intros t Hin Hcb. apply in_app_iff in Hin as [Hin|[<-|[]]]; [assumption|].
      cbn [cb] in Hcb. destruct Hcb; discriminate.
    + intros t Hin _. apply in_or_app. now left.
  - right. split; reflexivity.
  - unfold checkPaymentStatus_resume.
    destruct answer as [u|]; [|left; split; [congruence|]; split; [reflexivity | split; auto]].
    destruct (currentOrder p); [|left; split; [congruence|]; split; [reflexivity | split; auto]].
    destruct (negb _); [|left; split; [congruence|]; split; [reflexivity | split; auto]].
    pose proof (stop_after_set (Some u) p) as [Es Et].
    destruct (order_status u);
      cbn [triggerPaymentCallbacks observe timers statusCheckInterval
           handlePaymentPending set_currentOrder];
      try (left; split; [congruence|]; split; [reflexivity | split; auto]); right;
      rewrite ?handlePaymentSuccess_timers, ?handlePaymentFailure_timers, Et;
      (split; [|reflexivity]).
    + destruct (handlePaymentSuccess_spec w (set_currentOrder (Some u) p))
        as [_ [-> _]].
      now destruct (stopStatusPolling_spec p) as [-> _].
    + destruct (handlePaymentFailure_spec w Orders.failed
                  (set_currentOrder (Some u) p)) as [_ [-> _]].
      now destruct (stopStatusPolling_spec p) as [-> _].
    + destruct (handlePaymentFailure_spec w Orders.cancelled
                  (set_currentOrder (Some u) p)) as [_ [-> _]].
      now destruct (stopStatusPolling_spec p) as [-> _].
    + destruct (handlePaymentFailure_spec w Orders.expired
                  (set_currentOrder (Some u) p)) as [_ [-> _]].
      now destruct (stopStatusPolling_spec p) as [-> _].
Qed.

Lemma close_payment_window_next_id (w : world) (p : page) :
  next_id (close_payment_window w p) = next_id p.
Proof.
  unfold close_payment_window. destruct (paymentWindow p); [destruct (negb _)|];
    reflexivity.
Qed.

Lemma handlePaymentSuccess_next_id (w : world) (p : page) :
  next_id (handlePaymentSuccess w p) = next_id p.
Proof.
  unfold handlePaymentSuccess.
  destruct (stopStatusPolling_spec p) as [_ [_ [_ [_ [_ [Hn _]]]]]].
  destruct (confirm w); simpl; now rewrite close_payment_window_next_id.
Qed.

Lemma handlePaymentFailure_next_id (w : world) (s : Orders.status_t) (p : page) :
  next_id (handlePaymentFailure w s p) = next_id p.
Proof.
  unfold handlePaymentFailure.
  destruct (stopStatusPolling_spec p) as [_ [_ [_ [_ [_ [Hn _]]]]]].
  simpl; now rewrite close_payment_window_next_id.
Qed.

(** What a task leaves alone: the clock; the timers it adds are new; a page
    without order stays without. *)
Lemma fire_frame (w : world) (m : timer) (p : page) :
  clock (fire w m p) = clock p
  /\ (next_id p <= next_id (fire w m p))%nat
  /\ (forall t, In t (timers (fire w m p)) ->
                In t (timers p) \/ (next_id p <= id t)%nat)
  /\ (currentOrder p = None -> currentOrder (fire w m p) = None).
Proof.
  unfold fire. destruct (cb m) as [| | | |answer].
  - unfold window_check. destruct (paymentWindow p) as [c|]; [|repeat split; auto; congruence].
    destruct (closed w p c); [|repeat split; auto; congruence].
    cbn [snd setTimeout schedule timers clock next_id currentOrder
         triggerPaymentCallbacks observe clearInterval set_timers id].
    repeat split; auto.
    intros t Hin. apply in_app_iff in Hin as [Hin|[<-|[]]].
    + left. now apply in_cleared in Hin.
    + right. cbn [id]. lia.
  - unfold checkPaymentStatus. destruct (currentOrder p) eqn:E; [|repeat split; auto; congruence].
    cbn [snd schedule timers clock next_id currentOrder observe].
    repeat split; auto; [|discriminate].
    intros t Hin. apply in_app_iff in Hin as [Hin|[<-|[]]]; [auto|].
    right. cbn [id]. lia.
  - unfold checkPaymentStatus. destruct (currentOrder p) eqn:E; [|repeat split; auto; congruence].
    cbn [snd schedule timers clock next_id currentOrder observe].
    repeat split; auto; [|discriminate].
    intros t Hin. apply in_app_iff in Hin as [Hin|[<-|[]]]; [auto|].
    right. cbn [id]. lia.
  - destruct (stopStatusPolling_spec p) as [_ [Hc [_ [Ho [_ [Hn Ht]]]]]].
    rewrite Hc, Hn, Ho. repeat split; auto.
    intros t Hin. left. now apply Ht in Hin.
  - unfold checkPaymentStatus_resume. destruct answer as [u|]; [|repeat split; auto; congruence].
    destruct (currentOrder p) eqn:E; [|repeat split; auto; congruence].
    destruct (negb _); [|repeat split; auto; congruence].
    pose proof (handlePaymentSuccess_spec w (set_currentOrder (Some u) p))
      as [_ [_ [Hts Hcs]]].
    pose proof (handlePaymentSuccess_next_id w (set_currentOrder (Some u) p)) as Hns.
    assert (Hf : forall s,
               (forall t, In t (timers (handlePaymentFailure w s
                                          (set_currentOrder (Some u) p))) ->
                          In t (timers p))
               /\ clock (handlePaymentFailure w s (set_currentOrder (Some u) p))
                  = clock p
               /\ next_id (handlePaymentFailure w s (set_currentOrder (Some u) p))
                  = next_id p).
    { intros s.
      pose proof (handlePaymentFailure_spec w s (set_currentOrder (Some u) p))
        as [_ [_ [Ht Hc]]].
      pose proof (handlePaymentFailure_next_id w s (set_currentOrder (Some u) p)).
      auto. }
    destruct (order_status u);
      cbn [triggerPaymentCallbacks observe timers clock next_id currentOrder
           handlePaymentPending set_currentOrder];
      try (repeat split; auto; discriminate);
      try (rewrite Hcs, Hns; repeat split; auto; discriminate);
      destruct (Hf Orders.failed) as [F1 [F2 F3]];
      destruct (Hf Orders.cancelled) as [C1 [C2 C3]];
      destruct (Hf Orders.expired) as [X1 [X2 X3]];
      rewrite ?F2, ?F3, ?C2, ?C3, ?X2, ?X3; repeat split; auto; discriminate.
Qed.

Lemma distinct_ids (p : page) (a m : timer) :
  schedule_ok p -> In a (timers p) -> In m (timers p) -> cb a <> cb m ->
  id a <> id m.
Proof.
  intros Hs Ha Hm Hne Hid. apply Hne. f_equal.
  apply (same_id (timers p)); auto. apply (ids_distinct p Hs).
Qed.

Lemma cut_ok_turn (w : world) (t0 : Z) (p : page) :
  cut_ok t0 p -> cut_ok t0 (react w Turn p).
Proof.
  intros H. cbn [react]. destruct (step w p) as [p'|] eqn:E; [|assumption].
  unfold step in E. destruct (navigating p); [discriminate|].
  destruct (earliest (timers p)) as [m|] eqn:Em; [|discriminate].
  injection E as <-. destruct H as [Hs Hh Hp Hf Hc].
  pose proof (earliest_spec _ _ Em) as [Hm _].
  pose proof (schedule_ok_start_task m p Hs Em) as Hs1.
  assert (Hh1 : forall t, In t (timers (start_task m p)) -> cb t = StatusPoll ->
                          statusCheckInterval (start_task m p) = Some (id t)).
  { intros t Hin Hcb. apply in_start_task_inv in Hin as [Hin|[d [Hd ->]]];
      [now apply Hh|]. cbn [cb id] in *. now apply Hh. }
  assert (Hp1 : forall t, In t (timers (start_task m p)) ->
                          statusCheckInterval (start_task m p) = Some (id t) ->
                          cb t = StatusPoll).
  { intros t Hin Hheld. apply in_start_task_inv in Hin as [Hin|[d [Hd ->]]];
      [now apply Hp|]. cbn [cb id] in *. now apply Hp. }
  assert (Hk1 : clock p <= clock (start_task m p))
    by (cbn [start_task clock]; now apply (due_later p Hs)).
  destruct (fire_frame w m (start_task m p)) as [Fc [Fn [Ff Fo]]].
  pose proof (schedule_ok_fire w m _ Hs1) as Hs'.
  destruct (stopped_is_over _ Hh1) as [So St].
  assert (Hlater : currentOrder p = None \/ ceiling t0 <= clock p ->
                   currentOrder (fire w m (start_task m p)) = None
                   \/ ceiling t0 <= clock (fire w m (start_task m p))).
  { intros [Ho|Hl]; [left; now apply Fo | right; rewrite Fc; lia]. }
  destruct (fire_polling w m (start_task m p)) as [[Lm [Li [La Lb]]]|[Ri Rt]].
  - split.
    + exact Hs'.
    + intros t Hin Hcb. rewrite Li. apply Hh1; auto.
    + intros t Hin Hheld. rewrite Li in Hheld. destruct (Ff t Hin) as [Hold|Hnew];
        [auto|]. apply Hf in Hheld. cbn [start_task next_id] in Hnew. lia.
    + intros i Hi. rewrite Li in Hi. apply Hf in Hi.
      cbn [start_task next_id] in Fn. lia.
    + destruct Hc as [[a [Ha [Hca Hda]]]|[Hnone [Hnp Hor]]].
      * left. exists a. split; [|auto]. apply Lb.
        -- apply kept_by_start_task;
             [apply (ids_distinct p Hs) | assumption | assumption
             | intros ->; congruence].
        -- left. apply (distinct_ids p); auto. congruence.
      * right. split; [now rewrite Li|]. split; [|auto].
        intros t Hin Hcb. pose proof (La t Hin (or_introl Hcb)) as Hin1.
        apply Hh1 in Hin1; [|assumption]. cbn [start_task statusCheckInterval] in Hin1.
        congruence.
  - rewrite <- Rt in St. split.
    + exact Hs'.
    + intros t Hin Hcb. now apply St in Hin.
    + intros t Hin Hheld. rewrite Ri, So in Hheld. discriminate.
    + intros i Hi. rewrite Ri, So in Hi. discriminate.
    + destruct Hc as [[a [Ha [Hca Hda]]]|[Hnone [Hnp Hor]]].
      * destruct (Nat.eq_dec (id a) (id m)) as [Hid|Hid].
        -- assert (a = m) as ->
             by (apply (same_id (timers p)); auto; apply (ids_distinct p Hs)).
           right. split; [now rewrite Ri|]. split; [exact St|].
           right. rewrite Fc. cbn [start_task clock]. lia.
        -- left. exists a. split; [|auto]. rewrite Rt.
           apply stopStatusPolling_spec.
           assert (Ha1 : In a (timers (start_task m p))).
           { apply kept_by_start_task;
               [apply (ids_distinct p Hs) | assumption | assumption
               | intros ->; congruence]. }
           split; [assumption|]. intros Hheld. apply Hp1 in Hheld; congruence.
      * right. split; [now rewrite Ri|]. split; [exact St | auto].
Qed.

Lemma startStatusPolling_spec (p : page) :
  statusCheckInterval (startStatusPolling p) = Some (next_id p)
  /\ next_id (startStatusPolling p) = S (S (next_id p))
  /\ clock (startStatusPolling p) = clock p
  /\ currentOrder (startStatusPolling p) = currentOrder p
  /\ log (startStatusPolling p) = log p
  /\ forall t, In t (timers (startStatusPolling p)) <->
               (In t (timers p) /\ statusCheckInterval p <> Some (id t))
               \/ t = mkTimer (next_id p) (clock p + 5000) (Some 5000) StatusPoll
               \/ t = mkTimer (S (next_id p)) (clock p + minutes_30) None AutoStop.
Proof.
  unfold startStatusPolling.
  destruct (statusCheckInterval p) as [i|] eqn:E;
    cbn [setInterval setTimeout schedule snd clearInterval set_timers
         set_statusCheckInterval statusCheckInterval next_id clock currentOrder
         log timers];
    (repeat (split; [reflexivity|])); intros t;
    rewrite !in_app_iff; cbn [In].
  - rewrite in_cleared. split.
    + intros [[[H1 H2]|[<-|[]]]|[<-|[]]]; auto.
      left. split; [assumption | congruence].
    + intros [[H1 H2]|[-> | ->]]; auto. left. left. split; [assumption | congruence].
  - split.
    + intros [[H1|[<-|[]]]|[<-|[]]]; auto. left. split; [assumption | discriminate].
    + intros [[H1 H2]|[-> | ->]]; auto.
Qed.

Lemma schedule_ok_startStatusPolling (p : page) :
  schedule_ok p -> schedule_ok (startStatusPolling p).
Proof.
  intros [S1 S2 S3 S4].
  destruct (startStatusPolling_spec p) as [Hi [Hn [Hc [_ [_ Ht]]]]].
  split.
  - intros t Hin. rewrite Hc. apply Ht in Hin as [[Hin _]|[-> | ->]]; [auto| |];
      cbn [due]; unfold minutes_30; lia.
  - intros t Hin. rewrite Hn. apply Ht in Hin as [[Hin _]|[-> | ->]];
      [apply S2 in Hin; lia | |]; cbn [id]; lia.
  - unfold startStatusPolling.
    assert (Hbase : forall l : list timer,
               NoDup (map id l) -> (forall t, In t l -> (id t < next_id p)%nat) ->
               NoDup (map id ((l ++ [mkTimer (next_id p) (clock p + 5000)
                                             (Some 5000) StatusPoll])
                              ++ [mkTimer (S (next_id p)) (clock p + minutes_30)
                                          None AutoStop]))).
    { intros l Hl Hlt. rewrite !map_app. cbn [map id].
      apply NoDup_snoc; [apply NoDup_snoc; [assumption|]|].
      - intros Hin. apply in_map_iff in Hin as [x [Hx Hin]]. apply Hlt in Hin. lia.
      - intros Hin. apply in_app_iff in Hin as [Hin|[Hin|[]]]; [|lia].
        apply in_map_iff in Hin as [x [Hx Hin]]. apply Hlt in Hin. lia. }
    destruct (statusCheckInterval p) as [i|];
      cbn [setInterval setTimeout schedule snd clearInterval set_timers
           set_statusCheckInterval next_id clock timers].
    + apply Hbase; [now apply NoDup_cleared|].
      intros t Hin. apply in_cleared in Hin as [Hin _]. auto.
    + now apply Hbase.
  - intros t d Hin Hd. apply Ht in Hin as [[Hin _]|[-> | ->]]; [eauto | |];
      cbn [period] in Hd; [injection Hd as <-; lia | discriminate].
Qed.

Lemma cut_ok_at_time (t0 t : Z) (p : page) :
  idle_until t p = true -> cut_ok t0 p -> cut_ok t0 (at_time t p).
Proof.
  unfold idle_until. intros G [[S1 S2 S3 S4] Hh Hp Hf Hc].
  apply andb_true_iff in G as [G1 G2]. apply Z.leb_le in G1.
  rewrite forallb_forall in G2.
  split; auto.
  - split; auto. intros x Hx. apply G2 in Hx. apply Z.leb_le in Hx. exact Hx.
  - destruct Hc as [Hc|[H1 [H2 [H3|H3]]]]; auto.
    right. split; [assumption|]. split; [assumption|]. right.
    cbn [at_time clock]. lia.
Qed.

Lemma cut_ok_stopStatusPolling (t0 : Z) (p : page) :
  cut_ok t0 p -> cut_ok t0 (stopStatusPolling p).
Proof.
  intros [Hs Hh Hp Hf Hc].
  destruct (stopped_is_over p Hh) as [So St].
  destruct (stopStatusPolling_spec p) as [_ [Hk [_ [Ho [_ [_ Ht]]]]]].
  split.
  - now apply schedule_ok_stopStatusPolling.
  - intros t Hin Hcb. now apply St in Hin.
  - intros t _ Hheld. rewrite So in Hheld. discriminate.
  - intros i Hi. rewrite So in Hi. discriminate.
  - destruct Hc as [[a [Ha [Hca Hda]]]|[H1 [H2 H3]]].
    + left. exists a. split; [|auto]. apply Ht. split; [assumption|].
      intros Hheld. apply Hp in Hheld; congruence.
    + right. split; [assumption|]. split; [assumption|]. now rewrite Ho, Hk.
Qed.

Lemma cut_ok_startStatusPolling (t0 : Z) (p : page) :
  (exists t, In t (timers p) /\ cb t = AutoStop /\ due t = ceiling t0) ->
  cut_ok t0 p -> cut_ok t0 (startStatusPolling p).
Proof.
  intros [a [Ha [Hca Hda]]] [Hs Hh Hp Hf Hc].
  destruct (startStatusPolling_spec p) as [Hi [Hn [Hk [Ho [_ Ht]]]]].
  split.
  - now apply schedule_ok_startStatusPolling.
  - intros t Hin Hcb. rewrite Hi. apply Ht in Hin as [[Hin Hne]|[-> | ->]].
    + exfalso. apply Hne. now apply Hh.
    + reflexivity.
    + discriminate.
  - intros t Hin Hheld. rewrite Hi in Hheld. injection Hheld as Hid.
    apply Ht in Hin as [[Hin Hne]|[-> | ->]].
    + apply (ids_fresh p Hs) in Hin. lia.
    + reflexivity.
    + cbn [id] in Hid. lia.
  - intros i Hi'. rewrite Hi in Hi'. injection Hi' as <-. lia.
  - left. exists a. split; [|auto]. apply Ht. left. split; [assumption|].
    intros Hheld. apply Hp in Hheld; congruence.
Qed.

Lemma cut_ok_visibility (w : world) (t0 t : Z) (hidden : bool) (p : page) :
  (hidden = false -> t < ceiling t0) ->
  cut_ok t0 p -> cut_ok t0 (react w (VisibilityChange t hidden) p).
Proof.
  intros Hshow H. cbn [react].
  destruct (negb (navigating p) && idle_until t p) eqn:G; [|assumption].
  apply andb_true_iff in G as [_ G].
  pose proof (cut_ok_at_time t0 t p G H) as Hb.
  unfold handleVisibilityChange. destruct hidden.
  - destruct (statusCheckInterval (at_time t p)); [|assumption].
    now apply cut_ok_stopStatusPolling.
  - destruct (currentOrder (at_time t p)) as [o|] eqn:E; [|assumption].
    destruct (Orders.status_eqb (order_status o) Orders.pending); [|assumption].
    apply cut_ok_startStatusPolling; [|assumption].
    destruct (cut_stop t0 _ Hb) as [Hc|[_ [_ [Hc|Hc]]]]; [assumption | congruence|].
    specialize (Hshow eq_refl). cbn [at_time clock] in Hc. lia.
Qed.

Lemma cut_ok_session (t0 : Z) (o : order_data) : cut_ok t0 (session t0 o).
Proof.
  pose proof (session_ok_session t0 o) as [Hs Hp _ _].
  split.
  - exact Hs.
  - intros t Hin Hcb. now destruct (poll_timer t0 _ Hp t Hin Hcb).
  - intros t Hin Hheld. destruct (poll_active t0 _ Hp _ Hheld) as [x [Hx [Hid Hcx]]].
    assert (x = t) as ->
      by (apply (same_id (timers (session t0 o))); auto; apply (ids_distinct _ Hs)).
    assumption.
  - intros i Hi. cbn in Hi. injection Hi as <-. cbn. lia.
  - left. eexists. split; [cbn; right; left; reflexivity|]. split; reflexivity.
Qed.

Lemma shown_at_app (l l' : list input) :
  shown_at (l ++ l') = (shown_at l ++ shown_at l')%list.
Proof. unfold shown_at. apply flat_map_app. Qed.

Lemma cut_ok_reacts (w : world) (t0 : Z) (ins : list input) (p : page) :
  (forall t, In t (shown_at ins) -> t < ceiling t0) ->
  cut_ok t0 p -> cut_ok t0 (reacts w ins p).
Proof.
  revert p. induction ins as [|i ins IH]; intros p Hshow H; [assumption|].
  cbn [reacts fold_left]. apply IH.
  - intros t Ht. apply Hshow. change (i :: ins) with ([i] ++ ins)%list.
    rewrite shown_at_app. apply in_or_app. now right.
  - destruct i as [|t hidden]; [now apply cut_ok_turn|].
    apply cut_ok_visibility; [|assumption].
    intros ->. apply Hshow. cbn. now left.
Qed.

(** X21.  Pausing and resuming the polling (handleVisibilityChange) does not
    move the end of the polling.  Whatever turns of the event loop and
    changes of visibility reach a session, as long as the tab is never shown
    again at or after 30 minutes from the start: at most one periodic status
    check is in the queue, and it is the one the page holds; while the page
    holds one, a timeout is pending; and past 30 minutes from the start the
    polling is off, however late it was resumed.  Each resume nevertheless
    queues a timeout of its own, 30 minutes after the resume, and leaves the
    earlier ones in the queue. *)
Theorem resumed_polling_ends_at_first_timeout (w : world) (t0 : Z) (o : order_data)
    (ins : list input) :
  forallb (fun t => t <? t0 + 30 * 60 * 1000) (shown_at ins) = true ->
  (forall t, In t (timers (reacts w ins (session t0 o))) -> cb t = StatusPoll ->
             statusCheckInterval (reacts w ins (session t0 o)) = Some (id t))
  /\ (forall t t', In t (timers (reacts w ins (session t0 o))) ->
                   In t' (timers (reacts w ins (session t0 o))) ->
                   cb t = StatusPoll -> cb t' = StatusPoll -> t = t')
  /\ (statusCheckInterval (reacts w ins (session t0 o)) <> None ->
      timeout_pending (reacts w ins (session t0 o)) = true)
  /\ (t0 + 30 * 60 * 1000 < clock (reacts w ins (session t0 o)) ->
      statusCheckInterval (reacts w ins (session t0 o)) = None
      /\ forall t, In t (timers (reacts w ins (session t0 o))) -> cb t <> StatusPoll)
  /\ (forall p c, currentOrder p = Some c -> order_status c = Orders.pending ->
        statusCheckInterval (handleVisibilityChange false p) = Some (next_id p)
        /\ In (mkTimer (next_id p) (clock p + 5000) (Some 5000) StatusPoll)
              (timers (handleVisibilityChange false p))
        /\ In (mkTimer (S (next_id p)) (clock p + 30 * 60 * 1000) None AutoStop)
              (timers (handleVisibilityChange false p))
        /\ forall t, In t (timers p) -> cb t = AutoStop ->
                     statusCheckInterval p <> Some (id t) ->
                     In t (timers (handleVisibilityChange false p))).
Proof.
  intros Hshow.
  assert (H : cut_ok t0 (reacts w ins (session t0 o))).
  { apply cut_ok_reacts; [|apply cut_ok_session].
    intros t Ht. rewrite forallb_forall in Hshow. apply Hshow in Ht.
    apply Z.ltb_lt in Ht. unfold ceiling, minutes_30. lia. }
  destruct H as [Hs Hh Hp Hf Hc].
  split; [exact Hh|]. split; [|split; [|split]].
  - intros t t' Hin Hin' Hcb Hcb'. apply (same_id (timers (reacts w ins (session t0 o))));
      auto; [apply (ids_distinct _ Hs)|].
    pose proof (Hh t Hin Hcb) as E. rewrite (Hh t' Hin' Hcb') in E. now injection E.
  - intros Hon. destruct Hc as [[a [Ha [Hca _]]]|[Hoff _]]; [|congruence].
    unfold timeout_pending. apply existsb_exists. exists a. now rewrite Hca.
  - intros Hlate. destruct Hc as [[a [Ha [_ Hda]]]|[Hoff [Hno _]]]; [|auto].
    apply (due_later _ Hs) in Ha. unfold ceiling, minutes_30 in Hda. lia.
  - intros p c Hcur Hpend. unfold handleVisibilityChange.
    rewrite Hcur, Hpend. cbn [Orders.status_eqb].
    destruct (startStatusPolling_spec p) as [Hi [_ [_ [_ [_ Ht]]]]].
    split; [assumption|]. split; [apply Ht; auto|]. split; [apply Ht; auto|].
    intros t Hin _ Hne. apply Ht. auto.
Qed.

Lemma resumed_polling_ends_at_first_timeout_witness :
  forallb (fun t => t <? 0 + 30 * 60 * 1000)
          (shown_at ([VisibilityChange 500 true; VisibilityChange 800 false]
                     ++ repeat Turn 3000)) = true
  /\ (0 + 30 * 60 * 1000
      < clock (reacts never_pays
                 ([VisibilityChange 500 true; VisibilityChange 800 false]
                  ++ repeat Turn 3000) (session 0 an_order)) ->
      statusCheckInterval
        (reacts never_pays
           ([VisibilityChange 500 true; VisibilityChange 800 false]
            ++ repeat Turn 3000) (session 0 an_order)) = None
      /\ forall t,
           In t (timers (reacts never_pays
                           ([VisibilityChange 500 true; VisibilityChange 800 false]
                            ++ repeat Turn 3000) (session 0 an_order))) ->
           cb t <> StatusPoll).
Proof.
  split; [vm_compute; reflexivity|].
  apply (resumed_polling_ends_at_first_timeout never_pays 0 an_order
           ([VisibilityChange 500 true; VisibilityChange 800 false]
            ++ repeat Turn 3000)).
  vm_compute; reflexivity.
Defined.

(** * The periodic check, exactly *)















(** A window that is opened on a manager without a stored order is watched
    and polled as well, but its periodic checks send nothing: in 30 seconds
    six checks ran and no request left. *)
Example polling_without_order_sends_nothing :
  poll_times (steps 36 never_pays (openPaymentWindow (constructed 0)))
  = [30000; 25000; 20000; 15000; 10000; 5000]
  /\ requests (steps 36 never_pays (openPaymentWindow (constructed 0))) = [].
Proof. vm_compute. split; reflexivity. Qed.

(** * Foreign keys

    Of the inserts of the five functions only [INSERT INTO orders] takes a
    reference from an argument of the call, and it is checked there.  The
    other rows copy their references from an order of the table, or from
    the arguments once the order was inserted: on a database whose foreign
    keys hold, they hold again after every request. *)

Lemma references_ok_iff (d : db) :
  references_ok d = true <->
  (forall o, In o (orders d) ->
     user_is_there d (Orders.user_id o) = true
     /\ book_is_there d (Orders.book_id o) = true)
  /\ (forall p, In p (user_purchases d) ->
        user_is_there d (UserPurchases.user_id p) = true
        /\ book_is_there d (UserPurchases.book_id p) = true
        /\ order_is_there d (UserPurchases.order_id p) = true)
  /\ (forall l, In l (payment_logs d) ->
        order_is_there d (PaymentLogs.order_id l) = true)
  /\ (forall a, In a (audit_logs d) ->
        user_is_there d (AuditLogs.user_id a) = true).
Proof.
  unfold references_ok. rewrite !andb_true_iff, !forallb_forall. split.
  - intros [[[Ho Hp] Hl] Ha].
    split; [|split; [|split; [exact Hl | exact Ha]]].
    + intros o H. specialize (Ho o H). now apply andb_true_iff in Ho.
    + intros p H. specialize (Hp p H). apply andb_true_iff in Hp as [Hp Hp3].
      apply andb_true_iff in Hp as [Hp1 Hp2]. auto.
  - intros [Ho [Hp [Hl Ha]]].
    split; [split; [split|]|]; [| |exact Hl | exact Ha].
    + intros o H. destruct (Ho o H) as [-> ->]. reflexivity.
    + intros p H. destruct (Hp p H) as [-> [-> ->]]. reflexivity.
Qed.

Lemma order_is_there_in (d : db) (o : Orders.row) :
  In o (orders d) -> order_is_there d (Some (Orders.id o)) = true.
Proof.
  intros H. cbn [order_is_there]. apply existsb_exists. exists o.
  split; [assumption | apply String.eqb_refl].
Qed.

(** The references of the rows of [d'] are those of rows of [d], or hold
    in [d]. *)
Lemma references_kept (d d' : db) :
  users d' = users d ->
  books d' = books d ->
  (forall o, In o (orders d) ->
     exists o', In o' (orders d') /\ Orders.id o' = Orders.id o) ->
  (forall o', In o' (orders d') ->
     (exists o, In o (orders d)
                /\ Orders.user_id o' = Orders.user_id o
                /\ Orders.book_id o' = Orders.book_id o)
     \/ (user_is_there d (Orders.user_id o') = true
         /\ book_is_there d (Orders.book_id o') = true)) ->
  (forall p, In p (user_purchases d') ->
     In p (user_purchases d)
     \/ exists o, In o (orders d)
                  /\ UserPurchases.user_id p = Orders.user_id o
                  /\ UserPurchases.book_id p = Orders.book_id o
                  /\ UserPurchases.order_id p = Some (Orders.id o)) ->
  (forall l, In l (payment_logs d') ->
     In l (payment_logs d)
     \/ exists o, In o (orders d) /\ PaymentLogs.order_id l = Some (Orders.id o)) ->
  (forall a, In a (audit_logs d') ->
     In a (audit_logs d)
     \/ user_is_there d (AuditLogs.user_id a) = true) ->
  references_ok d = true -> references_ok d' = true.
Proof.
  intros Hu Hb Hids Ho Hp Hl Ha H.
  apply references_ok_iff in H as [Ro [Rp [Rl Ra]]].
  assert (U : forall c, user_is_there d' c = user_is_there d c).
  { intros [u|]; cbn [user_is_there]; [now rewrite Hu | reflexivity]. }
  assert (B : forall c, book_is_there d' c = book_is_there d c).
  { intros [b|]; cbn [book_is_there]; [now rewrite Hb | reflexivity]. }
  assert (O : forall c, order_is_there d c = true -> order_is_there d' c = true).
  { intros [i|]; cbn [order_is_there]; [|reflexivity].
    rewrite !existsb_exists. intros [o [Hin E]].
    destruct (Hids o Hin) as [o' [Hin' E']]. exists o'. now rewrite E'. }
  apply references_ok_iff.
  split; [|split; [|split]].
  - intros o Hin. rewrite U, B.
    destruct (Ho o Hin) as [[x [Hx [-> ->]]]|E]; [now apply Ro | assumption].
  - intros p Hin. rewrite U, B.
    destruct (Hp p Hin) as [Hin'|[x [Hx [-> [-> ->]]]]].
    + destruct (Rp p Hin') as [R1 [R2 R3]]. auto.
    + destruct (Ro x Hx) as [R1 R2]. split; [assumption|]. split; [assumption|].
      now apply O, order_is_there_in.
  - intros l Hin. apply O. destruct (Hl l Hin) as [Hin'|[x [Hx ->]]]; [now apply Rl|].
    now apply order_is_there_in.
  - intros a Hin. rewrite U. destruct (Ha a Hin) as [Hin'|E]; [now apply Ra | assumption].
Qed.

(** An update of [orders] that keeps [id], [user_id] and [book_id]. *)
Lemma in_updated_orders (cond : Orders.row -> bool) (set : Orders.row -> Orders.row)
    (l : list Orders.row) :
  (forall o, Orders.id (set o) = Orders.id o
             /\ Orders.user_id (set o) = Orders.user_id o
             /\ Orders.book_id (set o) = Orders.book_id o) ->
  (forall o, In o l ->
     exists o', In o' (map (fun x => if cond x then set x else x) l)
                /\ Orders.id o' = Orders.id o)
  /\ (forall o', In o' (map (fun x => if cond x then set x else x) l) ->
        exists o, In o l
                  /\ Orders.user_id o' = Orders.user_id o
                  /\ Orders.book_id o' = Orders.book_id o).
Proof.
  intros Hset. split.
  - intros o Hin. exists (if cond o then set o else o). split.
    + apply in_map_iff. now exists o.
    + destruct (cond o); [apply Hset | reflexivity].
  - intros o' Hin. apply in_map_iff in Hin as [o [<- Hin]]. exists o.
    split; [assumption|]. destruct (cond o); [|auto].
    destruct (Hset o) as [_ [-> ->]]. auto.
Qed.

Lemma references_created (d : db) (r : Orders.row) (au : list AuditLogs.row) :
  user_is_there d (Orders.user_id r) = true ->
  book_is_there d (Orders.book_id r) = true ->
  (forall a, In a au -> AuditLogs.user_id a = Orders.user_id r) ->
  references_ok d = true ->
  references_ok (mkdb (users d) (books d) (orders d ++ [r]) (user_purchases d)
                      (payment_logs d) (audit_logs d ++ au) (webhook_events d))
  = true.
Proof.
  intros Hu Hb Hau. apply references_kept; cbn [users books orders user_purchases
                                               payment_logs audit_logs]; auto.
  - intros o Hin. exists o. split; [apply in_or_app; now left | reflexivity].
  - intros o' Hin. apply in_app_iff in Hin as [Hin|[<-|[]]]; [|auto].
    left. exists o'. auto.
  - intros a Hin. apply in_app_iff in Hin as [Hin|Hin]; [auto|].
    right. now rewrite (Hau a Hin).
Qed.

Lemma serve_references (r : request) (d : db) :
  references_ok d = true -> references_ok (serve r d) = true.
Proof.
  intros H.
  destruct r as [[e u b a pm k|e t o ty pl|e n t w|e]|e u b a pm]; simpl;
    unfold after.
  - rewrite create_order_with_idempotency_unfold.
    destruct (negb _); [assumption|].
    destruct (existsb _ (user_purchases d)); [assumption|].
    destruct (insert_orders _ d) as [[c|rel c|rel c]|[[] d']] eqn:I; try assumption.
    destruct (insert_orders_references _ _ _ I) as [Hu Hb].
    apply insert_orders_inr in I as [_ [_ [_ [_ [_ ->]]]]].
    pose proof (references_created d (new_order e u b a pm k) [] Hu Hb) as R.
    rewrite app_nil_r in R. apply R; [intros x [] | assumption].
  - rewrite process_webhook_event_unfold.
    destruct (existsb _ (webhook_events d)); [assumption|].
    pose proof H as R0. revert R0. apply references_kept; cbn [users books orders user_purchases
                                          payment_logs audit_logs snd]; auto.
    + intros x Hin. now exists x.
    + intros x Hin. left. exists x. auto.
  - rewrite complete_payment_atomic_unfold.
    destruct (completion_of n d) as [|x|x|x|x] eqn:C; try assumption.
    apply completion_settled_inv in C as [Hin _].
    destruct (in_updated_orders
                (fun y => String.eqb (Orders.id y) (Orders.id x))
                (Orders.set_paid (NOW e)) (orders d)) as [K1 K2];
      [intros y; repeat split|].
    pose proof H as R0. revert R0. apply references_kept; cbn [snd settled users books orders
                                          user_purchases payment_logs audit_logs];
      auto.
    + intros p Hp. apply in_app_iff in Hp as [Hp|[<-|[]]]; [auto|].
      right. exists x. auto.
    + intros l Hl. apply in_app_iff in Hl as [Hl|[<-|[]]]; [auto|].
      right. exists x. auto.
    + intros au Ha. apply in_app_iff in Ha as [Ha|[<-|[]]]; [auto|].
      right. cbn [audit_of_payment AuditLogs.user_id].
      apply references_ok_iff in H as [Ro _]. now apply Ro.
  - rewrite cleanup_expired_orders_unfold. cbv zeta.
    destruct (in_updated_orders (pending_and_expired (NOW e))
                (Orders.set_expired (NOW e)) (orders d)) as [K1 K2];
      [intros y; repeat split|].
    pose proof H as R0. revert R0. apply references_kept; cbn [snd users books orders user_purchases
                                          payment_logs audit_logs]; auto.
    intros au Ha. apply in_app_iff in Ha as [Ha|[<-|[]]]; auto.
  - rewrite create_order_atomic_unfold.
    destruct (negb _); [assumption|].
    destruct (existsb _ (user_purchases d)); [assumption|].
    destruct (insert_orders _ d) as [err|[[] d']] eqn:I; [assumption|].
    destruct (insert_orders_references _ _ _ I) as [Hu Hb].
    apply insert_orders_inr in I as [_ [_ [_ [_ [_ ->]]]]].
    cbn [snd users books orders user_purchases payment_logs audit_logs
         webhook_events].
    apply references_created; auto.
    intros x [<-|[]]. reflexivity.
Qed.

(** X22.  The foreign keys that the inserts do not check hold all the same.
    On a database in which every reference of orders, user_purchases,
    payment_logs and audit_logs that is not null names a row of users, books
    or orders, this is so again after any sequence of requests: the purchase,
    payment log and audit rows of a settlement take their references from
    the order they settle, the audit row of the sweep has none, and the
    audit row of create_order_atomic names the user that the insert of the
    order was checked for. *)
Theorem foreign_keys_hold (rs : list request) (d : db) :
  references_ok d = true ->
  references_ok (serve_all rs d) = true
  /\ (forall p u, In p (user_purchases (serve_all rs d)) ->
                  UserPurchases.user_id p = Some u ->
                  exists x, In x (users d) /\ Users.id x = u)
  /\ (forall p b, In p (user_purchases (serve_all rs d)) ->
                  UserPurchases.book_id p = Some b ->
                  exists x, In x (books d) /\ Books.id x = b)
  /\ (forall o u, In o (orders (serve_all rs d)) ->
                  Orders.user_id o = Some u ->
                  exists x, In x (users d) /\ Users.id x = u).
Proof.
  intros H.
  assert (R : references_ok (serve_all rs d) = true).
  { induction rs as [|r rs IH] using rev_ind; [assumption|].
    rewrite serve_all_snoc. now apply serve_references. }
  destruct (serve_all_appended rs d) as [pu [lo [au [we [[B [_ [_ [_ [_ U]]]]] _]]]]].
  split; [assumption|].
  apply references_ok_iff in R as [Ro [Rp _]].
  split; [|split].
  - intros p u Hp E. destruct (Rp p Hp) as [Hu _]. rewrite E in Hu.
    apply user_is_there_iff in Hu. now rewrite U in Hu.
  - intros p b Hp E. destruct (Rp p Hp) as [_ [Hb _]]. rewrite E in Hb.
    cbn [book_is_there] in Hb. apply existsb_exists in Hb as [x [Hx Ex]].
    exists x. rewrite <- B. split; [assumption | now apply String.eqb_eq].
  - intros o u Ho E. destruct (Ro o Ho) as [Hu _]. rewrite E in Hu.
    apply user_is_there_iff in Hu. now rewrite U in Hu.
Qed.

Lemma foreign_keys_hold_witness :
  references_ok shop = true
  /\ references_ok
       (serve_all [CreateOrderAtomic (mkenv_atomic at_1000 1735689600 "c0ffee00-1")
                                     "u-1" "b-1" 5000000 "qris";
                   Call (CompletePayment at_3000 "ORD-1735689600-c0ffee00"
                                         "tx-1" gateway_payload)] shop) = true
  /\ user_purchases
       (serve_all [CreateOrderAtomic (mkenv_atomic at_1000 1735689600 "c0ffee00-1")
                                     "u-1" "b-1" 5000000 "qris";
                   Call (CompletePayment at_3000 "ORD-1735689600-c0ffee00"
                                         "tx-1" gateway_payload)] shop) <> [].
Proof.
  split; [vm_compute; reflexivity|]. split.
  - apply (foreign_keys_hold
             [CreateOrderAtomic (mkenv_atomic at_1000 1735689600 "c0ffee00-1")
                                "u-1" "b-1" 5000000 "qris";
              Call (CompletePayment at_3000 "ORD-1735689600-c0ffee00"
                                    "tx-1" gateway_payload)] shop).
    vm_compute; reflexivity.
  - vm_compute. discriminate.
Defined.
